(** * OrthoAI voice workers

    A shallow embedding of [scripts/voice/whisper_worker.py] and
    [scripts/voice/piper_worker.py]: the line-delimited JSON worker protocol
    (startup event, request loop, per-line failure isolation) and the audio
    pipeline behind the recognition worker (WAV decoding, linear resampling,
    segment-confidence aggregation).

    Python [float] is IEEE 754 binary64 and numpy's [float32] is binary32;
    both are modelled bit for bit with the Standard Library's [spec_float]
    operations.  What the workers import (json, base64, wave, numpy, math,
    whisper, piper, os, time) is gathered in the [Runtime] class and stays
    abstract. *)

From Stdlib Require Import ZArith List String Ascii Bool Lia DecimalString.
From Stdlib.Strings Require Import Byte.
From Stdlib Require Import SpecFloat.
Import ListNotations.
Local Open Scope Z_scope.
Local Open Scope list_scope.

(** ** Exceptions and results *)

(** The classes of the exceptions the modelled code raises itself; anything a
    library raises under another class is an [OtherError].  Every class here
    derives from [Exception], which is what the workers catch. *)
Inductive exn_class :=
| TypeError
| ValueError
| OverflowError
| ZeroDivisionError
| AttributeError
| RuntimeError
| OtherError (name : string).

(** An exception instance: its class and [str(error)]. *)
Record exn := mk_exn { exn_cls : exn_class; exn_msg : string }.

Inductive result (A : Type) :=
| Ok (a : A)
| Raise (e : exn).
Arguments Ok {A} a.
Arguments Raise {A} e.

Definition rbind {A B} (r : result A) (k : A -> result B) : result B :=
  match r with
  | Ok a => k a
  | Raise e => Raise e
  end.

Declare Scope result_scope.
Delimit Scope result_scope with result.
Notation "x <- r ;; k" := (rbind r (fun x => k))
  (at level 100, r at next level, right associativity) : result_scope.
Notation "' p <- r ;; k" := (rbind r (fun p => k))
  (at level 100, p pattern, r at next level, right associativity) : result_scope.

(** ** Python values *)

(** The values [json.loads] produces, which are also the values the
    recognition model hands back ([dict], [list], [str], numbers, [None]).
    A [dict] keeps its items in insertion order, as Python does. *)
#[warnings="-register-all"]
Inductive pyval :=
| PyNone
| PyBool (b : bool)
| PyInt (z : Z)
| PyFloat (f : spec_float)
| PyStr (s : string)
| PyList (l : list pyval)
| PyDict (d : list (string * pyval)).

Definition pydict := list (string * pyval).

(** An item of a [dict] display, [{"key": value, ...}]. *)
Notation "k |-> v" := (pair k%string v) (at level 65, no associativity, only parsing).

Fixpoint dict_get (d : pydict) (key : string) : option pyval :=
  match d with
  | [] => None
  | (k, v) :: d' => if String.eqb k key then Some v else dict_get d' key
  end.

Definition dict_keys (d : pydict) : list string := map fst d.

Definition type_name (v : pyval) : string :=
  match v with
  | PyNone => "NoneType"
  | PyBool _ => "bool"
  | PyInt _ => "int"
  | PyFloat _ => "float"
  | PyStr _ => "str"
  | PyList _ => "list"
  | PyDict _ => "dict"
  end.

Definition no_attribute (v : pyval) (attr : string) : exn :=
  mk_exn AttributeError
    ("'" ++ type_name v ++ "' object has no attribute '" ++ attr ++ "'")%string.

(** [d.get(key, default)] on a [dict] *)
Definition dict_get_default (d : pydict) (key : string) (default : pyval) : pyval :=
  match dict_get d key with
  | Some x => x
  | None => default
  end.

(** [v.get(key, default)]: only a [dict] has the method. *)
Definition py_get_default (v : pyval) (key : string) (default : pyval) : result pyval :=
  match v with
  | PyDict d => Ok (dict_get_default d key default)
  | _ => Raise (no_attribute v "get")
  end.

(** [v.get(key)] *)
Definition py_get (v : pyval) (key : string) : result pyval :=
  py_get_default v key PyNone.

(** [isinstance(v, str)] and [isinstance(v, dict)] *)
Definition is_str (v : pyval) : bool :=
  match v with PyStr _ => true | _ => false end.

Definition is_dict (v : pyval) : bool :=
  match v with PyDict _ => true | _ => false end.

(** [v == s] for a string literal [s] *)
Definition py_eq_str (v : pyval) (s : string) : bool :=
  match v with
  | PyStr s' => String.eqb s' s
  | _ => false
  end.

(** ** Strings *)

(** A [str] is a Coq [string] whose characters are the code points below
    256.  Among them [str.isspace] holds of TAB..CR, FS..US, SPACE, NEL and
    NBSP. *)
Definition is_space (c : ascii) : bool :=
  let n := nat_of_ascii c in
  ((9 <=? n) && (n <=? 13) || (28 <=? n) && (n <=? 32) || (n =? 133) || (n =? 160))%nat.

Fixpoint lstrip (s : string) : string :=
  match s with
  | EmptyString => EmptyString
  | String c s' => if is_space c then lstrip s' else s
  end.

Fixpoint rstrip (s : string) : string :=
  match s with
  | EmptyString => EmptyString
  | String c s' =>
      match rstrip s' with
      | EmptyString => if is_space c then EmptyString else String c EmptyString
      | r => String c r
      end
  end.

(** [s.strip()] *)
Definition strip (s : string) : string := rstrip (lstrip s).

Definition is_empty (s : string) : bool :=
  match s with EmptyString => true | _ => false end.

(** [s.lower()] on the code points below 256: A..Z and the Latin-1 capitals
    (U+00C0..U+00DE but the multiplication sign) move up by 32. *)
Definition lower_char (c : ascii) : ascii :=
  let n := nat_of_ascii c in
  if ((65 <=? n) && (n <=? 90) || (192 <=? n) && (n <=? 222) && negb (n =? 215))%nat
  then ascii_of_nat (n + 32) else c.

Fixpoint lower (s : string) : string :=
  match s with
  | EmptyString => EmptyString
  | String c s' => String (lower_char c) (lower s')
  end.

Definition decimal (z : Z) : string := NilZero.string_of_int (Z.to_int z).

(** ** Floating point *)

(** Python's [float] (binary64) and numpy's [float32] (binary32). *)
Definition float64 := spec_float.
Definition float32 := spec_float.

Module F64.
Definition prec := 53.
Definition emax := 1024.
Definition add : float64 -> float64 -> float64 := SFadd prec emax.
Definition sub : float64 -> float64 -> float64 := SFsub prec emax.
Definition mul : float64 -> float64 -> float64 := SFmul prec emax.
Definition div : float64 -> float64 -> float64 := SFdiv prec emax.
Definition ltb : float64 -> float64 -> bool := SFltb.
Definition leb : float64 -> float64 -> bool := SFleb.
Definition eqb : float64 -> float64 -> bool := SFeqb.
Definition valid : float64 -> bool := valid_binary prec emax.
(** The nearest double to an integer (ties to even). *)
Definition of_Z (z : Z) : float64 := binary_normalize prec emax z 0 false.
(** The nearest double to [num / den]: how a decimal literal such as [0.2]
    is read. *)
Definition ratio (num den : Z) : float64 := div (of_Z num) (of_Z den).
Definition zero : float64 := S754_zero false.
Definition one : float64 := of_Z 1.
End F64.

Module F32.
Definition prec := 24.
Definition emax := 128.
Definition sub : float32 -> float32 -> float32 := SFsub prec emax.
Definition div : float32 -> float32 -> float32 := SFdiv prec emax.
Definition of_Z (z : Z) : float32 := binary_normalize prec emax z 0 false.
(** [astype(np.float32)] of a double. *)
Definition of_f64 (x : float64) : float32 :=
  match x with
  | S754_finite s m e => binary_round prec emax s m e
  | _ => x
  end.
End F32.

Definition is_zero (x : spec_float) : bool :=
  match x with S754_zero _ => true | _ => false end.

Definition is_nan (x : spec_float) : bool :=
  match x with S754_nan => true | _ => false end.

Definition is_infinity (x : spec_float) : bool :=
  match x with S754_infinity _ => true | _ => false end.

(** The builtin [max(a, b)] keeps [a] unless [b > a]; [min(a, b)] keeps [a]
    unless [b < a].  With a NaN every comparison is false. *)
Definition py_max (a b : float64) : float64 := if F64.ltb a b then b else a.
Definition py_min (a b : float64) : float64 := if F64.ltb b a then b else a.

(** [float(z)] of an [int] *)
Definition float_of_int (z : Z) : result float64 :=
  let f := F64.of_Z z in
  if is_infinity f then Raise (mk_exn OverflowError "int too large to convert to float")
  else Ok f.

(** [x / y] on floats *)
Definition float_div (x y : float64) : result float64 :=
  if is_zero y then Raise (mk_exn ZeroDivisionError "float division by zero")
  else Ok (F64.div x y).

(** [a / b] on ints: the correctly rounded quotient; [0 / b] has the sign
    of [b] ([0 / -5] is [-0.0]). *)
Definition int_true_div (a b : Z) : result float64 :=
  if b =? 0 then Raise (mk_exn ZeroDivisionError "division by zero")
  else if a =? 0 then Ok (S754_zero (b <? 0))
  else
    let '(q, e, l) := SFdiv_core_binary F64.prec F64.emax (Z.abs a) 0 (Z.abs b) 0 in
    let f := binary_round_aux F64.prec F64.emax (xorb (a <? 0) (b <? 0)) q e l in
    if is_infinity f
    then Raise (mk_exn OverflowError "integer division result too large for a float")
    else Ok f.

(** Nearest integer to [m / 2^k], ties to even. *)
Definition round_half_even (m : Z) (k : Z) : Z :=
  let q := m / 2 ^ k in
  let r := m mod 2 ^ k in
  match Z.compare (2 * r) (2 ^ k) with
  | Lt => q
  | Gt => q + 1
  | Eq => if Z.even q then q else q + 1
  end.

(** [round(x)] with no digits argument *)
Definition py_round (x : float64) : result Z :=
  match x with
  | S754_nan => Raise (mk_exn ValueError "cannot convert float NaN to integer")
  | S754_infinity _ => Raise (mk_exn OverflowError "cannot convert float infinity to integer")
  | S754_zero _ => Ok 0
  | S754_finite s m e =>
      let n := if 0 <=? e then Zpos m * 2 ^ e else round_half_even (Zpos m) (- e) in
      Ok (if s then - n else n)
  end.

(** [max(a, b)] on ints *)
Definition int_max (a b : Z) : Z := if a <? b then b else a.

(** ** The libraries the workers import *)

(** What [wave.open(..., "rb")] exposes of a WAV buffer: the header fields
    and the bytes [readframes(getnframes())] returns. *)
Record wav_file := mk_wav {
  getframerate : Z;
  getnchannels : Z;
  getsampwidth : Z;
  readframes : list byte
}.

(** The keyword arguments of [model.transcribe]. *)
Record decode_options := mk_options {
  opt_task : string;
  opt_temperature : float64;
  opt_fp16 : bool;
  opt_verbose : bool;
  opt_language : option string
}.

Class Runtime := {
  (** [json.loads], and [repr] of a value that is not a [str] *)
  json_loads : string -> result pyval;
  py_repr : pyval -> string;
  (** [float(s)] of a [str]; [None] when it raises [ValueError] *)
  float_of_string : string -> option float64;
  (** [os.getenv] *)
  getenv : string -> option string;
  (** [time.perf_counter()], by the number of earlier calls, and
      [int((later - earlier) * 1000)] *)
  timestamp : Type;
  perf_counter : nat -> timestamp;
  elapsed_ms : timestamp -> timestamp -> Z;
  (** [base64.b64decode], [base64.b64encode(..).decode("ascii")] *)
  b64decode : string -> result (list byte);
  b64encode : list byte -> string;
  (** [wave.open(io.BytesIO(..), "rb")] with its four getters *)
  wave_open : list byte -> result wav_file;
  (** numpy: the mean of one row of a [float32] array, [np.linspace(start,
      stop, num=num, endpoint=False)], [np.interp(x, xp, fp)] *)
  np_mean : list float32 -> float32;
  np_linspace : float64 -> float64 -> Z -> list float64;
  np_interp : list float64 -> list float64 -> list float32 -> list float64;
  (** [math.exp] *)
  math_exp : float64 -> result float64;
  (** [whisper.load_model(name, device=device)], [model.transcribe] *)
  whisper_model : Type;
  whisper_load_model : string -> string -> result whisper_model;
  whisper_transcribe : whisper_model -> list float32 -> decode_options -> result pyval;
  (** [PiperVoice.load], and [voice.synthesize_wav] writing into a fresh
      [wave] file whose bytes are returned *)
  piper_voice : Type;
  PiperVoice_load : string -> option string -> bool -> result piper_voice;
  voice_synthesize_wav : piper_voice -> string -> float64 -> float64 -> result (list byte)
}.

(** What the proofs about resampling and confidence use of numpy and libm:
    the shapes numpy documents, and [exp(+-0) = 1] with a finite result in
    [0, 1] on the non-positive arguments. *)
Class RuntimeLaws (rt : Runtime) : Prop := {
  np_linspace_length : forall start stop num,
    List.length (np_linspace start stop num) = Z.to_nat num;
  np_interp_length : forall x xp fp,
    List.length (np_interp x xp fp) = List.length x;
  math_exp_zero : forall s, math_exp (S754_zero s) = Ok F64.one;
  math_exp_nonpos : forall x, F64.leb x F64.zero = true ->
    exists y, math_exp x = Ok y /\ F64.valid y = true /\
              F64.leb F64.zero y = true /\ F64.leb y F64.one = true
}.

Section Worker.
Context {rt : Runtime}.

(** ** Conversions *)

(** [str(v)] *)
Definition py_str (v : pyval) : string :=
  match v with
  | PyStr s => s
  | _ => py_repr v
  end.

(** [float(v)] *)
Definition py_float (v : pyval) : result float64 :=
  match v with
  | PyFloat f => Ok f
  | PyInt z => float_of_int z
  | PyBool b => Ok (if b then F64.one else F64.zero)
  | PyStr s =>
      match float_of_string s with
      | Some f => Ok f
      | None => Raise (mk_exn ValueError ("could not convert string to float: " ++ py_repr v))
      end
  | _ => Raise (mk_exn TypeError
           ("float() argument must be a string or a real number, not '" ++ type_name v ++ "'"))
  end.

(** Truth value of a Python object *)
Definition truthy (v : pyval) : bool :=
  match v with
  | PyNone => false
  | PyBool b => b
  | PyInt z => negb (z =? 0)
  | PyFloat f => negb (is_zero f)
  | PyStr s => negb (is_empty s)
  | PyList l => match l with [] => false | _ => true end
  | PyDict d => match d with [] => false | _ => true end
  end.

Fixpoint chars (s : string) : list pyval :=
  match s with
  | EmptyString => []
  | String c s' => PyStr (String c EmptyString) :: chars s'
  end.

(** The items a [for] loop over [v] visits. *)
Definition py_iter (v : pyval) : result (list pyval) :=
  match v with
  | PyList l => Ok l
  | PyDict d => Ok (map (fun kv => PyStr (fst kv)) d)
  | PyStr s => Ok (chars s)
  | _ => Raise (mk_exn TypeError ("'" ++ type_name v ++ "' object is not iterable"))
  end.

(** ** whisper_worker.py: audio *)

(** Little-endian bytes as an unsigned and as a two's complement integer
    ([np.uint8], [np.int16] and [np.int32] items of a buffer). *)
Fixpoint le_unsigned (bs : list byte) : Z :=
  match bs with
  | [] => 0
  | b :: bs' => Z.of_N (Byte.to_N b) + 256 * le_unsigned bs'
  end.

Definition le_signed (bs : list byte) : Z :=
  let u := le_unsigned bs in
  let bits := 8 * Z.of_nat (List.length bs) in
  if u <? 2 ^ (bits - 1) then u else u - 2 ^ bits.

(** The consecutive rows of [k] items of [l]. *)
Definition rows {A} (k : nat) (l : list A) : list (list A) :=
  map (fun i => firstn k (skipn (i * k) l)) (seq 0 (List.length l / k)).

(** [np.frombuffer(buffer, dtype=...)] for an item of [itemsize] bytes *)
Definition np_frombuffer (itemsize : nat) (item : list byte -> Z) (buffer : list byte)
  : result (list Z) :=
  if (List.length buffer mod itemsize =? 0)%nat
  then Ok (map item (rows itemsize buffer))
  else Raise (mk_exn ValueError "buffer size must be a multiple of element size").

(** [audio.reshape(-1, channels).mean(axis=1)] *)
Definition reshape_mean (audio : list float32) (channels : Z) : result (list float32) :=
  let c := Z.to_nat channels in
  if (List.length audio mod c =? 0)%nat
  then Ok (map np_mean (rows c audio))
  else Raise (mk_exn ValueError
         ("cannot reshape array of size " ++ decimal (Z.of_nat (List.length audio))
          ++ " into shape (" ++ decimal channels ++ ")")).

Definition wav_bytes_to_float32 (wav_bytes : list byte) : result (list float32 * Z) :=
  (wav_file <- wave_open wav_bytes ;;
   let sample_rate := getframerate wav_file in
   let channels := getnchannels wav_file in
   let sample_width := getsampwidth wav_file in
   let frame_bytes := readframes wav_file in
   audio <-
     (if sample_width =? 1 then
        ints <- np_frombuffer 1 le_unsigned frame_bytes ;;
        Ok (map (fun x => F32.div (F32.sub (F32.of_Z x) (F32.of_Z 128)) (F32.of_Z 128)) ints)
      else if sample_width =? 2 then
        ints <- np_frombuffer 2 le_signed frame_bytes ;;
        Ok (map (fun x => F32.div (F32.of_Z x) (F32.of_Z 32768)) ints)
      else if sample_width =? 4 then
        ints <- np_frombuffer 4 le_signed frame_bytes ;;
        Ok (map (fun x => F32.div (F32.of_Z x) (F32.of_Z 2147483648)) ints)
      else
        Raise (mk_exn ValueError ("Unsupported WAV sample width: " ++ decimal sample_width))) ;;
   audio <- (if 1 <? channels then reshape_mean audio channels else Ok audio) ;;
   Ok (audio, sample_rate))%result.

Definition resample_linear (audio : list float32) (from_rate to_rate : Z)
  : result (list float32) :=
  if (from_rate =? to_rate) || (List.length audio =? 0)%nat then Ok audio
  else
    (let shape0 := Z.of_nat (List.length audio) in
     duration <- int_true_div shape0 from_rate ;;
     to_rate_f <- float_of_int to_rate ;;
     rounded <- py_round (F64.mul duration to_rate_f) ;;
     let new_length := int_max 1 rounded in
     let old_times := np_linspace F64.zero duration shape0 in
     let new_times := np_linspace F64.zero duration new_length in
     Ok (map F32.of_f64 (np_interp new_times old_times audio)))%result.

(** ** whisper_worker.py: confidence *)

(** The literals [0.2], [-0.7], [0.75], [20.0] *)
Definition f_0_2 : float64 := F64.ratio 1 5.
Definition f_neg_0_7 : float64 := SFopp (F64.ratio 7 10).
Definition f_0_75 : float64 := F64.ratio 3 4.
Definition f_20 : float64 := F64.of_Z 20.

Definition clamp (value minimum maximum : float64) : float64 :=
  py_max minimum (py_min maximum value).

Definition segment_confidence (segment : pyval) : result float64 :=
  (v <- py_get_default segment "avg_logprob" (PyFloat f_neg_0_7) ;;
   avg_logprob <- py_float v ;;
   v <- py_get_default segment "no_speech_prob" (PyFloat F64.zero) ;;
   no_speech_prob <- py_float v ;;
   log_prob_score <- math_exp (py_min F64.zero avg_logprob) ;;
   Ok (clamp (F64.mul log_prob_score
                (F64.sub F64.one (clamp no_speech_prob F64.zero F64.one)))
         F64.zero F64.one))%result.

(** [len(text) / 20.0].  A [str] has fewer than [2^63] characters, so
    converting its length never overflows. *)
Definition text_length_over_20 (text : string) : float64 :=
  F64.div (F64.of_Z (Z.of_nat (String.length text))) f_20.

(** [max(0.2, end - start) + max(0.2, len(text) / 20.0)] *)
Definition segment_weight (start end_ : float64) (text : string) : float64 :=
  let duration_weight := py_max f_0_2 (F64.sub end_ start) in
  let text_weight := py_max f_0_2 (text_length_over_20 text) in
  F64.add duration_weight text_weight.

(** One turn of the loop of [aggregate_confidence] on the accumulators
    [(weighted_sum, total_weight)]. *)
Definition accumulate (fallback : float64) (acc : float64 * float64) (segment : pyval)
  : result (float64 * float64) :=
  (let '(weighted_sum, total_weight) := acc in
   v <- py_get_default segment "start" (PyFloat F64.zero) ;;
   start <- py_float v ;;
   v <- py_get_default segment "end" (PyFloat start) ;;
   end_ <- py_float v ;;
   v <- py_get_default segment "text" (PyStr "") ;;
   let text := py_str v in
   v <- py_get_default segment "confidence" (PyFloat fallback) ;;
   confidence <- py_float v ;;
   let weight := segment_weight start end_ text in
   Ok (F64.add weighted_sum (F64.mul confidence weight), F64.add total_weight weight))%result.

Fixpoint accumulate_all (fallback : float64) (acc : float64 * float64) (segments : list pyval)
  : result (float64 * float64) :=
  match segments with
  | [] => Ok acc
  | segment :: rest =>
      (acc' <- accumulate fallback acc segment ;; accumulate_all fallback acc' rest)%result
  end.

Definition aggregate_confidence (segments : list pyval) (fallback : float64) : result float64 :=
  match segments with
  | [] => Ok (clamp fallback F64.zero F64.one)
  | _ =>
      ('(weighted_sum, total_weight) <- accumulate_all fallback (F64.zero, F64.zero) segments ;;
       if F64.leb total_weight F64.zero then Ok (clamp fallback F64.zero F64.one)
       else
         mean <- float_div weighted_sum total_weight ;;
         Ok (clamp mean F64.zero F64.one))%result
  end.

(** ** The process around a worker *)

(** [stdout] holds the payloads [emit] has written, oldest first, one per
    line ([json.dumps(payload) + "\n"], flushed); [lines_read] counts the
    lines taken from [sys.stdin]; [clock] counts the calls of
    [time.perf_counter]. *)
Record world := mk_world {
  stdout : list pydict;
  lines_read : nat;
  clock : nat
}.

Definition initial_world : world := mk_world [] 0 0.

(** [emit] appends the payload: [json.dumps] is taken to write it.  It
    does for every payload whose values are [None], booleans, numbers and
    strings, and lists and objects of them that are not nested as deep as
    the interpreter's recursion limit; on an [id] nested that deep, which
    [json.loads] can still return, [json.dumps] raises [RecursionError],
    in the [try] statement and again in its [except] clause, and [main]
    ends without a line written.  The statements about the response to a
    request that go through the [id] of the request therefore take a
    [plain] id (below). *)
Definition emit (payload : pydict) (w : world) : world :=
  mk_world (stdout w ++ [payload]) (lines_read w) (clock w).

Definition read_line (w : world) : world :=
  mk_world (stdout w) (S (lines_read w)) (clock w).

Definition tick (w : world) : world :=
  mk_world (stdout w) (lines_read w) (S (clock w)).

(** The body of the [try] statement of the request loop runs on the world
    and on the local variable [request_id], which the [except] clause reads
    after a failure. *)
Record frame := mk_frame { fworld : world; request_id : pyval }.

Definition M (A : Type) : Type := frame -> result A * frame.

Definition ret {A} (a : A) : M A := fun fr => (Ok a, fr).

Definition bind {A B} (m : M A) (k : A -> M B) : M B :=
  fun fr =>
    match m fr with
    | (Ok a, fr') => k a fr'
    | (Raise e, fr') => (Raise e, fr')
    end.

Definition lift {A} (r : result A) : M A := fun fr => (r, fr).

Definition set_request_id (v : pyval) : M unit :=
  fun fr => (Ok tt, mk_frame (fworld fr) v).

Definition get_request_id : M pyval := fun fr => (Ok (request_id fr), fr).

Definition emit_m (payload : pydict) : M unit :=
  fun fr => (Ok tt, mk_frame (emit payload (fworld fr)) (request_id fr)).

Definition now : M timestamp :=
  fun fr => (Ok (perf_counter (clock (fworld fr))), mk_frame (tick (fworld fr)) (request_id fr)).

Declare Scope worker_scope.
Delimit Scope worker_scope with worker.
Notation "x <- m ;; k" := (bind m (fun x => k))
  (at level 100, m at next level, right associativity) : worker_scope.
Notation "' p <- m ;; k" := (bind m (fun p => k))
  (at level 100, p pattern, m at next level, right associativity) : worker_scope.
Notation "m ;;; k" := (bind m (fun _ => k))
  (at level 100, right associativity) : worker_scope.

(** The failure response of both workers. *)
Definition failure (id : pyval) (message : string) : pydict :=
  ["id" |-> id; "success" |-> PyBool false; "error" |-> PyStr message].

(** [request_id = None], then the [try] statement with its
    [except Exception as error] clause. *)
Definition attempt (request : string -> M unit) (line : string) (w : world) : world :=
  let '(r, fr) := request line (mk_frame w PyNone) in
  match r with
  | Ok _ => fworld fr
  | Raise error => emit (failure (request_id fr) (exn_msg error)) (fworld fr)
  end.

(** One turn of [for raw_line in sys.stdin], the same in both workers but
    for the body of the [try]. *)
Definition handle_line (request : string -> M unit) (raw_line : string) (w : world) : world :=
  let line := strip raw_line in
  if is_empty line then w else attempt request line w.

Fixpoint serve (request : string -> M unit) (stdin : list string) (w : world) : world :=
  match stdin with
  | [] => w
  | raw_line :: rest => serve request rest (handle_line request raw_line (read_line w))
  end.

(** ** whisper_worker.py: main *)

(** The loop that builds [normalized_segments]. *)
Fixpoint normalize_segments (raw_segments : list pyval) : result (list pyval) :=
  match raw_segments with
  | [] => Ok []
  | segment :: rest =>
      if negb (is_dict segment) then normalize_segments rest
      else
        (confidence <- segment_confidence segment ;;
         v <- py_get_default segment "start" (PyFloat F64.zero) ;;
         start <- py_float v ;;
         v <- py_get_default segment "end" (PyFloat F64.zero) ;;
         end_ <- py_float v ;;
         v <- py_get_default segment "text" (PyStr "") ;;
         let text := strip (py_str v) in
         v <- py_get_default segment "avg_logprob" (PyFloat f_neg_0_7) ;;
         avg_logprob <- py_float v ;;
         v <- py_get_default segment "no_speech_prob" (PyFloat F64.zero) ;;
         no_speech_prob <- py_float v ;;
         rest' <- normalize_segments rest ;;
         Ok (PyDict ["start" |-> PyFloat start;
                     "end" |-> PyFloat end_;
                     "text" |-> PyStr text;
                     "confidence" |-> PyFloat confidence;
                     "avg_logprob" |-> PyFloat avg_logprob;
                     "no_speech_prob" |-> PyFloat no_speech_prob] :: rest'))%result
  end.

(** The body of the [try] of the recognition worker. *)
Definition whisper_request (model : whisper_model) (line : string) : M unit :=
  (payload <- lift (json_loads line) ;;
   id <- lift (py_get payload "id") ;;
   set_request_id id ;;;
   command <- lift (py_get payload "command") ;;
   if negb (py_eq_str command "transcribe") then
     request_id <- get_request_id ;;
     emit_m (failure request_id ("Unsupported command: " ++ py_str command))
   else
     audio_b64 <- lift (py_get payload "audio_b64") ;;
     match audio_b64 with
     | PyStr (String _ _ as audio_b64) =>
         transcribe_start <- now ;;
         audio_bytes <- lift (b64decode audio_b64) ;;
         ' (audio, sample_rate) <- lift (wav_bytes_to_float32 audio_bytes) ;;
         audio <- lift (resample_linear audio sample_rate 16000) ;;
         language <- lift (py_get payload "language") ;;
         let decode_options :=
           mk_options "transcribe" F64.zero false false
             match language with
             | PyStr l => if is_empty (strip l) then None else Some (strip l)
             | _ => None
             end in
         result <- lift (whisper_transcribe model audio decode_options) ;;
         v <- lift (py_get_default result "text" (PyStr "")) ;;
         let text := strip (py_str v) in
         v <- lift (py_get_default result "language"
                      (if truthy language then language else PyStr "en")) ;;
         let language_out := py_str v in
         v <- lift (py_get result "segments") ;;
         let raw_segments := if truthy v then v else PyList [] in
         items <- lift (py_iter raw_segments) ;;
         normalized_segments <- lift (normalize_segments items) ;;
         let fallback_confidence := if is_empty text then F64.zero else f_0_75 in
         confidence <- lift (aggregate_confidence normalized_segments fallback_confidence) ;;
         finish <- now ;;
         request_id <- get_request_id ;;
         emit_m ["id" |-> request_id;
                 "success" |-> PyBool true;
                 "text" |-> PyStr text;
                 "language" |-> PyStr language_out;
                 "confidence" |-> PyFloat confidence;
                 "segments" |-> PyList normalized_segments;
                 "duration_ms" |-> PyInt (elapsed_ms transcribe_start finish)]
     | _ =>
         request_id <- get_request_id ;;
         emit_m (failure request_id "audio_b64 is required")
     end)%worker.

Definition getenv_default (name default : string) : string :=
  match getenv name with
  | Some value => value
  | None => default
  end.

(** [main] of whisper_worker.py: the exit status and the world it leaves. *)
Definition whisper_main (stdin : list string) (w : world) : Z * world :=
  let model_name := getenv_default "WHISPER_MODEL" "small" in
  let device := getenv_default "WHISPER_DEVICE" "cpu" in
  let startup_start := perf_counter (clock w) in
  let w := tick w in
  match whisper_load_model model_name device with
  | Raise error =>
      (1, emit ["event" |-> PyStr "error";
                "success" |-> PyBool false;
                "error" |-> PyStr ("Failed to load Whisper model '" ++ model_name
                                   ++ "': " ++ exn_msg error)] w)
  | Ok model =>
      let finish := perf_counter (clock w) in
      let w := tick w in
      let w := emit ["event" |-> PyStr "ready";
                     "success" |-> PyBool true;
                     "model" |-> PyStr model_name;
                     "device" |-> PyStr device;
                     "startup_ms" |-> PyInt (elapsed_ms startup_start finish)] w in
      (0, serve (whisper_request model) stdin w)
  end.

(** ** piper_worker.py *)

Definition f_0_85 : float64 := F64.ratio 17 20.

Definition to_float (value : pyval) (fallback : float64) : result float64 :=
  match py_float value with
  | Ok f => Ok f
  | Raise e =>
      match exn_cls e with
      | TypeError | ValueError => Ok fallback
      | _ => Raise e
      end
  end.

Definition load_voice : result piper_voice :=
  match getenv "PIPER_MODEL_PATH" with
  | Some (String _ _ as model_path) =>
      let config_path :=
        match getenv "PIPER_CONFIG_PATH" with
        | Some (String _ _ as p) => Some p
        | _ => None
        end in
      let use_cuda := String.eqb (lower (getenv_default "PIPER_USE_CUDA" "false")) "true" in
      PiperVoice_load model_path config_path use_cuda
  | _ => Raise (mk_exn RuntimeError "PIPER_MODEL_PATH is required")
  end.

Definition synthesize_wav (voice : piper_voice) (text : string) (length_scale volume : float64)
  : result (list byte) :=
  voice_synthesize_wav voice text length_scale volume.

Definition get_sample_rate (wav_bytes : list byte) : result Z :=
  (wav_file <- wave_open wav_bytes ;; Ok (getframerate wav_file))%result.

(** The body of the [try] of the synthesis worker. *)
Definition piper_request (voice : piper_voice) (line : string) : M unit :=
  (payload <- lift (json_loads line) ;;
   id <- lift (py_get payload "id") ;;
   set_request_id id ;;;
   command <- lift (py_get payload "command") ;;
   if negb (py_eq_str command "synthesize") then
     request_id <- get_request_id ;;
     emit_m (failure request_id ("Unsupported command: " ++ py_str command))
   else
     v <- lift (py_get_default payload "text" (PyStr "")) ;;
     let text := strip (py_str v) in
     if is_empty text then
       request_id <- get_request_id ;;
       emit_m (failure request_id "Text cannot be empty")
     else
       v <- lift (py_get payload "length_scale") ;;
       length_scale <- lift (to_float v f_0_85) ;;
       v <- lift (py_get payload "volume") ;;
       volume <- lift (to_float v F64.one) ;;
       start <- now ;;
       wav_bytes <- lift (synthesize_wav voice text length_scale volume) ;;
       sample_rate <- lift (get_sample_rate wav_bytes) ;;
       finish <- now ;;
       request_id <- get_request_id ;;
       emit_m ["id" |-> request_id;
               "success" |-> PyBool true;
               "audio_b64" |-> PyStr (b64encode wav_bytes);
               "sample_rate" |-> PyInt sample_rate;
               "duration_ms" |-> PyInt (elapsed_ms start finish)])%worker.

(** [main] of piper_worker.py *)
Definition piper_main (stdin : list string) (w : world) : Z * world :=
  let startup_start := perf_counter (clock w) in
  let w := tick w in
  match load_voice with
  | Raise error =>
      (1, emit ["event" |-> PyStr "error";
                "success" |-> PyBool false;
                "error" |-> PyStr ("Failed to load Piper voice: " ++ exn_msg error)] w)
  | Ok voice =>
      let finish := perf_counter (clock w) in
      let w := tick w in
      let w := emit ["event" |-> PyStr "ready";
                     "success" |-> PyBool true;
                     "startup_ms" |-> PyInt (elapsed_ms startup_start finish)] w in
      (0, serve (piper_request voice) stdin w)
  end.

(** ** Vocabulary of the statements *)

(** Why a stripped line is not a JSON object: [json.loads] raised, or the
    value it returned has no [get] method.  The string is [str(error)]. *)
Definition parse_error (line : string) : option string :=
  match json_loads line with
  | Raise error => Some (exn_msg error)
  | Ok (PyDict _) => None
  | Ok v => Some (exn_msg (no_attribute v "get"))
  end.

(** The [id] of a request object, [None] when it has none. *)
Definition id_of (d : pydict) : pyval := dict_get_default d "id" PyNone.

(** The value [request_id] holds when the turn for [line] is over. *)
Definition id_of_line (line : string) : pyval :=
  match json_loads line with
  | Ok (PyDict d) => id_of d
  | _ => PyNone
  end.


(** The lines written while [stdin] is served, the clock standing at [c]
    when serving starts. *)
Definition replies (request : string -> M unit) (stdin : list string) (c : nat) : list pydict :=
  stdout (serve request stdin (mk_world [] 0 c)).

(** The responses of the two workers to a request whose id is [id]. *)
Inductive whisper_response (id : pyval) : pydict -> Prop :=
| whisper_failed message : whisper_response id (failure id message)
| whisper_done text language confidence segments ms :
    whisper_response id
      ["id" |-> id; "success" |-> PyBool true; "text" |-> PyStr text;
       "language" |-> PyStr language; "confidence" |-> PyFloat confidence;
       "segments" |-> PyList segments; "duration_ms" |-> PyInt ms].

Inductive piper_response (id : pyval) : pydict -> Prop :=
| piper_failed message : piper_response id (failure id message)
| piper_done audio rate ms :
    piper_response id
      ["id" |-> id; "success" |-> PyBool true; "audio_b64" |-> PyStr audio;
       "sample_rate" |-> PyInt rate; "duration_ms" |-> PyInt ms].

(** A request body answers every line with one payload of the given shape:
    whatever was written before and however many lines were read, the turn
    appends that payload and moves nothing but the clock. *)
Definition answers (request : string -> M unit) (response : pyval -> pydict -> Prop) : Prop :=
  forall line c, exists p k,
    response (id_of_line line) p /\
    forall out n, attempt request line (mk_world out n c) = mk_world (out ++ [p]) n (c + k).

(** The startup events. *)
Definition error_event (message : string) : pydict :=
  ["event" |-> PyStr "error"; "success" |-> PyBool false; "error" |-> PyStr message].

Definition whisper_ready (model_name device : string) (ms : Z) : pydict :=
  ["event" |-> PyStr "ready"; "success" |-> PyBool true; "model" |-> PyStr model_name;
   "device" |-> PyStr device; "startup_ms" |-> PyInt ms].

Definition piper_ready (ms : Z) : pydict :=
  ["event" |-> PyStr "ready"; "success" |-> PyBool true; "startup_ms" |-> PyInt ms].

(** The integer the [i]-th sample of the frames holds: [sample_width]
    little-endian bytes, unsigned when there is one byte and two's
    complement otherwise. *)
Definition raw_sample (sample_width : Z) (frame_bytes : list byte) (i : nat) : Z :=
  let w := Z.to_nat sample_width in
  (if sample_width =? 1 then le_unsigned else le_signed) (firstn w (skipn (i * w) frame_bytes)).

(** The conversion of one raw sample as the specification words it:
    [(byte - 128) / 128], [int16 / 32768], [int32 / 2147483648], the
    quotient being a [float32]. *)
Definition spec_sample (sample_width : Z) (raw : Z) : float32 :=
  if sample_width =? 1 then F32.div (F32.of_Z (raw - 128)) (F32.of_Z 128)
  else if sample_width =? 2 then F32.div (F32.of_Z raw) (F32.of_Z 32768)
  else F32.div (F32.of_Z raw) (F32.of_Z 2147483648).

(** The [i]-th decoded sample of the frames, before channels are mixed. *)
Definition decoded_sample (sample_width : Z) (frame_bytes : list byte) (i : nat) : float32 :=
  spec_sample sample_width (raw_sample sample_width frame_bytes i).

(** The frames hold whole samples; how many. *)
Definition whole_samples (wav : wav_file) : Prop :=
  (List.length (readframes wav) mod Z.to_nat (getsampwidth wav) = 0)%nat.

Definition sample_count (wav : wav_file) : nat :=
  (List.length (readframes wav) / Z.to_nat (getsampwidth wav))%nat.

(** The fields that carry results, in responses and in the ready event. *)
Definition result_fields : list string :=
  ["audio_b64"; "sample_rate"; "text"; "language"; "confidence"; "segments";
   "duration_ms"; "startup_ms"; "model"; "device"]%string.

(** ** Vocabulary of the further statements *)






(** The samples [wav_bytes_to_float32] reads off the frames before the
    channels are mixed: the chain of tests on [sample_width]. *)
Definition decode_frames (sample_width : Z) (frame_bytes : list byte) : result (list float32) :=
  (if sample_width =? 1 then
     ints <- np_frombuffer 1 le_unsigned frame_bytes ;;
     Ok (map (fun x => F32.div (F32.sub (F32.of_Z x) (F32.of_Z 128)) (F32.of_Z 128)) ints)
   else if sample_width =? 2 then
     ints <- np_frombuffer 2 le_signed frame_bytes ;;
     Ok (map (fun x => F32.div (F32.of_Z x) (F32.of_Z 32768)) ints)
   else if sample_width =? 4 then
     ints <- np_frombuffer 4 le_signed frame_bytes ;;
     Ok (map (fun x => F32.div (F32.of_Z x) (F32.of_Z 2147483648)) ints)
   else
     Raise (mk_exn ValueError ("Unsupported WAV sample width: " ++ decimal sample_width)))%result.

(** A float within [0, 1]. *)
Definition in_unit_range (x : float64) : Prop :=
  F64.leb F64.zero x = true /\ F64.leb x F64.one = true.

(** A field of a segment that is absent or a float of any kind, NaN and
    the infinities included. *)
Definition float_or_absent (d : pydict) (key : string) : Prop :=
  match dict_get d key with
  | None | Some (PyFloat _) => True
  | Some _ => False
  end.

(** A segment as the model reports it: anything that is not a [dict], or a
    [dict] whose numbers are floats. *)
Definition model_segment (segment : pyval) : Prop :=
  match segment with
  | PyDict d =>
      float_or_absent d "start" /\ float_or_absent d "end" /\
      float_or_absent d "avg_logprob" /\ float_or_absent d "no_speech_prob"
  | _ => True
  end.

(** A segment as the recognition worker reports it: the six fields in
    order, floats but the text, the confidence within [0, 1]. *)
Definition response_segment (segment : pyval) : Prop :=
  exists start end_ text confidence avg_logprob no_speech_prob,
    segment = PyDict ["start" |-> PyFloat start; "end" |-> PyFloat end_;
                      "text" |-> PyStr text; "confidence" |-> PyFloat confidence;
                      "avg_logprob" |-> PyFloat avg_logprob;
                      "no_speech_prob" |-> PyFloat no_speech_prob] /\
    in_unit_range confidence.

(** A sample within [-1.0, 1.0]. *)
Definition sample_in_range (x : float32) : Prop :=
  SFleb (F32.of_Z (-1)) x = true /\ SFleb x (F32.of_Z 1) = true.

(** The responses of the recognition worker, with what holds of a result:
    every segment has the shape of the response, the confidence is within
    [0, 1], and without segments it is the fallback, [0.75] when there is a
    text and [0.0] when there is none. *)
Inductive whisper_reply (id : pyval) : pydict -> Prop :=
| whisper_refused message : whisper_reply id (failure id message)
| whisper_heard text language confidence segments ms :
    Forall response_segment segments ->
    in_unit_range confidence ->
    (segments = [] -> confidence = if is_empty text then F64.zero else f_0_75) ->
    whisper_reply id
      ["id" |-> id; "success" |-> PyBool true; "text" |-> PyStr text;
       "language" |-> PyStr language; "confidence" |-> PyFloat confidence;
       "segments" |-> PyList segments; "duration_ms" |-> PyInt ms].

(** The responses of the synthesis worker, with what holds of a result: the
    audio is the base64 of bytes [wave.open] reads, and the sample rate is
    the one it finds in them. *)
Inductive piper_reply (id : pyval) : pydict -> Prop :=
| piper_refused message : piper_reply id (failure id message)
| piper_spoken wav_bytes wav ms :
    wave_open wav_bytes = Ok wav ->
    piper_reply id
      ["id" |-> id; "success" |-> PyBool true; "audio_b64" |-> PyStr (b64encode wav_bytes);
       "sample_rate" |-> PyInt (getframerate wav); "duration_ms" |-> PyInt ms].

End Worker.

(** ** A substitute runtime *)

(** A runtime small enough to run both workers inside Rocq.  Its
    [json.loads] knows a handful of documents, its WAV container is a
    two-byte header (channels, sample width) before the frames, its model
    always hears the same sentence.  The statements below hold of every
    runtime; this one shows that their hypotheses can be met. *)
Module Demo.

Definition dq : string := String (ascii_of_nat 34) EmptyString.

(** [{"id": "1", "command": "synthesize", "text": "hello"}] *)
Definition line_synthesize : string :=
  ("{" ++ dq ++ "id" ++ dq ++ ": " ++ dq ++ "1" ++ dq ++ ", "
       ++ dq ++ "command" ++ dq ++ ": " ++ dq ++ "synthesize" ++ dq ++ ", "
       ++ dq ++ "text" ++ dq ++ ": " ++ dq ++ "hello" ++ dq ++ "}")%string.

(** [{"id": "2", "command": "transcribe", "audio_b64": "AQIAQA=="}] *)
Definition line_transcribe : string :=
  ("{" ++ dq ++ "id" ++ dq ++ ": " ++ dq ++ "2" ++ dq ++ ", "
       ++ dq ++ "command" ++ dq ++ ": " ++ dq ++ "transcribe" ++ dq ++ ", "
       ++ dq ++ "audio_b64" ++ dq ++ ": " ++ dq ++ "AQIAQA==" ++ dq ++ "}")%string.

Definition loads (s : string) : result pyval :=
  if String.eqb s line_synthesize then
    Ok (PyDict ["id" |-> PyStr "1"; "command" |-> PyStr "synthesize"; "text" |-> PyStr "hello"])
  else if String.eqb s line_transcribe then
    Ok (PyDict ["id" |-> PyStr "2"; "command" |-> PyStr "transcribe";
                "audio_b64" |-> PyStr "AQIAQA=="])
  else if String.eqb s "{}" then Ok (PyDict [])
  else if String.eqb s "[]" then Ok (PyList [])
  else if String.eqb s "null" then Ok PyNone
  else Raise (mk_exn ValueError "Expecting value: line 1 column 1 (char 0)").

Definition repr (v : pyval) : string :=
  match v with
  | PyNone => "None"
  | PyBool true => "True"
  | PyBool false => "False"
  | PyInt z => decimal z
  | _ => "<object>"
  end.

Definition environ (name : string) : option string :=
  if String.eqb name "PIPER_MODEL_PATH" then Some "voice.onnx"%string else None.

Definition wave (buffer : list byte) : result wav_file :=
  match buffer with
  | channels :: width :: frames =>
      Ok (mk_wav 16000 (Z.of_N (Byte.to_N channels)) (Z.of_N (Byte.to_N width)) frames)
  | _ => Raise (mk_exn (OtherError "EOFError") "")
  end.

(** The bytes of [AQIAQA==]: one channel, two bytes a sample, one frame. *)
Definition one_frame : list byte := [x01; x02; x00; x40]%byte.

Definition mean (row : list float32) : float32 :=
  SFdiv F32.prec F32.emax
    (fold_left (SFadd F32.prec F32.emax) row (S754_zero false))
    (F32.of_Z (Z.of_nat (List.length row))).

Definition linspace (start stop : float64) (num : Z) : list float64 :=
  let step := F64.div (F64.sub stop start) (F64.of_Z num) in
  map (fun i => F64.add start (F64.mul (F64.of_Z (Z.of_nat i)) step)) (seq 0 (Z.to_nat num)).

(** Nearest earlier sample instead of an interpolation. *)
Definition interp (x xp : list float64) (fp : list float32) : list float64 :=
  map (fun _ => hd (S754_zero false) fp) x.

Definition exp (x : float64) : result float64 :=
  if is_zero x then Ok F64.one
  else if F64.leb x F64.zero then Ok (F64.ratio 1 2)
  else Raise (mk_exn OverflowError "math range error").

Definition heard : pyval :=
  PyDict ["text" |-> PyStr " hello ";
          "segments" |-> PyList [PyDict ["start" |-> PyFloat F64.zero;
                                         "end" |-> PyFloat F64.one;
                                         "text" |-> PyStr " hello";
                                         "avg_logprob" |-> PyFloat F64.zero;
                                         "no_speech_prob" |-> PyFloat F64.zero]];
          "language" |-> PyStr "en"].

Definition runtime : Runtime := {|
  json_loads := loads;
  py_repr := repr;
  float_of_string := fun _ => None;
  getenv := environ;
  timestamp := nat;
  perf_counter := fun n => n;
  elapsed_ms := fun earlier later => Z.of_nat (later - earlier);
  b64decode := fun _ => Ok one_frame;
  b64encode := fun _ => "AQIAQA=="%string;
  wave_open := wave;
  np_mean := mean;
  np_linspace := linspace;
  np_interp := interp;
  math_exp := exp;
  whisper_model := unit;
  whisper_load_model := fun _ _ => Ok tt;
  whisper_transcribe := fun _ _ _ => Ok heard;
  piper_voice := unit;
  PiperVoice_load := fun _ _ _ => Ok tt;
  voice_synthesize_wav := fun _ _ _ _ => Ok one_frame
|}.

End Demo.

(** ** A second substitute: no environment, requests that lack a field *)

Module Bare.

(** [{"command": "transcribe"}] *)
Definition line_no_audio : string :=
  ("{" ++ Demo.dq ++ "command" ++ Demo.dq ++ ": " ++ Demo.dq ++ "transcribe" ++ Demo.dq ++ "}")%string.

(** [{"id": 7, "command": "synthesize", "text": "  "}] *)
Definition line_blank_text : string :=
  ("{" ++ Demo.dq ++ "id" ++ Demo.dq ++ ": 7, "
       ++ Demo.dq ++ "command" ++ Demo.dq ++ ": " ++ Demo.dq ++ "synthesize" ++ Demo.dq ++ ", "
       ++ Demo.dq ++ "text" ++ Demo.dq ++ ": " ++ Demo.dq ++ "  " ++ Demo.dq ++ "}")%string.

Definition loads (s : string) : result pyval :=
  if String.eqb s line_no_audio then Ok (PyDict ["command" |-> PyStr "transcribe"])
  else if String.eqb s line_blank_text then
    Ok (PyDict ["id" |-> PyInt 7; "command" |-> PyStr "synthesize"; "text" |-> PyStr "  "])
  else Demo.loads s.

Definition runtime : Runtime := {|
  json_loads := loads;
  py_repr := Demo.repr;
  float_of_string := fun _ => None;
  getenv := fun _ => None;
  timestamp := nat;
  perf_counter := fun n => n;
  elapsed_ms := fun earlier later => Z.of_nat (later - earlier);
  b64decode := fun _ => Ok Demo.one_frame;
  b64encode := fun _ => "AQIAQA=="%string;
  wave_open := Demo.wave;
  np_mean := Demo.mean;
  np_linspace := Demo.linspace;
  np_interp := Demo.interp;
  math_exp := Demo.exp;
  whisper_model := unit;
  whisper_load_model := fun _ _ => Ok tt;
  whisper_transcribe := fun _ _ _ => Ok Demo.heard;
  piper_voice := unit;
  PiperVoice_load := fun _ _ _ => Ok tt;
  voice_synthesize_wav := fun _ _ _ _ => Ok Demo.one_frame
|}.

End Bare.

(** ** Vocabulary of the proofs about floats *)

(** The floats [binary_round_aux] returns in binary64 when the mantissa,
    shifted to the exponent [e1] its size asks for, is [q] (rounded down):
    [q] or [q + 1] at [e1], the carry [2 ^ 52] at [e1 + 1], a zero when
    [q = 0], an infinity when the exponent is out of range. *)
Inductive rounded (s : bool) (q e1 : Z) : spec_float -> Prop :=
| rounded_zero : q = 0 -> rounded s q e1 (S754_zero s)
| rounded_same m :
    q <= Zpos m <= q + 1 -> bounded F64.prec F64.emax m e1 = true ->
    rounded s q e1 (S754_finite s m e1)
| rounded_carry :
    q + 1 = 2 ^ 53 -> -1074 <= e1 -> e1 + 1 <= 971 ->
    rounded s q e1 (S754_finite s (2 ^ 52)%positive (e1 + 1))
| rounded_overflow : 0 < q -> 971 <= e1 -> rounded s q e1 (S754_infinity s).

(** [m * 2 ^ k] rounded down to an integer. *)
Definition scale (m k : Z) : Z := if 0 <=? k then m * 2 ^ k else m / 2 ^ (- k).

(** A float that is valid and not below [c]. *)
Definition at_least (c x : float64) : Prop := F64.leb c x = true /\ F64.valid x = true.

(** The literal [0.4]. *)
Definition f_0_4 : float64 := F64.ratio 2 5.

Section ConfidenceVocabulary.
Context {rt : Runtime}.

(** A field of a segment that is absent or a valid float, and its value. *)
Definition float_field (d : pydict) (key : string) : Prop :=
  match dict_get d key with
  | None => True
  | Some (PyFloat f) => F64.valid f = true
  | Some _ => False
  end.

Definition field_or (d : pydict) (key : string) (default : float64) : float64 :=
  match dict_get d key with
  | Some (PyFloat f) => f
  | _ => default
  end.

(** A segment whose [start], [end] and [confidence], when present, are
    floats (finite or not). *)
Definition numeric_segment (segment : pyval) : Prop :=
  match segment with
  | PyDict d => float_field d "start" /\ float_field d "end" /\ float_field d "confidence"
  | _ => False
  end.

(** The weight and the confidence the loop of [aggregate_confidence] reads
    off a segment. *)
Definition weight_of (segment : pyval) : float64 :=
  match segment with
  | PyDict d =>
      let start := field_or d "start" F64.zero in
      let end_ := field_or d "end" start in
      segment_weight start end_ (py_str (dict_get_default d "text" (PyStr "")))
  | _ => F64.zero
  end.

Definition confidence_of (fallback : float64) (segment : pyval) : float64 :=
  match segment with
  | PyDict d => field_or d "confidence" fallback
  | _ => fallback
  end.

(** What the loop of [main] appends to [normalized_segments] for the
    segment [d] once its confidence is known. *)
Definition normalized (d : pydict) (confidence : float64) : pyval :=
  PyDict ["start" |-> PyFloat (field_or d "start" F64.zero);
          "end" |-> PyFloat (field_or d "end" F64.zero);
          "text" |-> PyStr (strip (py_str (dict_get_default d "text" (PyStr ""))));
          "confidence" |-> PyFloat confidence;
          "avg_logprob" |-> PyFloat (field_or d "avg_logprob" f_neg_0_7);
          "no_speech_prob" |-> PyFloat (field_or d "no_speech_prob" F64.zero)].

End ConfidenceVocabulary.

(** The largest finite double. *)
Definition f_max : float64 := S754_finite false 9007199254740991 971.

(** The record after [j] right shifts of the mantissa [m]: the quotient,
    the last bit shifted out, and whether a bit before it was set. *)
Definition shifted (m j : Z) : shr_record :=
  if j =? 0 then Build_shr_record m false false
  else Build_shr_record (m / 2 ^ j) (Z.odd (m / 2 ^ (j - 1)))
         (negb (m mod 2 ^ (j - 1) =? 0)).

(** The double that stands for the mantissa [M], already rounded, at the
    exponent [E]: a mantissa of 54 bits is carried to the next exponent. *)
Definition normal_form (s : bool) (M E : Z) : float64 :=
  match M with
  | Zpos p =>
      if M =? 2 ^ 53
      then if E + 1 <=? 971 then S754_finite s (2 ^ 52)%positive (E + 1) else S754_infinity s
      else if E <=? 971 then S754_finite s p E else S754_infinity s
  | _ => S754_zero s
  end.

(** The length [resample_linear] asks [np.linspace] for, off the identity
    path: [max(1, int(round(audio.shape[0] / from_rate * to_rate)))]. *)
Definition new_length (shape0 from_rate to_rate : Z) : result Z :=
  (duration <- int_true_div shape0 from_rate ;;
   to_rate_f <- float_of_int to_rate ;;
   rounded <- py_round (F64.mul duration to_rate_f) ;;
   Ok (int_max 1 rounded))%result.

(** * The worker protocol *)

(** Symbolic execution of a request body: split on the outcome of each
    call in turn, a value that is asked for a method first. *)
Ltac exec_step :=
  cbv beta iota zeta;
  match goal with
  | |- context [match ?x with PyNone => _ | _ => _ end] => is_var x; destruct x
  | |- context [match ?x with EmptyString => _ | String _ _ => _ end] => is_var x; destruct x
  | |- context [match ?x with Ok _ => _ | Raise _ => _ end] =>
      lazymatch x with
      | context [match _ with PyNone => _ | _ => _ end] => fail
      | _ => destruct x eqn:?
      end
  | |- context [match ?x with PyNone => _ | _ => _ end] => destruct x eqn:?
  | |- context [if ?b then _ else _] => destruct b eqn:?
  | |- context [let '(_, _) := ?x in _] => destruct x eqn:?
  end.

Ltac exec :=
  cbv [bind lift set_request_id get_request_id emit_m now ret emit tick
       fworld request_id stdout lines_read clock py_get py_get_default];
  repeat exec_step; cbv beta iota zeta.


Section Protocol.
Context {rt : Runtime}.

Ltac answer k :=
  eexists; exists k; split; cycle 1;
  [ intros; f_equal; first [ reflexivity | lia ] | constructor ].

Lemma whisper_answers model : answers (whisper_request model) whisper_response.
Proof.
  intros line c. unfold attempt, whisper_request, id_of_line, id_of.
  exec.
  all: first [ answer 0%nat | answer 1%nat | answer 2%nat ].
Qed.

Lemma piper_answers voice : answers (piper_request voice) piper_response.
Proof.
  intros line c. unfold attempt, piper_request, id_of_line, id_of.
  exec.
  all: first [ answer 0%nat | answer 1%nat | answer 2%nat ].
Qed.

Lemma world_eta w : w = mk_world (stdout w) (lines_read w) (clock w).
Proof. destruct w; reflexivity. Qed.

Lemma handle_line_blank request raw_line w :
  is_empty (strip raw_line) = true -> handle_line request raw_line w = w.
Proof. intros H. unfold handle_line. rewrite H. reflexivity. Qed.

Lemma handle_line_answers request response raw_line c :
  answers request response ->
  is_empty (strip raw_line) = false ->
  exists p k,
    response (id_of_line (strip raw_line)) p /\
    forall out n, handle_line request raw_line (mk_world out n c) = mk_world (out ++ [p]) n (c + k).
Proof.
  intros Hreq Hline. destruct (Hreq (strip raw_line) c) as (p & k & Hp & Hrun).
  exists p, k. split; [ exact Hp | ].
  intros out n. unfold handle_line. rewrite Hline. apply Hrun.
Qed.

(** Serving appends to what was written and reads every line; what it
    appends depends on the clock alone. *)
Lemma serve_frame request response :
  answers request response ->
  forall stdin c, exists k,
    Forall (fun p => exists id, response id p) (replies request stdin c) /\
    forall out n,
      serve request stdin (mk_world out n c) =
      mk_world (out ++ replies request stdin c) (n + List.length stdin) (c + k).
Proof.
  intros Hreq. unfold replies.
  induction stdin as [ | raw_line rest IH ]; intros c.
  - exists 0%nat. split; [ constructor | ].
    intros out n. simpl. rewrite app_nil_r, !Nat.add_0_r. reflexivity.
  - destruct (is_empty (strip raw_line)) eqn:Hline.
    + destruct (IH c) as (k & Hall & Hrun). exists k.
      assert (Hstep : forall out n,
                 serve request (raw_line :: rest) (mk_world out n c) =
                 mk_world (out ++ stdout (serve request rest (mk_world [] 0 c)))
                   (S n + List.length rest) (c + k)).
      { intros out n. simpl serve. unfold read_line; simpl.
        rewrite handle_line_blank by exact Hline. apply Hrun. }
      split.
      * rewrite Hstep. exact Hall.
      * intros out n. rewrite !Hstep. simpl. f_equal. lia.
    + destruct (handle_line_answers request response raw_line c Hreq Hline)
        as (p & k1 & Hp & Hturn).
      destruct (IH (c + k1)%nat) as (k & Hall & Hrun). exists (k1 + k)%nat.
      assert (Hstep : forall out n,
                 serve request (raw_line :: rest) (mk_world out n c) =
                 mk_world (out ++ p :: stdout (serve request rest (mk_world [] 0 (c + k1))))
                   (S n + List.length rest) (c + k1 + k)).
      { intros out n. simpl serve. unfold read_line; simpl.
        rewrite Hturn, Hrun. rewrite <- app_assoc. reflexivity. }
      split.
      * rewrite Hstep. simpl. constructor; [ eexists; exact Hp | exact Hall ].
      * intros out n. rewrite !Hstep. simpl. f_equal; lia.
Qed.

Lemma serve_stdout request response stdin w :
  answers request response ->
  stdout (serve request stdin w) = stdout w ++ replies request stdin (clock w).
Proof.
  intros Hreq. destruct (serve_frame request response Hreq stdin (clock w)) as (k & _ & Hrun).
  rewrite (world_eta w) at 1. rewrite Hrun. reflexivity.
Qed.

(** A line that is not a JSON object fails before [request_id] is set. *)
Lemma whisper_not_object model line message w :
  parse_error line = Some message ->
  attempt (whisper_request model) line w = emit (failure PyNone message) w.
Proof.
  unfold parse_error, attempt, whisper_request. intros H.
  cbv [bind lift py_get py_get_default].
  destruct (json_loads line) as [ v | e ]; [ destruct v | ]; try discriminate;
    injection H as <-; reflexivity.
Qed.

Lemma piper_not_object voice line message w :
  parse_error line = Some message ->
  attempt (piper_request voice) line w = emit (failure PyNone message) w.
Proof.
  unfold parse_error, attempt, piper_request. intros H.
  cbv [bind lift py_get py_get_default].
  destruct (json_loads line) as [ v | e ]; [ destruct v | ]; try discriminate;
    injection H as <-; reflexivity.
Qed.

Lemma serve_after_failure request response raw_line message rest w :
  answers request response ->
  is_empty (strip raw_line) = false ->
  (forall w', attempt request (strip raw_line) w' = emit (failure PyNone message) w') ->
  handle_line request raw_line w = emit (failure PyNone message) w /\
  serve request (raw_line :: rest) w =
    serve request rest (emit (failure PyNone message) (read_line w)) /\
  stdout (serve request (raw_line :: rest) w) =
    stdout w ++ failure PyNone message :: replies request rest (clock w) /\
  stdout (serve request rest w) = stdout w ++ replies request rest (clock w).
Proof.
  intros Hreq Hline Hfail.
  assert (Hturn : forall w', handle_line request raw_line w' = emit (failure PyNone message) w').
  { intros w'. unfold handle_line. rewrite Hline. apply Hfail. }
  split; [ apply Hturn | ]. split; [ simpl; rewrite Hturn; reflexivity | ]. split.
  - simpl serve. rewrite Hturn. rewrite (serve_stdout request response) by exact Hreq.
    simpl. rewrite <- app_assoc. reflexivity.
  - apply (serve_stdout request response). exact Hreq.
Qed.

(** C1. A line that is not empty once stripped and is not a JSON object
    ([json.loads] raises, or returns a value that is not an object) is answered,
    in both workers, by exactly one line [{id: null, success: false, error:
    message}], and the loop goes on: the lines after it are served from the
    world that line left, and are answered as they are without it. *)
Theorem malformed_line_is_answered_and_skipped model voice raw_line message rest w :
  is_empty (strip raw_line) = false ->
  parse_error (strip raw_line) = Some message ->
  (handle_line (whisper_request model) raw_line w = emit (failure PyNone message) w /\
   serve (whisper_request model) (raw_line :: rest) w =
     serve (whisper_request model) rest (emit (failure PyNone message) (read_line w)) /\
   stdout (serve (whisper_request model) (raw_line :: rest) w) =
     stdout w ++ failure PyNone message :: replies (whisper_request model) rest (clock w) /\
   stdout (serve (whisper_request model) rest w) =
     stdout w ++ replies (whisper_request model) rest (clock w)) /\
  (handle_line (piper_request voice) raw_line w = emit (failure PyNone message) w /\
   serve (piper_request voice) (raw_line :: rest) w =
     serve (piper_request voice) rest (emit (failure PyNone message) (read_line w)) /\
   stdout (serve (piper_request voice) (raw_line :: rest) w) =
     stdout w ++ failure PyNone message :: replies (piper_request voice) rest (clock w) /\
   stdout (serve (piper_request voice) rest w) =
     stdout w ++ replies (piper_request voice) rest (clock w)).
Proof.
  intros Hline Hbad. split.
  - apply (serve_after_failure _ whisper_response).
    + apply whisper_answers.
    + exact Hline.
    + intros w'. apply whisper_not_object. exact Hbad.
  - apply (serve_after_failure _ piper_response).
    + apply piper_answers.
    + exact Hline.
    + intros w'. apply piper_not_object. exact Hbad.
Qed.

(** C10. A line that is empty once stripped leaves the world as it is, in
    both workers: nothing is written and the loop goes on to the next line.
    Any other line makes the worker write exactly one line. *)
Theorem blank_line_writes_nothing model voice raw_line w :
  if is_empty (strip raw_line)
  then
    handle_line (whisper_request model) raw_line w = w /\
    handle_line (piper_request voice) raw_line w = w /\
    (forall rest, serve (whisper_request model) (raw_line :: rest) w =
                  serve (whisper_request model) rest (read_line w)) /\
    (forall rest, serve (piper_request voice) (raw_line :: rest) w =
                  serve (piper_request voice) rest (read_line w))
  else
    (exists p, stdout (handle_line (whisper_request model) raw_line w) = stdout w ++ [p]) /\
    (exists p, stdout (handle_line (piper_request voice) raw_line w) = stdout w ++ [p]).
Proof.
  destruct (is_empty (strip raw_line)) eqn:Hline.
  - repeat split; intros; simpl; rewrite ?handle_line_blank by exact Hline; reflexivity.
  - split.
    + destruct (handle_line_answers _ _ raw_line (clock w) (whisper_answers model) Hline)
        as (p & k & _ & Hturn).
      exists p. rewrite (world_eta w) at 1. rewrite Hturn. reflexivity.
    + destruct (handle_line_answers _ _ raw_line (clock w) (piper_answers voice) Hline)
        as (p & k & _ & Hturn).
      exists p. rewrite (world_eta w) at 1. rewrite Hturn. reflexivity.
Qed.

Lemma whisper_response_fields id p :
  whisper_response id p ->
  dict_get p "id" = Some id /\ dict_get p "event" = None /\
  (dict_get p "success" = Some (PyBool false) ->
   exists message, p = failure id message).
Proof.
  intros [ message | text language confidence segments ms ]; simpl.
  - repeat split. intros _. exists message. reflexivity.
  - repeat split. discriminate.
Qed.

Lemma piper_response_fields id p :
  piper_response id p ->
  dict_get p "id" = Some id /\ dict_get p "event" = None /\
  (dict_get p "success" = Some (PyBool false) ->
   exists message, p = failure id message).
Proof.
  intros [ message | audio rate ms ]; simpl.
  - repeat split. intros _. exists message. reflexivity.
  - repeat split. discriminate.
Qed.

Lemma whisper_replies model stdin c :
  Forall (fun p => exists id, whisper_response id p) (replies (whisper_request model) stdin c).
Proof.
  destruct (serve_frame _ _ (whisper_answers model) stdin c) as (k & Hall & _). exact Hall.
Qed.

Lemma piper_replies voice stdin c :
  Forall (fun p => exists id, piper_response id p) (replies (piper_request voice) stdin c).
Proof.
  destruct (serve_frame _ _ (piper_answers voice) stdin c) as (k & Hall & _). exact Hall.
Qed.

(** What [main] writes: the error event alone, or the ready event and then
    the replies of the request loop. *)
Lemma whisper_main_output stdin :
  match whisper_load_model (getenv_default "WHISPER_MODEL" "small")
                           (getenv_default "WHISPER_DEVICE" "cpu") with
  | Raise error =>
      exists message, whisper_main stdin initial_world = (1, mk_world [error_event message] 0 1)
  | Ok model =>
      exists model_name device ms,
        whisper_main stdin initial_world =
          (0, serve (whisper_request model) stdin
                (mk_world [whisper_ready model_name device ms] 0 2)) /\
        stdout (snd (whisper_main stdin initial_world)) =
          whisper_ready model_name device ms :: replies (whisper_request model) stdin 2
  end.
Proof.
  unfold whisper_main.
  destruct (whisper_load_model _ _) as [ model | error ].
  - do 3 eexists. split; [ reflexivity | ].
    simpl snd. rewrite (serve_stdout _ _ _ _ (whisper_answers model)). reflexivity.
  - eexists. reflexivity.
Qed.

Lemma piper_main_output stdin :
  match load_voice with
  | Raise error =>
      exists message, piper_main stdin initial_world = (1, mk_world [error_event message] 0 1)
  | Ok voice =>
      exists ms,
        piper_main stdin initial_world =
          (0, serve (piper_request voice) stdin (mk_world [piper_ready ms] 0 2)) /\
        stdout (snd (piper_main stdin initial_world)) =
          piper_ready ms :: replies (piper_request voice) stdin 2
  end.
Proof.
  unfold piper_main.
  destruct load_voice as [ voice | error ].
  - eexists. split; [ reflexivity | ].
    simpl snd. rewrite (serve_stdout _ _ _ _ (piper_answers voice)). reflexivity.
  - eexists. reflexivity.
Qed.

(** C2. When loading the model raises, [main] writes the error event and
    nothing else, reads no line and returns 1.  When it succeeds, the ready
    event is written once, while no line has been read yet: serving starts
    from the world that holds it, and no line written afterwards is an
    event. *)
Theorem startup_event_comes_first stdin :
  match whisper_load_model (getenv_default "WHISPER_MODEL" "small")
                           (getenv_default "WHISPER_DEVICE" "cpu") with
  | Raise error =>
      exists message, whisper_main stdin initial_world = (1, mk_world [error_event message] 0 1)
  | Ok model =>
      exists model_name device ms,
        whisper_main stdin initial_world =
          (0, serve (whisper_request model) stdin
                (mk_world [whisper_ready model_name device ms] 0 2)) /\
        stdout (snd (whisper_main stdin initial_world)) =
          whisper_ready model_name device ms :: replies (whisper_request model) stdin 2 /\
        Forall (fun p => dict_get p "event" = None) (replies (whisper_request model) stdin 2)
  end /\
  match load_voice with
  | Raise error =>
      exists message, piper_main stdin initial_world = (1, mk_world [error_event message] 0 1)
  | Ok voice =>
      exists ms,
        piper_main stdin initial_world =
          (0, serve (piper_request voice) stdin (mk_world [piper_ready ms] 0 2)) /\
        stdout (snd (piper_main stdin initial_world)) =
          piper_ready ms :: replies (piper_request voice) stdin 2 /\
        Forall (fun p => dict_get p "event" = None) (replies (piper_request voice) stdin 2)
  end.
Proof.
  split.
  - pose proof (whisper_main_output stdin) as H.
    destruct (whisper_load_model _ _) as [ model | error ]; [ | exact H ].
    destruct H as (model_name & device & ms & Hmain & Hout).
    exists model_name, device, ms. split; [ exact Hmain | ]. split; [ exact Hout | ].
    eapply Forall_impl; [ | apply whisper_replies ].
    intros p (id & Hp). apply (whisper_response_fields id p Hp).
  - pose proof (piper_main_output stdin) as H.
    destruct load_voice as [ voice | error ]; [ | exact H ].
    destruct H as (ms & Hmain & Hout).
    exists ms. split; [ exact Hmain | ]. split; [ exact Hout | ].
    eapply Forall_impl; [ | apply piper_replies ].
    intros p (id & Hp). apply (piper_response_fields id p Hp).
Qed.

Lemma failure_fields id message :
  dict_keys (failure id message) = ["id"; "success"; "error"]%string /\
  dict_get (failure id message) "error" = Some (PyStr message) /\
  Forall (fun field => dict_get (failure id message) field = None) result_fields.
Proof. repeat split. repeat constructor. Qed.

Lemma error_event_fields message :
  dict_keys (error_event message) = ["event"; "success"; "error"]%string /\
  dict_get (error_event message) "error" = Some (PyStr message) /\
  Forall (fun field => dict_get (error_event message) field = None) result_fields.
Proof. repeat split. repeat constructor. Qed.

(** C3. Every line either worker writes with [success] false holds the
    three fields [id] (a response) or [event] (the startup event), [success]
    and [error], the error being a string, and none of the result fields. *)
Theorem failure_lines_carry_no_result stdin p :
  In p (stdout (snd (whisper_main stdin initial_world))) \/
  In p (stdout (snd (piper_main stdin initial_world))) ->
  dict_get p "success" = Some (PyBool false) ->
  (dict_keys p = ["id"; "success"; "error"]%string \/
   dict_keys p = ["event"; "success"; "error"]%string) /\
  (exists message, dict_get p "error" = Some (PyStr message)) /\
  Forall (fun field => dict_get p field = None) result_fields.
Proof.
  intros Hin Hfalse.
  assert (Hshape : (exists id message, p = failure id message) \/
                   (exists message, p = error_event message)).
  { destruct Hin as [ Hin | Hin ].
    - pose proof (whisper_main_output stdin) as Hw.
      destruct (whisper_load_model _ _) as [ model | error ].
      + destruct Hw as (model_name & device & ms & _ & Hout).
        rewrite Hout in Hin. destruct Hin as [ <- | Hin ]; [ discriminate | ].
        pose proof (whisper_replies model stdin 2) as Hall.
        rewrite Forall_forall in Hall. destruct (Hall p Hin) as (id & Hp).
        destruct (whisper_response_fields id p Hp) as (_ & _ & Hf).
        left. exists id. apply Hf. exact Hfalse.
      + destruct Hw as (message & Hw). rewrite Hw in Hin.
        destruct Hin as [ <- | [] ]. right. exists message. reflexivity.
    - pose proof (piper_main_output stdin) as Hp.
      destruct load_voice as [ voice | error ].
      + destruct Hp as (ms & _ & Hout).
        rewrite Hout in Hin. destruct Hin as [ <- | Hin ]; [ discriminate | ].
        pose proof (piper_replies voice stdin 2) as Hall.
        rewrite Forall_forall in Hall. destruct (Hall p Hin) as (id & Hp).
        destruct (piper_response_fields id p Hp) as (_ & _ & Hf).
        left. exists id. apply Hf. exact Hfalse.
      + destruct Hp as (message & Hp). rewrite Hp in Hin.
        destruct Hin as [ <- | [] ]. right. exists message. reflexivity. }
  destruct Hshape as [ (id & message & ->) | (message & ->) ].
  - destruct (failure_fields id message) as (Hk & He & Hr).
    split; [ left; exact Hk | ]. split; [ exists message; exact He | exact Hr ].
  - destruct (error_event_fields message) as (Hk & He & Hr).
    split; [ right; exact Hk | ]. split; [ exists message; exact He | exact Hr ].
Qed.



End Protocol.


Lemma malformed_line_is_answered_and_skipped_witness :
  stdout (serve (@piper_request Demo.runtime tt)
            [" oops "; Demo.line_synthesize]%string initial_world) =
  failure PyNone "Expecting value: line 1 column 1 (char 0)"
    :: replies (@piper_request Demo.runtime tt) [Demo.line_synthesize] 0.
Proof.
  apply (@malformed_line_is_answered_and_skipped Demo.runtime tt tt " oops "%string
           "Expecting value: line 1 column 1 (char 0)"%string [Demo.line_synthesize] initial_world);
    reflexivity.
Defined.

Lemma failure_lines_carry_no_result_witness :
  Forall (fun field => dict_get (failure PyNone "'list' object has no attribute 'get'") field = None)
    result_fields.
Proof.
  apply (@failure_lines_carry_no_result Demo.runtime ["[]"]%string
           (failure PyNone "'list' object has no attribute 'get'")).
  - left. vm_compute. right. left. reflexivity.
  - reflexivity.
Defined.


(** * The audio pipeline: decoding and the identity path of resampling *)

Section Audio.
Context {rt : Runtime}.

Lemma firstn_seq n start len : firstn n (seq start len) = seq start (Nat.min n len).
Proof.
  revert start len. induction n as [ | n IH ]; intros start [ | len ]; simpl; try reflexivity.
  rewrite IH. reflexivity.
Qed.

Lemma seq_offset a k : seq a k = map (fun j => (a + j)%nat) (seq 0 k).
Proof.
  revert a. induction k as [ | k IH ]; intros a; simpl; [ reflexivity | ].
  rewrite Nat.add_0_r. f_equal.
  rewrite <- (seq_shift k 0), map_map, (IH (S a)).
  apply map_ext. intros j. lia.
Qed.

Lemma rows_map_seq {A} (g : nat -> A) (k n : nat) :
  (0 < k)%nat -> (n mod k = 0)%nat ->
  rows k (map g (seq 0 n)) =
  map (fun i => map (fun j => g (i * k + j)%nat) (seq 0 k)) (seq 0 (n / k)).
Proof.
  intros Hk Hn. unfold rows. rewrite length_map, length_seq.
  apply map_ext_in. intros i Hi. apply in_seq in Hi.
  rewrite skipn_map, firstn_map, skipn_seq, firstn_seq.
  assert (Hdiv : n = (k * (n / k))%nat).
  { rewrite (Nat.div_mod_eq n k) at 1. rewrite Hn. lia. }
  assert (Hle : (i * k + k <= n)%nat) by nia.
  rewrite Nat.min_l by lia. simpl.
  rewrite (seq_offset (0 + i * k)), map_map. reflexivity.
Qed.

(** On one byte the subtraction of [128.0] in [float32] is the subtraction
    on integers. *)
Lemma sub_128_exact b :
  F32.sub (F32.of_Z (le_unsigned [b])) (F32.of_Z 128) = F32.of_Z (le_unsigned [b] - 128).
Proof. destruct b; vm_compute; reflexivity. Qed.

Lemma rbind_Ok {A B} (a : A) (k : A -> result B) : rbind (Ok a) k = k a.
Proof. reflexivity. Qed.

Lemma decode_width_1 frame_bytes :
  map (fun x => F32.div (F32.sub (F32.of_Z x) (F32.of_Z 128)) (F32.of_Z 128))
      (map le_unsigned (rows 1 frame_bytes)) =
  map (decoded_sample 1 frame_bytes) (seq 0 (List.length frame_bytes / 1)).
Proof.
  unfold rows. rewrite !map_map. apply map_ext_in. intros i Hi. apply in_seq in Hi.
  unfold decoded_sample, raw_sample, spec_sample. simpl Z.eqb. cbv iota.
  change (Z.to_nat 1) with 1%nat.
  rewrite Nat.div_1_r in Hi.
  destruct (skipn (i * 1) frame_bytes) as [ | b tail ] eqn:Hskip.
  - apply (f_equal (@List.length _)) in Hskip. rewrite length_skipn in Hskip. simpl in Hskip. lia.
  - simpl firstn. rewrite sub_128_exact. reflexivity.
Qed.

Lemma decode_signed (w : Z) divisor frame_bytes :
  w = 2 \/ w = 4 ->
  (forall raw, spec_sample w raw = F32.div (F32.of_Z raw) (F32.of_Z divisor)) ->
  map (fun x => F32.div (F32.of_Z x) (F32.of_Z divisor))
      (map le_signed (rows (Z.to_nat w) frame_bytes)) =
  map (decoded_sample w frame_bytes) (seq 0 (List.length frame_bytes / Z.to_nat w)).
Proof.
  intros Hw Hspec. unfold rows. rewrite !map_map. apply map_ext. intros i.
  unfold decoded_sample, raw_sample. rewrite Hspec.
  destruct Hw as [ -> | -> ]; reflexivity.
Qed.

(** C5. Let [wave.open] read the buffer.  A sample width other than 1, 2
    and 4 raises a [ValueError] whose message starts with "Unsupported WAV
    sample width".  Otherwise, when the frames hold whole samples, the
    result carries the frame rate of the header and
    - with one channel, sample [i] is the conversion of the specification
      applied to the [i]-th raw sample ([(byte - 128) / 128] on an unsigned
      byte, [int16 / 32768], [int32 / 2147483648]);
    - with [c > 1] channels, the samples making whole frames, sample [i] is
      numpy's mean of the [c] converted samples of frame [i], which are
      interleaved at [i * c], ..., [i * c + c - 1]. *)
Theorem wav_decoding wav_bytes wav :
  wave_open wav_bytes = Ok wav ->
  let width := getsampwidth wav in
  let channels := getnchannels wav in
  let sample i := decoded_sample width (readframes wav) i in
  (width <> 1 -> width <> 2 -> width <> 4 ->
   wav_bytes_to_float32 wav_bytes =
     Raise (mk_exn ValueError ("Unsupported WAV sample width" ++ ": " ++ decimal width))) /\
  (width = 1 \/ width = 2 \/ width = 4 -> whole_samples wav ->
   (channels <= 1 ->
    wav_bytes_to_float32 wav_bytes =
      Ok (map sample (seq 0 (sample_count wav)), getframerate wav)) /\
   (1 < channels -> (sample_count wav mod Z.to_nat channels = 0)%nat ->
    wav_bytes_to_float32 wav_bytes =
      Ok (map (fun i => np_mean (map (fun j => sample (i * Z.to_nat channels + j)%nat)
                                     (seq 0 (Z.to_nat channels))))
              (seq 0 (sample_count wav / Z.to_nat channels)),
          getframerate wav))).
Proof.
  intros Hopen width channels sample.
  unfold wav_bytes_to_float32. rewrite Hopen, rbind_Ok. cbv beta zeta.
  fold width channels. split.
  - intros H1 H2 H4.
    destruct (Z.eqb_spec width 1); [ contradiction | ].
    destruct (Z.eqb_spec width 2); [ contradiction | ].
    destruct (Z.eqb_spec width 4); [ contradiction | ].
    reflexivity.
  - intros Hwidth Hwhole.
    assert (Haudio :
      (if width =? 1
       then rbind (np_frombuffer 1 le_unsigned (readframes wav))
              (fun ints => Ok (map (fun x => F32.div (F32.sub (F32.of_Z x) (F32.of_Z 128))
                                               (F32.of_Z 128)) ints))
       else if width =? 2
       then rbind (np_frombuffer 2 le_signed (readframes wav))
              (fun ints => Ok (map (fun x => F32.div (F32.of_Z x) (F32.of_Z 32768)) ints))
       else if width =? 4
       then rbind (np_frombuffer 4 le_signed (readframes wav))
              (fun ints => Ok (map (fun x => F32.div (F32.of_Z x) (F32.of_Z 2147483648)) ints))
       else Raise (mk_exn ValueError ("Unsupported WAV sample width: " ++ decimal width)))
      = Ok (map sample (seq 0 (sample_count wav)))).
    { unfold whole_samples, sample_count in *. subst sample. fold width in Hwhole |- *.
      unfold np_frombuffer.
      destruct Hwidth as [ Hw | [ Hw | Hw ] ]; rewrite Hw in *; cbv beta iota delta [Z.eqb Pos.eqb];
        change (Z.to_nat 1) with 1%nat in *; change (Z.to_nat 2) with 2%nat in *;
        change (Z.to_nat 4) with 4%nat in *;
        rewrite Hwhole, Nat.eqb_refl; cbv beta iota delta [rbind]; f_equal.
      - apply decode_width_1.
      - apply (decode_signed 2); [ left; reflexivity | reflexivity ].
      - apply (decode_signed 4); [ right; reflexivity | reflexivity ]. }
    rewrite Haudio, rbind_Ok. split.
    + intros Hc. destruct (Z.ltb_spec 1 channels); [ lia | ]. reflexivity.
    + intros Hc Hframes. destruct (Z.ltb_spec 1 channels); [ | lia ].
      unfold reshape_mean. rewrite length_map, length_seq, Hframes, Nat.eqb_refl, rbind_Ok.
      rewrite rows_map_seq by (try exact Hframes; lia).
      rewrite map_map. reflexivity.
Qed.

(** The first test of [resample_linear]. *)
Lemma resample_linear_same_rate audio rate : resample_linear audio rate rate = Ok audio.
Proof. unfold resample_linear. rewrite Z.eqb_refl. reflexivity. Qed.

(** C6. When the two rates are equal, or the buffer is empty, resampling
    returns the buffer it was given; so an empty buffer stays empty whatever
    the rates. *)
Theorem resample_identity audio from_rate to_rate :
  from_rate = to_rate \/ audio = [] ->
  resample_linear audio from_rate to_rate = Ok audio.
Proof.
  intros [ -> | -> ]; unfold resample_linear.
  - rewrite Z.eqb_refl. reflexivity.
  - simpl. rewrite orb_true_r. reflexivity.
Qed.

End Audio.

Lemma resample_identity_witness :
  @resample_linear Demo.runtime [] 8000 16000 = Ok [] /\
  @resample_linear Demo.runtime [F32.of_Z 1; F32.of_Z 0] 16000 16000 = Ok [F32.of_Z 1; F32.of_Z 0].
Proof.
  split; apply (@resample_identity Demo.runtime); [ right | left ]; reflexivity.
Defined.

(** A stereo file of two frames, one byte a sample: 128 and 255, then 0 and
    64. *)
Lemma wav_decoding_witness :
  @wav_bytes_to_float32 Demo.runtime [x02; x01; x80; xff; x00; x40]%byte =
  Ok ([Demo.mean [F32.div (F32.of_Z 0) (F32.of_Z 128); F32.div (F32.of_Z 127) (F32.of_Z 128)];
       Demo.mean [F32.div (F32.of_Z (-128)) (F32.of_Z 128); F32.div (F32.of_Z (-64)) (F32.of_Z 128)]],
      16000).
Proof.
  apply (@wav_decoding Demo.runtime [x02; x01; x80; xff; x00; x40]%byte
           (mk_wav 16000 2 1 [x80; xff; x00; x40]%byte)).
  - reflexivity.
  - left. reflexivity.
  - reflexivity.
  - simpl. lia.
  - reflexivity.
Defined.

(** * Rounding in binary64 *)

(** What the proofs about weights and confidence need of IEEE arithmetic,
    derived from the definitions of [SpecFloat]: the shape of what
    [binary_round_aux] returns, that the operations keep floats valid, and
    that a sum is not below a representable number its exact value
    reaches. *)

Section Rounding.

Local Notation "'fexp'" := (SpecFloat.fexp F64.prec F64.emax).
Local Notation "'digits'" := Zdigits2.

Lemma fexp_eq e : fexp e = Z.max (e - 53) (-1074).
Proof. reflexivity. Qed.

Lemma digits2_pos_log2 m : Zpos (digits2_pos m) = Z.log2 (Zpos m) + 1.
Proof.
  induction m as [ m IH | m IH | ]; simpl digits2_pos.
  - rewrite Pos2Z.inj_succ, IH.
    change (Zpos m~1) with (2 * Zpos m + 1). rewrite Z.log2_succ_double by lia. lia.
  - rewrite Pos2Z.inj_succ, IH.
    change (Zpos m~0) with (2 * Zpos m). rewrite Z.log2_double by lia. lia.
  - reflexivity.
Qed.

Lemma digits_log2 m : 0 < m -> digits m = Z.log2 m + 1.
Proof. destruct m as [ | m | m ]; try lia. intros _. apply digits2_pos_log2. Qed.

Lemma digits_nonneg m : 0 <= digits m.
Proof. destruct m; simpl; lia. Qed.

Lemma digits_bounds m : 0 < m -> 2 ^ (digits m - 1) <= m < 2 ^ digits m.
Proof.
  intros Hm. rewrite digits_log2 by exact Hm.
  replace (Z.log2 m + 1 - 1) with (Z.log2 m) by lia.
  apply Z.log2_spec. exact Hm.
Qed.

(** [digits] is the least [d] with [m < 2 ^ d]. *)
Lemma digits_le m d : 0 <= m -> 0 <= d -> m < 2 ^ d -> digits m <= d.
Proof.
  intros Hm Hd Hlt. destruct (Z.eq_dec m 0) as [ -> | Hne ]; [ simpl; lia | ].
  destruct (Z.le_gt_cases (digits m) d) as [ H | H ]; [ exact H | exfalso ].
  pose proof (digits_bounds m ltac:(lia)) as [ Hlo _ ].
  assert (2 ^ d <= 2 ^ (digits m - 1)) by (apply Z.pow_le_mono_r; lia).
  lia.
Qed.

Lemma digits_ge m d : 0 <= d -> 2 ^ d <= m -> d + 1 <= digits m.
Proof.
  intros Hd Hle. assert (Hm : 0 < m) by (pose proof (Z.pow_pos_nonneg 2 d); lia).
  destruct (Z.le_gt_cases (d + 1) (digits m)) as [ H | H ]; [ exact H | exfalso ].
  pose proof (digits_bounds m ltac:(lia)) as [ _ Hhi ].
  assert (2 ^ digits m <= 2 ^ d) by (apply Z.pow_le_mono_r; lia).
  lia.
Qed.

Lemma digits_pos m : 0 < m -> 1 <= digits m.
Proof. intros Hm. apply (digits_ge m 0); simpl; lia. Qed.

Lemma digits_mono a b : 0 <= a <= b -> digits a <= digits b.
Proof.
  intros [ Ha Hab ]. destruct (Z.eq_dec a 0) as [ -> | Hne ]; [ apply digits_nonneg | ].
  apply digits_le; [ lia | apply digits_nonneg | ].
  pose proof (digits_bounds b ltac:(lia)). lia.
Qed.

(** Digits of a quotient by a power of two. *)
Lemma digits_div_pow2 m k :
  0 < m -> 0 <= k -> k < digits m -> digits (m / 2 ^ k) = digits m - k.
Proof.
  intros Hm Hk Hlt.
  pose proof (digits_bounds m Hm) as [ Hlo Hhi ].
  assert (Hpk : 0 < 2 ^ k) by (apply Z.pow_pos_nonneg; lia).
  assert (Hq : 2 ^ (digits m - k - 1) <= m / 2 ^ k).
  { apply Z.div_le_lower_bound; [ exact Hpk | ].
    rewrite <- Z.pow_add_r by lia. replace (k + (digits m - k - 1)) with (digits m - 1) by lia.
    exact Hlo. }
  assert (Hq' : m / 2 ^ k < 2 ^ (digits m - k)).
  { apply Z.div_lt_upper_bound; [ exact Hpk | ].
    rewrite <- Z.pow_add_r by lia. replace (k + (digits m - k)) with (digits m) by lia.
    exact Hhi. }
  apply Z.le_antisymm.
  - apply digits_le; [ | lia | exact Hq' ].
    pose proof (Z.pow_pos_nonneg 2 (digits m - k - 1)); lia.
  - pose proof (digits_ge (m / 2 ^ k) (digits m - k - 1) ltac:(lia) Hq). lia.
Qed.

Lemma div_pow2_small m k : 0 <= m -> 0 <= k -> digits m <= k -> m / 2 ^ k = 0.
Proof.
  intros Hm Hk Hle. destruct (Z.eq_dec m 0) as [ -> | Hne ]; [ apply Z.div_0_l; pose proof (Z.pow_pos_nonneg 2 k); lia | ].
  apply Z.div_small. split; [ exact Hm | ].
  pose proof (digits_bounds m ltac:(lia)) as [ _ Hhi ].
  assert (2 ^ digits m <= 2 ^ k) by (apply Z.pow_le_mono_r; lia). lia.
Qed.

(** *** Shifting right *)

Lemma shr_1_m mrs : 0 <= shr_m mrs -> shr_m (shr_1 mrs) = shr_m mrs / 2.
Proof.
  destruct mrs as [ m r s ]. simpl shr_m. intros Hm. rewrite <- Z.div2_div.
  destruct m as [ | [ p | p | ] | p ]; try lia; reflexivity.
Qed.

Lemma iter_shr_m p : forall mrs,
  0 <= shr_m mrs -> shr_m (iter_pos shr_1 p mrs) = shr_m mrs / 2 ^ Zpos p.
Proof.
  induction p as [ p IH | p IH | ]; intros mrs Hm; simpl iter_pos.
  - assert (H1 : 0 <= shr_m (shr_1 mrs)) by (rewrite shr_1_m by lia; apply Z.div_pos; lia).
    assert (H2 : 0 <= shr_m (iter_pos shr_1 p (shr_1 mrs))).
    { rewrite IH by exact H1. apply Z.div_pos; [ exact H1 | apply Z.pow_pos_nonneg; lia ]. }
    rewrite IH by exact H2. rewrite IH by exact H1. rewrite shr_1_m by exact Hm.
    rewrite !Z.div_div by (try apply Z.pow_pos_nonneg; lia).
    f_equal. rewrite <- Z.pow_add_r, <- Z.pow_succ_r by lia. f_equal. lia.
  - assert (H1 : 0 <= shr_m (iter_pos shr_1 p mrs)).
    { rewrite IH by exact Hm. apply Z.div_pos; [ exact Hm | apply Z.pow_pos_nonneg; lia ]. }
    rewrite IH by exact H1. rewrite IH by exact Hm.
    rewrite !Z.div_div by (try apply Z.pow_pos_nonneg; lia).
    f_equal. rewrite <- Z.pow_add_r by lia. f_equal. lia.
  - rewrite shr_1_m by exact Hm. reflexivity.
Qed.

Lemma shr_record_of_loc_m m l : shr_m (shr_record_of_loc m l) = m.
Proof. destruct l as [ | [ | | ] ]; reflexivity. Qed.

Lemma shr_fexp_spec m e l :
  0 <= m -> e <= fexp (digits m + e) ->
  shr_m (fst (shr_fexp F64.prec F64.emax m e l)) = m / 2 ^ (fexp (digits m + e) - e) /\
  snd (shr_fexp F64.prec F64.emax m e l) = fexp (digits m + e).
Proof.
  intros Hm He. unfold shr_fexp, shr.
  destruct (fexp (digits m + e) - e) as [ | k | k ] eqn:Hk; try lia.
  - simpl. rewrite shr_record_of_loc_m, Z.div_1_r. split; [ reflexivity | lia ].
  - simpl fst. simpl snd. rewrite iter_shr_m by (rewrite shr_record_of_loc_m; exact Hm).
    rewrite shr_record_of_loc_m. split; [ reflexivity | lia ].
Qed.

Lemma round_nearest_even_bounds q l :
  q <= round_nearest_even q l <= q + 1.
Proof.
  destruct l as [ | [ | | ] ]; simpl; try lia. destruct (Z.even q); lia.
Qed.

(** *** What [binary_round_aux] returns *)

Lemma digits_succ q :
  0 <= q ->
  digits (q + 1) = digits q \/ (digits (q + 1) = digits q + 1 /\ q + 1 = 2 ^ digits q).
Proof.
  intros Hq. pose proof (digits_nonneg q) as Hd.
  assert (Hhi : q < 2 ^ digits q).
  { destruct (Z.eq_dec q 0) as [ -> | Hne ]; [ simpl; lia | ].
    apply (digits_bounds q); lia. }
  destruct (Z.lt_ge_cases (q + 1) (2 ^ digits q)) as [ Hlt | Hge ].
  - left. apply Z.le_antisymm.
    + apply digits_le; lia.
    + apply digits_mono; lia.
  - right. assert (Heq : q + 1 = 2 ^ digits q) by lia. split; [ | exact Heq ].
    rewrite Heq. rewrite digits_log2 by (apply Z.pow_pos_nonneg; lia).
    rewrite Z.log2_pow2 by lia. reflexivity.
Qed.

Lemma bra_unfold s m e l :
  0 <= m -> e <= fexp (digits m + e) ->
  exists m1,
    m / 2 ^ (fexp (digits m + e) - e) <= m1 <= m / 2 ^ (fexp (digits m + e) - e) + 1 /\
    (fexp (digits m + e) <= fexp (digits m1 + fexp (digits m + e)) ->
     binary_round_aux F64.prec F64.emax s m e l =
     match m1 / 2 ^ (fexp (digits m1 + fexp (digits m + e)) - fexp (digits m + e)) with
     | Z0 => S754_zero s
     | Zpos m' =>
         if fexp (digits m1 + fexp (digits m + e)) <=? 971
         then S754_finite s m' (fexp (digits m1 + fexp (digits m + e)))
         else S754_infinity s
     | Zneg _ => S754_nan
     end).
Proof.
  intros Hm He. unfold binary_round_aux.
  pose proof (shr_fexp_spec m e l Hm He) as [ Hq He1 ].
  destruct (shr_fexp F64.prec F64.emax m e l) as [ mrs' e' ]. simpl in Hq, He1. subst e'.
  set (m1 := round_nearest_even (shr_m mrs') (loc_of_shr_record mrs')).
  exists m1. split.
  - rewrite <- Hq. apply round_nearest_even_bounds.
  - intros He2.
    assert (Hm1 : 0 <= m1).
    { pose proof (round_nearest_even_bounds (shr_m mrs') (loc_of_shr_record mrs')).
      assert (0 <= shr_m mrs') by (rewrite Hq; apply Z.div_pos; [ lia | apply Z.pow_pos_nonneg; lia ]).
      fold m1 in H. lia. }
    pose proof (shr_fexp_spec m1 (fexp (digits m + e)) loc_Exact Hm1 He2) as [ Hq2 He3 ].
    destruct (shr_fexp F64.prec F64.emax m1 (fexp (digits m + e)) loc_Exact) as [ mrs'' e'' ].
    simpl in Hq2, He3. subst e''. rewrite Hq2. reflexivity.
Qed.

Lemma bra_rounded s m e l :
  0 <= m -> e <= fexp (digits m + e) ->
  rounded s (m / 2 ^ (fexp (digits m + e) - e)) (fexp (digits m + e))
    (binary_round_aux F64.prec F64.emax s m e l).
Proof.
  intros Hm He.
  destruct (bra_unfold s m e l Hm He) as (m1 & Hm1 & Hrun).
  set (e1 := fexp (digits m + e)) in *. set (q := m / 2 ^ (e1 - e)) in *.
  assert (Hk : 0 <= e1 - e) by lia.
  assert (Hpk : 0 < 2 ^ (e1 - e)) by (apply Z.pow_pos_nonneg; lia).
  assert (Hq0 : 0 <= q) by (apply Z.div_pos; lia).
  pose proof (digits_nonneg m) as Hdm.
  (* the exponent of a mantissa that is shifted out is the least one *)
  assert (Hzero : q = 0 -> e1 = -1074).
  { intros Hz. destruct (Z.eq_dec m 0) as [ -> | Hne ].
    - unfold e1 in *. simpl Zdigits2 in *. rewrite fexp_eq in *. lia.
    - assert (Hlt : m < 2 ^ (e1 - e)).
      { destruct (Z.lt_ge_cases m (2 ^ (e1 - e))) as [ Hlt | Hge ]; [ exact Hlt | exfalso ].
        assert (1 <= q) by (apply Z.div_le_lower_bound; lia). lia. }
      assert (digits m <= e1 - e) by (apply digits_le; lia).
      unfold e1 in *. rewrite fexp_eq in *. lia. }
  (* otherwise the shifted mantissa is canonical *)
  assert (Hpos : 0 < q -> digits q + e1 = digits m + e /\ digits q <= 53).
  { intros Hq. assert (Hmpos : 0 < m).
    { destruct (Z.eq_dec m 0) as [ Hz | Hne ]; [ | lia ].
      unfold q in Hq. rewrite Hz, Z.div_0_l in Hq; lia. }
    assert (Hlt : e1 - e < digits m).
    { destruct (Z.lt_ge_cases (e1 - e) (digits m)) as [ Hlt | Hge ]; [ exact Hlt | exfalso ].
      unfold q in Hq. rewrite div_pow2_small in Hq; lia. }
    unfold q. rewrite digits_div_pow2 by lia.
    split; [ lia | ]. unfold e1 in *. rewrite fexp_eq in *. lia. }
  assert (Hcases : m1 = q \/ m1 = q + 1) by lia.
  destruct (Z.eq_dec q 0) as [ Hz | Hnz ].
  - (* everything was shifted out *)
    specialize (Hzero Hz). destruct Hcases as [ -> | -> ]; rewrite Hz, Hzero in *.
    + rewrite Hrun by (rewrite fexp_eq; simpl; lia). simpl. constructor. reflexivity.
    + rewrite Hrun by (rewrite fexp_eq; simpl; lia). simpl.
      apply rounded_same; [ lia | reflexivity ].
  - assert (Hq : 0 < q) by lia. destruct (Hpos Hq) as [ Hcanon Hd53 ].
    assert (Hfq : fexp (digits q + e1) = e1) by (rewrite Hcanon; reflexivity).
    assert (Hsame : forall m', digits m' = digits q -> q <= m' <= q + 1 ->
              (fexp (digits m' + e1) <= e1 -> True) ->
              rounded s q e1
                match m' / 2 ^ (fexp (digits m' + e1) - e1) with
                | Z0 => S754_zero s
                | Zpos p =>
                    if fexp (digits m' + e1) <=? 971
                    then S754_finite s p (fexp (digits m' + e1))
                    else S754_infinity s
                | Zneg _ => S754_nan
                end).
    { intros m' Hd Hb _. rewrite Hd, Hfq, Z.sub_diag, Z.pow_0_r, Z.div_1_r.
      destruct m' as [ | p | p ]; try lia.
      destruct (Z.leb_spec e1 971).
      - apply rounded_same; [ exact Hb | ].
        unfold bounded, canonical_mantissa. simpl Zdigits2 in Hd. rewrite Hd, Hfq, Z.eqb_refl.
        apply Z.leb_le. exact H.
      - apply rounded_overflow; lia. }
    destruct Hcases as [ -> | -> ].
    + rewrite Hrun by (rewrite Hfq; lia). apply Hsame; [ reflexivity | lia | trivial ].
    + destruct (digits_succ q Hq0) as [ Hd | [ Hd Hpow ] ].
      * rewrite Hrun by (rewrite Hd, Hfq; lia). apply Hsame; [ exact Hd | lia | trivial ].
      * destruct (Z.eq_dec (digits q) 53) as [ H53 | Hlt53 ].
        -- (* the carry *)
           assert (Hf : fexp (digits (q + 1) + e1) = e1 + 1).
           { rewrite Hd. rewrite fexp_eq in *. lia. }
           rewrite Hrun by lia. rewrite Hf.
           replace (e1 + 1 - e1) with 1 by lia. rewrite Hpow, H53.
           change (2 ^ 53 / 2 ^ 1) with (Zpos (2 ^ 52)).
           destruct (Z.leb_spec (e1 + 1) 971).
           ++ apply rounded_carry; [ rewrite Hpow, H53; reflexivity | | lia ].
              unfold e1. rewrite fexp_eq. lia.
           ++ apply rounded_overflow; lia.
        -- (* a subnormal that grows by one digit *)
           assert (He1 : e1 = -1074) by (rewrite fexp_eq in Hfq; lia).
           assert (Hf : fexp (digits (q + 1) + e1) = e1) by (rewrite Hd, fexp_eq; lia).
           rewrite Hrun by lia. rewrite Hf, Z.sub_diag, Z.pow_0_r, Z.div_1_r.
           destruct (q + 1) as [ | p | p ] eqn:Hp; try lia.
           destruct (Z.leb_spec e1 971); [ | lia ].
           apply rounded_same; [ lia | ].
           unfold bounded, canonical_mantissa. simpl Zdigits2 in Hd, Hf.
           rewrite Hf, Z.eqb_refl. apply Z.leb_le. change (e1 <= 971). lia.
Qed.

Lemma rounded_valid s q e1 x : rounded s q e1 x -> F64.valid x = true.
Proof.
  intros [ _ | m _ Hb | _ Hlo Hhi | _ _ ]; try reflexivity.
  - exact Hb.
  - unfold F64.valid, valid_binary, bounded, canonical_mantissa.
    change (Zpos (digits2_pos (2 ^ 52))) with 53.
    rewrite fexp_eq. apply andb_true_intro. split.
    + apply Z.eqb_eq. lia.
    + apply Z.leb_le. change (e1 + 1 <= 971). lia.
Qed.

Lemma bounded_inv m e :
  bounded F64.prec F64.emax m e = true ->
  e = fexp (Zpos (digits2_pos m) + e) /\ e <= 971.
Proof.
  unfold bounded, canonical_mantissa. intros H.
  apply andb_prop in H. destruct H as [ Hc He ].
  apply Z.eqb_eq in Hc. apply Z.leb_le in He. split; [ symmetry; exact Hc | exact He ].
Qed.

(** *** Aligning to the left *)

Lemma iter_xO m d : Zpos (Pos.iter xO m d) = Zpos m * 2 ^ Zpos d.
Proof.
  induction d as [ | d IH ] using Pos.peano_ind.
  - simpl. lia.
  - rewrite Pos.iter_succ, Pos2Z.inj_xO, IH, Pos2Z.inj_succ.
    rewrite Z.pow_succ_r by lia. ring.
Qed.

Lemma shl_align_spec mx ex e' :
  snd (shl_align mx ex e') = Z.min ex e' /\
  Zpos (fst (shl_align mx ex e')) = Zpos mx * 2 ^ (ex - Z.min ex e').
Proof.
  unfold shl_align. destruct (e' - ex) as [ | d | d ] eqn:Hd; simpl.
  - replace (Z.min ex e') with ex by lia. rewrite Z.sub_diag, Z.pow_0_r. split; lia.
  - replace (Z.min ex e') with ex by lia. rewrite Z.sub_diag, Z.pow_0_r. split; lia.
  - replace (Z.min ex e') with e' by lia. rewrite iter_xO.
    replace (ex - e') with (Zpos d) by lia. split; reflexivity.
Qed.

Lemma digits_mul_pow2 m k : 0 < m -> 0 <= k -> digits (m * 2 ^ k) = digits m + k.
Proof.
  intros Hm Hk.
  assert (0 < m * 2 ^ k) by (apply Z.mul_pos_pos; [ exact Hm | apply Z.pow_pos_nonneg; lia ]).
  rewrite !digits_log2 by assumption.
  rewrite Z.log2_mul_pow2 by lia. lia.
Qed.

Lemma binary_round_rounded s mx ex :
  let e1 := fexp (Zpos (digits2_pos mx) + ex) in
  rounded s (scale (Zpos mx) (ex - e1)) e1 (binary_round F64.prec F64.emax s mx ex).
Proof.
  intros e1. unfold binary_round. fold e1.
  pose proof (shl_align_spec mx ex e1) as [ Hez Hmz ].
  destruct (shl_align mx ex e1) as [ mz ez ]. cbn [fst snd] in Hez, Hmz. subst ez.
  assert (Hd : digits (Zpos mz) + Z.min ex e1 = Zpos (digits2_pos mx) + ex).
  { rewrite Hmz, digits_mul_pow2 by lia. simpl Zdigits2. lia. }
  pose proof (bra_rounded s (Zpos mz) (Z.min ex e1) loc_Exact) as H.
  rewrite Hd in H. fold e1 in H.
  replace (scale (Zpos mx) (ex - e1)) with (Zpos mz / 2 ^ (e1 - Z.min ex e1)).
  - apply H; lia.
  - unfold scale. destruct (Z.leb_spec 0 (ex - e1)).
    + replace (Z.min ex e1) with e1 by lia. rewrite Z.sub_diag, Z.div_1_r.
      rewrite Hmz. replace (Z.min ex e1) with e1 by lia. reflexivity.
    + rewrite Hmz. replace (Z.min ex e1) with ex by lia.
      rewrite Z.sub_diag, Z.mul_1_r. f_equal. f_equal. lia.
Qed.

Lemma binary_normalize_valid m e szero :
  F64.valid (binary_normalize F64.prec F64.emax m e szero) = true.
Proof.
  destruct m as [ | p | p ]; simpl; [ reflexivity | | ];
    eapply rounded_valid; apply binary_round_rounded.
Qed.

Lemma of_Z_valid z : F64.valid (F64.of_Z z) = true.
Proof. apply binary_normalize_valid. Qed.

Lemma add_valid x y :
  F64.valid x = true -> F64.valid y = true -> F64.valid (F64.add x y) = true.
Proof.
  intros Hx Hy. unfold F64.add, SFadd.
  destruct x as [ sx | sx | | sx mx ex ], y as [ sy | sy | | sy my ey ];
    try reflexivity; try exact Hx; try exact Hy;
    try (destruct sx, sy; reflexivity).
  apply binary_normalize_valid.
Qed.

Lemma sub_valid x y :
  F64.valid x = true -> F64.valid y = true -> F64.valid (F64.sub x y) = true.
Proof.
  intros Hx Hy. unfold F64.sub, SFsub.
  destruct x as [ sx | sx | | sx mx ex ], y as [ sy | sy | | sy my ey ];
    try reflexivity; try exact Hx; try exact Hy;
    try (destruct sx, sy; reflexivity).
  apply binary_normalize_valid.
Qed.

(** *** Division *)

Lemma fexp_mono a b : a <= b -> fexp a <= fexp b.
Proof. intros H. rewrite !fexp_eq. lia. Qed.

Lemma div_core_pre m1 e1 m2 e2 :
  0 < m1 -> 0 < m2 ->
  0 <= fst (fst (SFdiv_core_binary F64.prec F64.emax m1 e1 m2 e2)) /\
  snd (fst (SFdiv_core_binary F64.prec F64.emax m1 e1 m2 e2)) <=
    fexp (digits (fst (fst (SFdiv_core_binary F64.prec F64.emax m1 e1 m2 e2))) +
          snd (fst (SFdiv_core_binary F64.prec F64.emax m1 e1 m2 e2))).
Proof.
  intros H1 H2. unfold SFdiv_core_binary.
  set (d1 := digits m1). set (d2 := digits m2).
  set (e' := Z.min (fexp (d1 + e1 - (d2 + e2))) (e1 - e2)).
  set (s := e1 - e2 - e').
  assert (Hs : 0 <= s) by (unfold s, e'; lia).
  set (m' := match s with Z0 => m1 | Zpos _ => Z.shiftl m1 s | Zneg _ => 0 end).
  assert (Hm' : m' = m1 * 2 ^ s).
  { unfold m'. destruct s as [ | p | p ] eqn:Hsp; try lia.
    rewrite Z.shiftl_mul_pow2 by lia. reflexivity. }
  assert (Hq : fst (Z.div_eucl m' m2) = m' / m2) by reflexivity.
  destruct (Z.div_eucl m' m2) as [ q r ]. simpl in Hq. simpl fst. simpl snd. subst q.
  assert (Hps : 0 < 2 ^ s) by (apply Z.pow_pos_nonneg; lia).
  assert (Hm'pos : 0 < m') by (rewrite Hm'; apply Z.mul_pos_pos; lia).
  assert (Hq0 : 0 <= m' / m2) by (apply Z.div_pos; lia).
  split; [ exact Hq0 | ].
  assert (Hd : d1 + s - d2 <= digits (m' / m2)).
  { destruct (Z.le_gt_cases (d1 + s - d2) 0) as [ Hle | Hgt ].
    - pose proof (digits_nonneg (m' / m2)). lia.
    - pose proof (digits_bounds m1 H1) as [ Hlo1 _ ].
      pose proof (digits_bounds m2 H2) as [ _ Hhi2 ].
      fold d1 in Hlo1. fold d2 in Hhi2.
      pose proof (digits_nonneg m2) as Hd2. fold d2 in Hd2.
      pose proof (digits_pos m1 H1) as Hd1. fold d1 in Hd1.
      assert (Hle : 2 ^ (d1 + s - d2 - 1) <= m' / m2).
      { apply Z.div_le_lower_bound; [ exact H2 | ].
        assert (Hp : 0 < 2 ^ (d1 + s - d2 - 1)) by (apply Z.pow_pos_nonneg; lia).
        assert (m2 * 2 ^ (d1 + s - d2 - 1) <= 2 ^ d2 * 2 ^ (d1 + s - d2 - 1)) by nia.
        rewrite <- Z.pow_add_r in H by lia.
        replace (d2 + (d1 + s - d2 - 1)) with ((d1 - 1) + s) in H by lia.
        rewrite Z.pow_add_r in H by lia.
        rewrite Hm'. nia. }
      pose proof (digits_ge (m' / m2) (d1 + s - d2 - 1) ltac:(lia) Hle). lia. }
  transitivity (fexp (d1 + e1 - (d2 + e2))); [ unfold e'; lia | ].
  apply fexp_mono. unfold s in Hd. lia.
Qed.

Lemma div_valid x y : F64.valid (F64.div x y) = true.
Proof.
  unfold F64.div, SFdiv.
  destruct x as [ sx | sx | | sx mx ex ], y as [ sy | sy | | sy my ey ]; try reflexivity.
  pose proof (div_core_pre (Zpos mx) ex (Zpos my) ey ltac:(lia) ltac:(lia)) as [ Hq He ].
  destruct (SFdiv_core_binary F64.prec F64.emax (Zpos mx) ex (Zpos my) ey) as [ [ q e' ] l ].
  simpl in Hq, He. eapply rounded_valid. apply bra_rounded; assumption.
Qed.

(** *** Order and exact values *)

(** The floats not below a positive finite one are positive, finite or
    infinite. *)
Lemma leb_positive mc ec x :
  F64.leb (S754_finite false mc ec) x = true ->
  x = S754_infinity false \/ exists mx ex, x = S754_finite false mx ex.
Proof.
  destruct x as [ sx | [ | ] | | [ | ] mx ex ]; try discriminate.
  - left. reflexivity.
  - right. exists mx, ex. reflexivity.
Qed.

Lemma leb_finite mc ec mx ex :
  F64.leb (S754_finite false mc ec) (S754_finite false mx ex) = true <->
  ec < ex \/ (ec = ex /\ Zpos mc <= Zpos mx).
Proof.
  unfold F64.leb, SFleb, SFcompare.
  destruct (Z.compare_spec ec ex) as [ Heq | Hlt | Hgt ].
  - rewrite Pos.compare_cont_spec. simpl Pos.switch_Eq.
    destruct (Pos.compare_spec mc mx) as [ Hm | Hm | Hm ]; simpl; split; intros H;
      try reflexivity; try discriminate; try lia.
  - split; [ intros _; left; exact Hlt | reflexivity ].
  - split; [ discriminate | lia ].
Qed.

Lemma bounded_digits m e :
  bounded F64.prec F64.emax m e = true ->
  -1074 <= e <= 971 /\ Zpos m < 2 ^ 53 /\ (-1074 < e -> 2 ^ 52 <= Zpos m).
Proof.
  intros H. destruct (bounded_inv m e H) as [ Hc He ].
  pose proof (digits_bounds (Zpos m) ltac:(lia)) as [ Hlo Hhi ]. simpl Zdigits2 in Hlo, Hhi.
  rewrite fexp_eq in Hc. split; [ lia | ]. split.
  - assert (2 ^ Zpos (digits2_pos m) <= 2 ^ 53) by (apply Z.pow_le_mono_r; lia). lia.
  - intros Hn. assert (Zpos (digits2_pos m) = 53) by lia.
    replace 52 with (Zpos (digits2_pos m) - 1) by lia. exact Hlo.
Qed.

Lemma leb_value mc ec mx ex :
  bounded F64.prec F64.emax mc ec = true ->
  bounded F64.prec F64.emax mx ex = true ->
  F64.leb (S754_finite false mc ec) (S754_finite false mx ex) = true ->
  Zpos mc * 2 ^ (ec + 1074) <= Zpos mx * 2 ^ (ex + 1074).
Proof.
  intros Hc Hx Hle. apply leb_finite in Hle.
  destruct (bounded_digits mc ec Hc) as (Hec & Hmc & _).
  destruct (bounded_digits mx ex Hx) as (Hex & _ & Hmx).
  destruct Hle as [ Hlt | [ -> Hm ] ].
  - specialize (Hmx ltac:(lia)).
    assert (Hp : 0 < 2 ^ (ec + 1074)) by (apply Z.pow_pos_nonneg; lia).
    assert (Hstep : 2 * 2 ^ (ec + 1074) <= 2 ^ (ex + 1074)).
    { rewrite <- Z.pow_succ_r by lia. apply Z.pow_le_mono_r; lia. }
    change (2 ^ 53) with (2 * 2 ^ 52) in Hmc. nia.
  - apply Z.mul_le_mono_nonneg_r; [ apply Z.pow_nonneg; lia | exact Hm ].
Qed.

(** A mantissa that is shifted out entirely sits at the least exponent. *)
Lemma shifted_out m e :
  0 < m -> e <= fexp (digits m + e) ->
  m / 2 ^ (fexp (digits m + e) - e) = 0 -> fexp (digits m + e) = -1074.
Proof.
  intros Hm He Hz.
  assert (Hpk : 0 < 2 ^ (fexp (digits m + e) - e)) by (apply Z.pow_pos_nonneg; lia).
  assert (Hlt : m < 2 ^ (fexp (digits m + e) - e)).
  { destruct (Z.lt_ge_cases m (2 ^ (fexp (digits m + e) - e))) as [ Hlt | Hge ];
      [ exact Hlt | exfalso ].
    assert (1 <= m / 2 ^ (fexp (digits m + e) - e)) by (apply Z.div_le_lower_bound; lia). lia. }
  assert (digits m <= fexp (digits m + e) - e) by (apply digits_le; lia).
  rewrite fexp_eq in *. lia.
Qed.

(** Rounding does not go below a representable number that the exact value
    reaches. *)
Lemma round_ge mc ec m e l u :
  bounded F64.prec F64.emax mc ec = true ->
  0 < m -> e <= fexp (digits m + e) -> u <= e -> u <= ec ->
  Zpos mc * 2 ^ (ec - u) <= m * 2 ^ (e - u) ->
  F64.leb (S754_finite false mc ec) (binary_round_aux F64.prec F64.emax false m e l) = true.
Proof.
  intros Hc Hm He Hue Huc Hval.
  pose proof (bra_rounded false m e l ltac:(lia) He) as Hr.
  pose proof (shifted_out m e Hm He) as Hout.
  set (e1 := fexp (digits m + e)) in *. set (q := m / 2 ^ (e1 - e)) in *.
  destruct (bounded_inv mc ec Hc) as [ Hcanon _ ].
  pose proof (digits_bounds (Zpos mc) ltac:(lia)) as [ Hlo _ ].
  pose proof (digits_bounds m Hm) as [ _ Hhi ].
  pose proof (digits_nonneg m) as Hdm.
  assert (Hd : digits (Zpos mc) + ec <= digits m + e).
  { assert (Hlt : 2 ^ (digits (Zpos mc) - 1 + (ec - u)) < 2 ^ (digits m + (e - u))).
    { rewrite !Z.pow_add_r by (simpl Zdigits2 in *; lia).
      assert (0 < 2 ^ (ec - u)) by (apply Z.pow_pos_nonneg; lia).
      assert (0 < 2 ^ (e - u)) by (apply Z.pow_pos_nonneg; lia).
      nia. }
    apply Z.pow_lt_mono_r_iff in Hlt; lia. }
  assert (Hee : ec <= e1).
  { unfold e1. simpl Zdigits2 in Hd, Hcanon. rewrite Hcanon. apply fexp_mono. exact Hd. }
  assert (Hq : ec = e1 -> Zpos mc <= q).
  { intros Heq. unfold q. apply Z.div_le_lower_bound; [ apply Z.pow_pos_nonneg; lia | ].
    rewrite Heq in Hval.
    replace (e1 - u) with ((e1 - e) + (e - u)) in Hval by lia.
    rewrite Z.pow_add_r in Hval by lia.
    assert (0 < 2 ^ (e - u)) by (apply Z.pow_pos_nonneg; lia).
    assert (0 < 2 ^ (e1 - e)) by (apply Z.pow_pos_nonneg; lia).
    nia. }
  destruct Hr as [ Hz | m' Hb _ | _ _ _ | _ _ ].
  - exfalso. specialize (Hout Hz). rewrite fexp_eq in Hcanon. 
    assert (ec = e1) by lia. specialize (Hq H). lia.
  - apply leb_finite. destruct (Z.eq_dec ec e1) as [ Heq | Hne ]; [ right | left; lia ].
    split; [ exact Heq | ]. specialize (Hq Heq). lia.
  - apply leb_finite. left. lia.
  - reflexivity.
Qed.

Lemma binary_round_ge mc ec p e :
  bounded F64.prec F64.emax mc ec = true ->
  -1074 <= e ->
  Zpos mc * 2 ^ (ec + 1074) <= Zpos p * 2 ^ (e + 1074) ->
  F64.leb (S754_finite false mc ec) (binary_round F64.prec F64.emax false p e) = true.
Proof.
  intros Hc He Hval. unfold binary_round.
  set (e1 := fexp (Zpos (digits2_pos p) + e)).
  pose proof (shl_align_spec p e e1) as [ Hez Hmz ].
  destruct (shl_align p e e1) as [ mz ez ]. cbn [fst snd] in Hez, Hmz. subst ez.
  assert (Hd : digits (Zpos mz) + Z.min e e1 = Zpos (digits2_pos p) + e).
  { rewrite Hmz, digits_mul_pow2 by lia. simpl Zdigits2. lia. }
  destruct (bounded_digits mc ec Hc) as (Hec & _ & _).
  assert (He1 : -1074 <= e1) by (unfold e1; rewrite fexp_eq; lia).
  apply (round_ge mc ec (Zpos mz) (Z.min e e1) loc_Exact (-1074) Hc); try lia.
  - rewrite Hd. fold e1. lia.
  - rewrite Hmz. replace (ec - -1074) with (ec + 1074) by lia.
    rewrite <- Z.mul_assoc, <- Z.pow_add_r by lia.
    replace (e - Z.min e e1 + (Z.min e e1 - -1074)) with (e + 1074) by lia. exact Hval.
Qed.

Lemma add_ge mc ec mx ex my ey :
  bounded F64.prec F64.emax mc ec = true ->
  bounded F64.prec F64.emax mx ex = true ->
  bounded F64.prec F64.emax my ey = true ->
  Zpos mc * 2 ^ (ec + 1074) <= Zpos mx * 2 ^ (ex + 1074) + Zpos my * 2 ^ (ey + 1074) ->
  F64.leb (S754_finite false mc ec)
    (F64.add (S754_finite false mx ex) (S754_finite false my ey)) = true.
Proof.
  intros Hc Hx Hy Hval. unfold F64.add, SFadd, cond_Zopp.
  destruct (bounded_digits mx ex Hx) as (Hex & _ & _).
  destruct (bounded_digits my ey Hy) as (Hey & _ & _).
  pose proof (shl_align_spec mx ex (Z.min ex ey)) as [ _ Hax ].
  pose proof (shl_align_spec my ey (Z.min ex ey)) as [ _ Hay ].
  replace (Z.min ex (Z.min ex ey)) with (Z.min ex ey) in Hax by lia.
  replace (Z.min ey (Z.min ex ey)) with (Z.min ex ey) in Hay by lia.
  set (ax := fst (shl_align mx ex (Z.min ex ey))) in *.
  set (ay := fst (shl_align my ey (Z.min ex ey))) in *.
  change (Zpos ax + Zpos ay) with (Zpos (ax + ay)). simpl binary_normalize.
  apply binary_round_ge; [ exact Hc | lia | ].
  rewrite Pos2Z.inj_add, Hax, Hay, Z.mul_add_distr_r.
  rewrite <- !Z.mul_assoc, <- !Z.pow_add_r by lia.
  replace (ex - Z.min ex ey + (Z.min ex ey + 1074)) with (ex + 1074) by lia.
  replace (ey - Z.min ex ey + (Z.min ex ey + 1074)) with (ey + 1074) by lia.
  exact Hval.
Qed.

(** *** Exact cases *)

Lemma shr_1_even a :
  0 <= a -> shr_1 (Build_shr_record (2 * a) false false) = Build_shr_record a false false.
Proof. destruct a as [ | p | p ]; try lia; reflexivity. Qed.

Lemma iter_shr_exact p : forall q,
  0 <= q ->
  iter_pos shr_1 p (Build_shr_record (q * 2 ^ Zpos p) false false) = Build_shr_record q false false.
Proof.
  induction p as [ p IH | p IH | ]; intros q Hq; cbn [iter_pos].
  - assert (Hp : 0 <= q * 2 ^ Zpos p) by (apply Z.mul_nonneg_nonneg; [ lia | apply Z.pow_nonneg; lia ]).
    replace (q * 2 ^ Zpos p~1) with (2 * (q * 2 ^ Zpos p * 2 ^ Zpos p)).
    + rewrite shr_1_even by (apply Z.mul_nonneg_nonneg; [ lia | apply Z.pow_nonneg; lia ]).
      rewrite IH by exact Hp. apply IH. exact Hq.
    + rewrite Pos2Z.inj_xI. replace (2 * Zpos p + 1) with (1 + Zpos p + Zpos p) by lia.
      rewrite !Z.pow_add_r by lia. ring.
  - assert (Hp : 0 <= q * 2 ^ Zpos p) by (apply Z.mul_nonneg_nonneg; [ lia | apply Z.pow_nonneg; lia ]).
    replace (q * 2 ^ Zpos p~0) with (q * 2 ^ Zpos p * 2 ^ Zpos p).
    + rewrite IH by exact Hp. apply IH. exact Hq.
    + replace (Zpos p~0) with (Zpos p + Zpos p) by lia.
      rewrite !Z.pow_add_r by lia. ring.
  - replace (q * 2 ^ 1) with (2 * q) by lia. apply shr_1_even. exact Hq.
Qed.

(** An exact mantissa that ends in [k] zero bits comes back unchanged. *)
Lemma bra_exact s m e k :
  bounded F64.prec F64.emax m e = true -> 0 <= k ->
  binary_round_aux F64.prec F64.emax s (Zpos m * 2 ^ k) (e - k) loc_Exact = S754_finite s m e.
Proof.
  intros Hb Hk. destruct (bounded_inv m e Hb) as [ Hc He ].
  unfold binary_round_aux, shr_fexp.
  rewrite digits_mul_pow2 by lia. simpl Zdigits2.
  replace (Zpos (digits2_pos m) + k + (e - k)) with (Zpos (digits2_pos m) + e) by lia.
  rewrite <- Hc. replace (e - (e - k)) with k by lia.
  assert (Hfirst : shr (shr_record_of_loc (Zpos m * 2 ^ k) loc_Exact) (e - k) k =
                   (Build_shr_record (Zpos m) false false, e)).
  { unfold shr. destruct k as [ | p | p ]; try lia.
    - rewrite Z.pow_0_r, Z.mul_1_r, Z.sub_0_r. reflexivity.
    - cbn [shr_record_of_loc]. rewrite iter_shr_exact by lia. f_equal. lia. }
  rewrite Hfirst. simpl shr_m. simpl loc_of_shr_record. simpl round_nearest_even.
  simpl Zdigits2. rewrite <- Hc, Z.sub_diag. cbn [shr shr_record_of_loc shr_m].
  apply Z.leb_le in He. change 971 with (F64.emax - F64.prec) in He. rewrite He.
  reflexivity.
Qed.

Lemma mul_one_l m e :
  bounded F64.prec F64.emax m e = true ->
  F64.mul F64.one (S754_finite false m e) = S754_finite false m e.
Proof.
  intros Hb. change F64.one with (S754_finite false 4503599627370496 (-52)).
  unfold F64.mul, SFmul. simpl xorb.
  rewrite Pos2Z.inj_mul.
  replace (Zpos 4503599627370496 * Zpos m) with (Zpos m * 2 ^ 52) by (change (2 ^ 52) with 4503599627370496; lia).
  replace (-52 + e) with (e - 52) by lia.
  apply bra_exact; [ exact Hb | lia ].
Qed.

Lemma div_eucl_eq a b : Z.div_eucl a b = (a / b, a mod b).
Proof. unfold Z.div, Z.modulo. destruct (Z.div_eucl a b). reflexivity. Qed.

Lemma div_self m e :
  F64.div (S754_finite false m e) (S754_finite false m e) = F64.one.
Proof.
  unfold F64.div, SFdiv, SFdiv_core_binary.
  replace (Zdigits2 (Zpos m) + e - (Zdigits2 (Zpos m) + e)) with 0 by lia.
  rewrite Z.sub_diag. simpl Z.min. simpl Z.sub.
  rewrite div_eucl_eq, Z.shiftl_mul_pow2 by lia.
  rewrite Z.mul_comm, Z.div_mul, Z.mod_mul by lia.
  assert (Hl : new_location (Zpos m) 0 = loc_Exact).
  { unfold new_location, new_location_even, new_location_odd.
    destruct (Z.even (Zpos m)); reflexivity. }
  rewrite Hl. reflexivity.
Qed.

End Rounding.

(** * Rounding is monotone *)

(** What the length of a resampled buffer needs of IEEE arithmetic: an
    exact value rounds to the double of its mantissa rounded half to even,
    so rounding is monotone in the value; integers below [2 ^ 53] are
    doubles; the quotient of two integers below [2 ^ 52] is within one unit
    in the last place of the exact quotient. *)

Section Monotone.

Local Notation "'fexp'" := (SpecFloat.fexp F64.prec F64.emax).
Local Notation "'digits'" := Zdigits2.

(** *** Rounding half to even on integers *)

Lemma round_half_even_bounds m k :
  m / 2 ^ k <= round_half_even m k <= m / 2 ^ k + 1.
Proof.
  unfold round_half_even. destruct (2 * (m mod 2 ^ k) ?= 2 ^ k); try lia.
  destruct (Z.even (m / 2 ^ k)); lia.
Qed.

Lemma round_half_even_mono m1 m2 k :
  0 <= k -> m1 <= m2 -> round_half_even m1 k <= round_half_even m2 k.
Proof.
  intros Hk Hm. assert (Hp : 0 < 2 ^ k) by (apply Z.pow_pos_nonneg; lia).
  assert (Hq : m1 / 2 ^ k <= m2 / 2 ^ k) by (apply Z.div_le_mono; lia).
  destruct (Z.eq_dec (m1 / 2 ^ k) (m2 / 2 ^ k)) as [ Heq | Hne ].
  - assert (Hr : m1 mod 2 ^ k <= m2 mod 2 ^ k).
    { rewrite !Z.mod_eq by lia. rewrite Heq. lia. }
    unfold round_half_even. rewrite Heq.
    destruct (Z.compare_spec (2 * (m1 mod 2 ^ k)) (2 ^ k));
      destruct (Z.compare_spec (2 * (m2 mod 2 ^ k)) (2 ^ k));
      destruct (Z.even (m2 / 2 ^ k)); lia.
  - pose proof (round_half_even_bounds m1 k). pose proof (round_half_even_bounds m2 k). lia.
Qed.

Lemma round_half_even_scale m k j :
  0 <= k -> 0 <= j -> round_half_even (m * 2 ^ j) (k + j) = round_half_even m k.
Proof.
  intros Hk Hj. unfold round_half_even.
  assert (Hpj : 0 < 2 ^ j) by (apply Z.pow_pos_nonneg; lia).
  assert (Hpk : 0 < 2 ^ k) by (apply Z.pow_pos_nonneg; lia).
  rewrite Z.pow_add_r by lia.
  rewrite Z.div_mul_cancel_r by lia.
  rewrite Z.mul_mod_distr_r by lia.
  destruct (Z.compare_spec (2 * (m mod 2 ^ k * 2 ^ j)) (2 ^ k * 2 ^ j));
    destruct (Z.compare_spec (2 * (m mod 2 ^ k)) (2 ^ k)); try reflexivity; nia.
Qed.

Lemma round_half_even_0 m : round_half_even m 0 = m.
Proof. unfold round_half_even. rewrite Z.pow_0_r, Z.div_1_r, Z.mod_1_r. reflexivity. Qed.

Lemma round_half_even_exact a k : 0 <= k -> round_half_even (a * 2 ^ k) k = a.
Proof.
  intros Hk. rewrite <- (Z.add_0_l k) at 2.
  rewrite round_half_even_scale by lia. apply round_half_even_0.
Qed.

(** *** The bits shifted out of an exact mantissa *)

Lemma shr_1_spec a r s :
  0 <= a -> shr_1 (Build_shr_record a r s) = Build_shr_record (a / 2) (Z.odd a) (r || s).
Proof.
  intros Ha. rewrite <- Z.div2_div.
  destruct a as [ | [ p | p | ] | p ]; try lia; reflexivity.
Qed.

Lemma odd_mod2 a : Z.odd a = negb (a mod 2 =? 0).
Proof.
  rewrite Zmod_odd. destruct (Z.odd a); reflexivity.
Qed.

Lemma shr_1_shifted m j : 0 <= m -> 0 <= j -> shr_1 (shifted m j) = shifted m (j + 1).
Proof.
  intros Hm Hj. unfold shifted.
  destruct (Z.eqb_spec j 0) as [ -> | Hne ].
  - simpl Z.add. simpl Z.eqb. cbv iota. rewrite shr_1_spec by exact Hm.
    simpl Z.sub. rewrite Z.pow_0_r, Z.pow_1_r, Z.div_1_r, Z.mod_1_r. reflexivity.
  - destruct (Z.eqb_spec (j + 1) 0) as [ Hz | _ ]; [ lia | ].
    assert (Hp : 0 < 2 ^ (j - 1)) by (apply Z.pow_pos_nonneg; lia).
    assert (Hpj : 0 < 2 ^ j) by (apply Z.pow_pos_nonneg; lia).
    rewrite shr_1_spec by (apply Z.div_pos; lia).
    replace (j + 1 - 1) with j by lia.
    rewrite Z.div_div by lia.
    replace (2 ^ j * 2) with (2 ^ (j + 1)) by (rewrite Z.pow_add_r by lia; reflexivity).
    f_equal.
    assert (Hsplit : m mod 2 ^ j = m mod 2 ^ (j - 1) + 2 ^ (j - 1) * ((m / 2 ^ (j - 1)) mod 2)).
    { replace (2 ^ j) with (2 ^ (j - 1) * 2).
      - apply Z.rem_mul_r; lia.
      - rewrite <- (Z.pow_1_r 2) at 2. rewrite <- Z.pow_add_r by lia. f_equal. lia. }
    rewrite odd_mod2.
    pose proof (Z.mod_pos_bound m (2 ^ (j - 1)) Hp) as Hlo.
    pose proof (Z.mod_pos_bound (m / 2 ^ (j - 1)) 2 ltac:(lia)) as Hb.
    destruct (Z.eqb_spec ((m / 2 ^ (j - 1)) mod 2) 0) as [ Hb0 | Hb1 ];
      destruct (Z.eqb_spec (m mod 2 ^ (j - 1)) 0) as [ Hl0 | Hl1 ];
      destruct (Z.eqb_spec (m mod 2 ^ j) 0) as [ Hr0 | Hr1 ];
      try reflexivity; exfalso; nia.
Qed.

Lemma iter_shr_shifted m p : forall j,
  0 <= m -> 0 <= j -> iter_pos shr_1 p (shifted m j) = shifted m (j + Zpos p).
Proof.
  induction p as [ p IH | p IH | ]; intros j Hm Hj; cbn [iter_pos].
  - rewrite shr_1_shifted, IH, IH by lia. f_equal. lia.
  - rewrite IH, IH by lia. f_equal. lia.
  - apply shr_1_shifted; assumption.
Qed.

(** Rounding to nearest even after the shift is rounding half to even of
    the quotient. *)
Lemma round_shifted m k :
  0 <= m -> 0 <= k ->
  round_nearest_even (shr_m (shifted m k)) (loc_of_shr_record (shifted m k)) =
  round_half_even m k.
Proof.
  intros Hm Hk. unfold shifted.
  destruct (Z.eqb_spec k 0) as [ -> | Hne ].
  - rewrite round_half_even_0. reflexivity.
  - assert (Hp : 0 < 2 ^ (k - 1)) by (apply Z.pow_pos_nonneg; lia).
    assert (Hpow : 2 ^ k = 2 ^ (k - 1) * 2).
    { rewrite <- (Z.pow_1_r 2) at 3. rewrite <- Z.pow_add_r by lia. f_equal. lia. }
    assert (Hsplit : m mod 2 ^ k = m mod 2 ^ (k - 1) + 2 ^ (k - 1) * ((m / 2 ^ (k - 1)) mod 2)).
    { rewrite Hpow. apply Z.rem_mul_r; lia. }
    pose proof (Z.mod_pos_bound m (2 ^ (k - 1)) Hp) as Hlo.
    pose proof (Z.mod_pos_bound (m / 2 ^ (k - 1)) 2 ltac:(lia)) as Hb.
    unfold round_half_even. cbn [shr_m loc_of_shr_record shr_r shr_s].
    rewrite odd_mod2.
    destruct (Z.eqb_spec ((m / 2 ^ (k - 1)) mod 2) 0) as [ Hb0 | Hb1 ];
      destruct (Z.eqb_spec (m mod 2 ^ (k - 1)) 0) as [ Hl0 | Hl1 ];
      destruct (Z.compare_spec (2 * (m mod 2 ^ k)) (2 ^ k)) as [ Hc | Hc | Hc ];
      cbn [negb round_nearest_even]; try reflexivity; exfalso; nia.
Qed.

Lemma shr_fexp_exact m e :
  0 <= m -> e <= fexp (digits m + e) ->
  shr_fexp F64.prec F64.emax m e loc_Exact =
  (shifted m (fexp (digits m + e) - e), fexp (digits m + e)).
Proof.
  intros Hm He. unfold shr_fexp, shr.
  change (shr_record_of_loc m loc_Exact) with (shifted m 0).
  destruct (fexp (digits m + e) - e) as [ | k | k ] eqn:Hk; try lia.
  - f_equal. lia.
  - rewrite iter_shr_shifted by lia. f_equal. lia.
Qed.

(** *** The double of a rounded mantissa *)

(** The mantissa shifted to the exponent its size asks for is canonical. *)
Lemma shifted_canonical m e :
  0 < m -> e <= fexp (digits m + e) ->
  -1074 <= fexp (digits m + e) /\
  0 <= m / 2 ^ (fexp (digits m + e) - e) < 2 ^ 53 /\
  (-1074 < fexp (digits m + e) -> 2 ^ 52 <= m / 2 ^ (fexp (digits m + e) - e)).
Proof.
  intros Hm He. set (E := fexp (digits m + e)) in *.
  assert (Hpk : 0 < 2 ^ (E - e)) by (apply Z.pow_pos_nonneg; lia).
  assert (HE : E = Z.max (digits m + e - 53) (-1074)) by (unfold E; apply fexp_eq).
  pose proof (digits_bounds m Hm) as [ Hlo Hhi ].
  pose proof (digits_pos m Hm) as Hd.
  split; [ lia | ]. split; [ split | ].
  - apply Z.div_pos; lia.
  - apply Z.div_lt_upper_bound; [ exact Hpk | ].
    rewrite <- Z.pow_add_r by lia.
    assert (2 ^ digits m <= 2 ^ (E - e + 53)) by (apply Z.pow_le_mono_r; lia). lia.
  - intros Hn. apply Z.div_le_lower_bound; [ exact Hpk | ].
    rewrite <- Z.pow_add_r by lia.
    replace (E - e + 52) with (digits m - 1) by lia. exact Hlo.
Qed.

Lemma bra_normal_form s m e :
  0 < m -> e <= fexp (digits m + e) ->
  binary_round_aux F64.prec F64.emax s m e loc_Exact =
  normal_form s (round_half_even m (fexp (digits m + e) - e)) (fexp (digits m + e)).
Proof.
  intros Hm He.
  destruct (shifted_canonical m e Hm He) as (HE & Hq & Hnormal).
  pose proof (round_half_even_bounds m (fexp (digits m + e) - e)) as HM.
  unfold binary_round_aux. rewrite shr_fexp_exact by lia.
  rewrite round_shifted by lia.
  set (E := fexp (digits m + e)) in *. set (q := m / 2 ^ (E - e)) in *.
  set (M := round_half_even m (E - e)) in *.
  assert (HdM : M = 0 \/ (0 < M /\ fexp (digits M + E) = E /\ M < 2 ^ 53) \/ M = 2 ^ 53).
  { destruct (Z.eq_dec M 0) as [ Hz | Hnz ]; [ left; exact Hz | right ].
    destruct (Z.eq_dec M (2 ^ 53)) as [ Hc | Hnc ]; [ right; exact Hc | left ].
    assert (HMpos : 0 < M) by lia. split; [ exact HMpos | ]. split; [ | lia ].
    assert (digits M <= 53) by (apply digits_le; lia).
    rewrite fexp_eq. destruct (Z.eq_dec E (-1074)) as [ Hmin | Hmin ]; [ lia | ].
    assert (53 <= digits M) by (apply (digits_ge M 52); lia). lia. }
  destruct HdM as [ Hz | [ (HMpos & Hf & Hlt) | Hc ] ].
  - assert (Hmin : E = -1074) by (destruct (Z.eq_dec E (-1074)); lia).
    rewrite Hz, Hmin. reflexivity.
  - pose proof (shr_fexp_spec M E loc_Exact ltac:(lia) ltac:(lia)) as [ Hm2 He2 ].
    destruct (shr_fexp F64.prec F64.emax M E loc_Exact) as [ mrs e2 ].
    cbn [fst snd] in Hm2, He2. subst e2. rewrite Hm2, Hf, Z.sub_diag, Z.pow_0_r, Z.div_1_r.
    unfold normal_form. destruct M as [ | p | p ]; try lia.
    destruct (Z.eqb_spec (Zpos p) (2 ^ 53)) as [ Heq | _ ]; [ lia | ].
    reflexivity.
  - assert (Hf : fexp (digits M + E) = E + 1).
    { rewrite Hc. change (digits (2 ^ 53)) with 54. rewrite fexp_eq. lia. }
    pose proof (shr_fexp_spec M E loc_Exact ltac:(lia) ltac:(lia)) as [ Hm2 He2 ].
    destruct (shr_fexp F64.prec F64.emax M E loc_Exact) as [ mrs e2 ].
    cbn [fst snd] in Hm2, He2. subst e2. rewrite Hm2, Hf.
    replace (E + 1 - E) with 1 by lia. rewrite Hc. reflexivity.
Qed.

Lemma normal_form_mono M1 E1 M2 E2 :
  0 <= M1 <= 2 ^ 53 -> 0 <= M2 <= 2 ^ 53 -> -1074 <= E1 ->
  (-1074 < E2 -> 2 ^ 52 <= M2) ->
  E1 < E2 \/ (E1 = E2 /\ M1 <= M2) ->
  F64.leb (normal_form false M1 E1) (normal_form false M2 E2) = true.
Proof.
  intros H1 H2 HE1 Hn Hle. unfold normal_form.
  destruct M1 as [ | p1 | p1 ]; try lia; destruct M2 as [ | p2 | p2 ]; try lia.
  - reflexivity.
  - destruct (Zpos p2 =? 2 ^ 53); [ destruct (E2 + 1 <=? 971) | destruct (E2 <=? 971) ];
      reflexivity.
  - destruct (Z.eqb_spec (Zpos p1) (2 ^ 53)) as [ Hc1 | Hc1 ];
      destruct (Z.eqb_spec (Zpos p2) (2 ^ 53)) as [ Hc2 | Hc2 ];
      repeat match goal with
             | |- context [ ?a <=? ?b ] => destruct (Z.leb_spec a b)
             end;
      try reflexivity; try (exfalso; lia);
      try (apply leb_finite; change (Zpos (2 ^ 52)) with (2 ^ 52); lia).
Qed.

(** Rounding an exact value to the nearest double is monotone in the value. *)
Lemma bra_mono m1 e1 m2 e2 u :
  0 < m1 -> e1 <= fexp (digits m1 + e1) ->
  0 < m2 -> e2 <= fexp (digits m2 + e2) ->
  u <= e1 -> u <= e2 ->
  m1 * 2 ^ (e1 - u) <= m2 * 2 ^ (e2 - u) ->
  F64.leb (binary_round_aux F64.prec F64.emax false m1 e1 loc_Exact)
          (binary_round_aux F64.prec F64.emax false m2 e2 loc_Exact) = true.
Proof.
  intros Hm1 He1 Hm2 He2 Hu1 Hu2 Hval.
  rewrite !bra_normal_form by assumption.
  destruct (shifted_canonical m1 e1 Hm1 He1) as (HE1 & Hq1 & _).
  destruct (shifted_canonical m2 e2 Hm2 He2) as (HE2 & Hq2 & Hn2).
  pose proof (round_half_even_bounds m1 (fexp (digits m1 + e1) - e1)) as HM1.
  pose proof (round_half_even_bounds m2 (fexp (digits m2 + e2) - e2)) as HM2.
  assert (Hd : digits m1 + e1 <= digits m2 + e2).
  { assert (H : digits (m1 * 2 ^ (e1 - u)) <= digits (m2 * 2 ^ (e2 - u))).
    { apply digits_mono. split; [ | exact Hval ].
      apply Z.mul_nonneg_nonneg; [ lia | apply Z.pow_nonneg; lia ]. }
    rewrite !digits_mul_pow2 in H by lia. lia. }
  pose proof (fexp_mono _ _ Hd) as HE.
  set (E1 := fexp (digits m1 + e1)) in *. set (E2 := fexp (digits m2 + e2)) in *.
  apply normal_form_mono; try lia.
  destruct (Z.eq_dec E1 E2) as [ Heq | Hne ]; [ right | left; lia ].
  split; [ exact Heq | ].
  rewrite <- (round_half_even_scale m1 (E1 - e1) (e1 - u)) by lia.
  rewrite <- (round_half_even_scale m2 (E2 - e2) (e2 - u)) by lia.
  replace (E1 - e1 + (e1 - u)) with (E1 - u) by lia.
  replace (E2 - e2 + (e2 - u)) with (E1 - u) by lia.
  apply round_half_even_mono; lia.
Qed.

(** *** Integers as doubles, quotients of integers *)

(** An integer below [2 ^ 53] is a double. *)
Lemma of_Z_exact t :
  0 < t < 2 ^ 53 ->
  exists mt et,
    F64.of_Z t = S754_finite false mt et /\
    bounded F64.prec F64.emax mt et = true /\
    Zpos mt * 2 ^ (et + 1074) = t * 2 ^ 1074 /\
    2 ^ 52 <= Zpos mt /\ -52 <= et <= 0.
Proof.
  intros Ht. destruct t as [ | p | p ]; try lia.
  pose proof (digits_bounds (Zpos p) ltac:(lia)) as [ Hlo Hhi ].
  pose proof (digits_pos (Zpos p) ltac:(lia)) as Hd1.
  assert (Hd : digits (Zpos p) <= 53) by (apply digits_le; lia).
  set (d := digits (Zpos p)) in *.
  unfold F64.of_Z, binary_normalize, binary_round.
  replace (Zpos (digits2_pos p) + 0) with d by (unfold d; simpl; lia).
  assert (He1 : fexp d = d - 53) by (rewrite fexp_eq; lia).
  pose proof (shl_align_spec p 0 (fexp d)) as [ Hez Hmz ].
  destruct (shl_align p 0 (fexp d)) as [ mz ez ]. cbn [fst snd] in Hez, Hmz.
  rewrite He1 in Hez, Hmz. replace (Z.min 0 (d - 53)) with (d - 53) in * by lia. subst ez.
  replace (0 - (d - 53)) with (53 - d) in Hmz by lia.
  assert (Hdz : digits (Zpos mz) = 53) by (rewrite Hmz, digits_mul_pow2 by lia; fold d; lia).
  assert (Hb : bounded F64.prec F64.emax mz (d - 53) = true).
  { unfold bounded, canonical_mantissa. simpl Zdigits2 in Hdz. rewrite Hdz, fexp_eq.
    apply andb_true_intro. split; [ apply Z.eqb_eq; lia | apply Z.leb_le ].
    change (d - 53 <= 971). lia. }
  exists mz, (d - 53). split; [ | split; [ exact Hb | split; [ | split; [ | lia ] ] ] ].
  - pose proof (bra_exact false mz (d - 53) 0 Hb ltac:(lia)) as H.
    rewrite Z.pow_0_r, Z.mul_1_r, Z.sub_0_r in H. exact H.
  - rewrite Hmz, <- Z.mul_assoc, <- Z.pow_add_r by lia. do 2 f_equal. lia.
  - pose proof (digits_bounds (Zpos mz) ltac:(lia)) as [ Hlz _ ]. rewrite Hdz in Hlz. exact Hlz.
Qed.

(** What the division of two integers hands to the rounding. *)
Lemma div_core_ints n s :
  0 < n -> 0 < s ->
  exists l,
    SFdiv_core_binary F64.prec F64.emax n 0 s 0 =
    (n * 2 ^ (- Z.min (fexp (digits n - digits s)) 0) / s,
     Z.min (fexp (digits n - digits s)) 0, l).
Proof.
  intros Hn Hs. unfold SFdiv_core_binary.
  replace (digits n + 0 - (digits s + 0)) with (digits n - digits s) by lia.
  replace (0 - 0) with 0 by lia.
  set (e' := Z.min (fexp (digits n - digits s)) 0).
  replace (0 - e') with (- e') by lia.
  assert (Hsft : 0 <= - e') by (unfold e'; lia).
  set (m' := match - e' with Z0 => n | Zpos _ => Z.shiftl n (- e') | Zneg _ => 0 end).
  assert (Hm' : m' = n * 2 ^ (- e')).
  { unfold m'. destruct (- e') as [ | p | p ] eqn:Hp; try lia.
    rewrite Z.shiftl_mul_pow2 by lia. reflexivity. }
  rewrite div_eucl_eq, Hm'. eexists. reflexivity.
Qed.

(** The quotient of two integers below [2 ^ 52] is a normal double [md * 2
    ^ ed]; in units of [2 ^ -1074] it lies between [q * W] and [(q + 1) *
    W], as [n / s] does, for a mantissa [q] of 53 bits. *)
Lemma int_true_div_bounds n s :
  0 < n < 2 ^ 52 -> 0 < s < 2 ^ 52 ->
  exists md ed q W,
    int_true_div n s = Ok (S754_finite false md ed) /\
    bounded F64.prec F64.emax md ed = true /\
    2 ^ 52 <= Zpos md /\ ed <= 0 /\
    0 < W /\ 2 ^ 52 <= q /\
    q * W <= Zpos md * 2 ^ (ed + 1074) <= (q + 1) * W /\
    q * s * W <= n * 2 ^ 1074 < (q + 1) * s * W.
Proof.
  intros Hn Hs. unfold int_true_div.
  destruct (Z.eqb_spec s 0) as [ Hz | _ ]; [ lia | ].
  destruct (Z.eqb_spec n 0) as [ Hz | _ ]; [ lia | ].
  rewrite !Z.abs_eq by lia.
  destruct (Z.ltb_spec n 0) as [ Hneg | _ ]; [ lia | ].
  destruct (Z.ltb_spec s 0) as [ Hneg | _ ]; [ lia | ].
  cbn [xorb].
  destruct (div_core_ints n s ltac:(lia) ltac:(lia)) as [ l Hcore ].
  pose proof (div_core_pre n 0 s 0 ltac:(lia) ltac:(lia)) as [ HQ0 HP ].
  rewrite Hcore in HQ0, HP |- *. cbn [fst snd] in HQ0, HP.
  pose proof (digits_bounds n ltac:(lia)) as [ Hnlo Hnhi ].
  pose proof (digits_bounds s ltac:(lia)) as [ Hslo Hshi ].
  pose proof (digits_pos n ltac:(lia)) as Hdn1.
  pose proof (digits_pos s ltac:(lia)) as Hds1.
  assert (Hdn : digits n <= 52) by (apply digits_le; lia).
  assert (Hds : digits s <= 52) by (apply digits_le; lia).
  assert (He' : Z.min (fexp (digits n - digits s)) 0 = digits n - digits s - 53).
  { rewrite fexp_eq. lia. }
  rewrite He' in *.
  set (sft := - (digits n - digits s - 53)) in *.
  replace (digits n - digits s - 53) with (- sft) in * by (unfold sft; lia).
  assert (Hsft : 2 <= sft <= 104) by (unfold sft; lia).
  assert (Hp : 0 < 2 ^ sft) by (apply Z.pow_pos_nonneg; lia).
  set (Q := n * 2 ^ sft / s) in *.
  (* the quotient has 53 or 54 bits *)
  assert (HQlo : 2 ^ 52 <= Q).
  { apply Z.div_le_lower_bound; [ lia | ].
    assert (H1 : s * 2 ^ 52 <= 2 ^ digits s * 2 ^ 52) by nia.
    rewrite <- Z.pow_add_r in H1 by lia.
    assert (H2 : 2 ^ (digits n - 1) * 2 ^ sft <= n * 2 ^ sft) by nia.
    rewrite <- Z.pow_add_r in H2 by lia.
    replace (digits n - 1 + sft) with (digits s + 52) in H2 by (unfold sft; lia). lia. }
  assert (HQhi : Q < 2 ^ 54).
  { apply Z.div_lt_upper_bound; [ lia | ].
    assert (H1 : 2 ^ (digits s - 1) * 2 ^ 54 <= s * 2 ^ 54) by nia.
    rewrite <- Z.pow_add_r in H1 by lia.
    assert (H2 : n * 2 ^ sft < 2 ^ digits n * 2 ^ sft) by nia.
    rewrite <- Z.pow_add_r in H2 by lia.
    replace (digits n + sft) with (digits s - 1 + 54) in H2 by (unfold sft; lia). lia. }
  assert (HdQ : 53 <= digits Q <= 54).
  { split; [ apply (digits_ge Q 52); lia | apply digits_le; lia ]. }
  assert (HE : fexp (digits Q + - sft) = digits Q - 53 - sft) by (rewrite fexp_eq; lia).
  pose proof (bra_rounded false Q (- sft) l HQ0 HP) as Hr.
  destruct (shifted_canonical Q (- sft) ltac:(lia) HP) as (_ & Hq & Hnormal).
  rewrite HE in Hr, Hq, Hnormal.
  replace (digits Q - 53 - sft - - sft) with (digits Q - 53) in * by lia.
  set (k := digits Q - 53) in *. set (E := k - sft) in *.
  assert (Hk : 0 <= k <= 1) by (unfold k; lia).
  assert (HEk : E = k - sft) by reflexivity.
  set (q := Q / 2 ^ k) in *.
  assert (Hpk : 0 < 2 ^ k) by (apply Z.pow_pos_nonneg; lia).
  specialize (Hnormal ltac:(lia)).
  assert (HW : 0 < 2 ^ (E + 1074)) by (apply Z.pow_pos_nonneg; lia).
  assert (Hunits : 2 ^ (E + 1074) * 2 ^ sft = 2 ^ k * 2 ^ 1074).
  { rewrite <- !Z.pow_add_r by lia. f_equal. lia. }
  assert (HQs : Q * s <= n * 2 ^ sft < (Q + 1) * s).
  { unfold Q. pose proof (Z.div_mod (n * 2 ^ sft) s ltac:(lia)).
    pose proof (Z.mod_pos_bound (n * 2 ^ sft) s ltac:(lia)). nia. }
  assert (Hqk : q * 2 ^ k <= Q < (q + 1) * 2 ^ k).
  { unfold q. pose proof (Z.div_mod Q (2 ^ k) ltac:(lia)).
    pose proof (Z.mod_pos_bound Q (2 ^ k) ltac:(lia)). nia. }
  assert (Hfloor : q * s * 2 ^ (E + 1074) <= n * 2 ^ 1074 < (q + 1) * s * 2 ^ (E + 1074)).
  { assert (H1074 : 0 < 2 ^ 1074) by (apply Z.pow_pos_nonneg; lia).
    split.
    - apply (Z.mul_le_mono_pos_r _ _ (2 ^ sft)); [ exact Hp | ].
      replace (q * s * 2 ^ (E + 1074) * 2 ^ sft) with (q * 2 ^ k * s * 2 ^ 1074)
        by (rewrite <- !Z.mul_assoc, Hunits; ring).
      replace (n * 2 ^ 1074 * 2 ^ sft) with (n * 2 ^ sft * 2 ^ 1074) by ring.
      apply Z.mul_le_mono_nonneg_r; [ lia | ]. nia.
    - apply (Z.mul_lt_mono_pos_r (2 ^ sft)); [ exact Hp | ].
      replace ((q + 1) * s * 2 ^ (E + 1074) * 2 ^ sft) with ((q + 1) * 2 ^ k * s * 2 ^ 1074)
        by (rewrite <- !Z.mul_assoc, Hunits; ring).
      replace (n * 2 ^ 1074 * 2 ^ sft) with (n * 2 ^ sft * 2 ^ 1074) by ring.
      apply Z.mul_lt_mono_pos_r; [ lia | ]. nia. }
  destruct Hr as [ Hz | m' Hm' Hb | Hcarry Hlo Hhi | _ Hover ]; try lia.
  - exists m', E, q, (2 ^ (E + 1074)). cbn [is_infinity].
    split; [ reflexivity | ]. split; [ exact Hb | ].
    split; [ lia | ]. split; [ lia | ]. split; [ exact HW | ].
    split; [ exact Hnormal | ]. split; [ | exact Hfloor ].
    nia.
  - exists (2 ^ 52)%positive, (E + 1), q, (2 ^ (E + 1074)). cbn [is_infinity].
    split; [ reflexivity | ]. split.
    { unfold bounded, canonical_mantissa.
      change (Zpos (digits2_pos (2 ^ 52))) with 53. rewrite fexp_eq.
      apply andb_true_intro. split; [ apply Z.eqb_eq; lia | apply Z.leb_le ].
      change (E + 1 <= 971). lia. }
    split; [ reflexivity | ]. split; [ lia | ]. split; [ exact HW | ].
    split; [ exact Hnormal | ]. split; [ | exact Hfloor ].
    replace (E + 1 + 1074) with (1 + (E + 1074)) by lia.
    rewrite (Z.pow_add_r 2 1 (E + 1074)) by lia.
    change (Zpos (2 ^ 52)) with (2 ^ 52). change (2 ^ 1) with 2.
    replace (2 ^ 52 * (2 * 2 ^ (E + 1074))) with (2 ^ 53 * 2 ^ (E + 1074)) by ring.
    rewrite <- Hcarry. lia.
Qed.

(** *** Rounding a double to an integer *)

Lemma py_round_units m e :
  -1074 <= e ->
  py_round (S754_finite false m e) = Ok (round_half_even (Zpos m * 2 ^ (e + 1074)) 1074).
Proof.
  intros He. unfold py_round. f_equal.
  destruct (Z.leb_spec 0 e) as [ Hpos | Hneg ].
  - rewrite Z.pow_add_r, Z.mul_assoc by lia. rewrite round_half_even_exact by lia. reflexivity.
  - rewrite <- (round_half_even_scale (Zpos m) (- e) (e + 1074)) by lia.
    f_equal. lia.
Qed.

Lemma round_half_even_nonneg m k : 0 <= m -> 0 <= k -> 0 <= round_half_even m k.
Proof.
  intros Hm Hk. pose proof (round_half_even_bounds m k) as [ Hlo _ ].
  assert (0 <= m / 2 ^ k) by (apply Z.div_pos; [ lia | apply Z.pow_pos_nonneg; lia ]). lia.
Qed.

Lemma rounded_shape q e1 x :
  rounded false q e1 x ->
  x = S754_zero false \/ x = S754_infinity false \/
  exists m e, x = S754_finite false m e /\ bounded F64.prec F64.emax m e = true.
Proof.
  intros Hr. pose proof (rounded_valid _ _ _ _ Hr) as Hv.
  destruct Hr as [ _ | m _ Hb | _ _ _ | _ _ ].
  - left. reflexivity.
  - right. right. exists m, e1. split; [ reflexivity | exact Hb ].
  - right. right. exists (2 ^ 52)%positive, (e1 + 1). split; [ reflexivity | exact Hv ].
  - right. left. reflexivity.
Qed.

(** [round] is monotone on the doubles that are not negative. *)
Lemma py_round_mono q1 E1 x q2 E2 y :
  rounded false q1 E1 x -> rounded false q2 E2 y -> is_infinity y = false ->
  F64.leb x y = true ->
  exists r1 r2, py_round x = Ok r1 /\ py_round y = Ok r2 /\ 0 <= r1 <= r2.
Proof.
  intros Hx Hy Hfin Hle.
  destruct (rounded_shape _ _ _ Hx) as [ -> | [ -> | (mx & ex & -> & Hbx) ] ];
    destruct (rounded_shape _ _ _ Hy) as [ -> | [ -> | (my & ey & -> & Hby) ] ];
    try discriminate.
  - exists 0, 0. repeat split; lia.
  - destruct (bounded_digits my ey Hby) as (Hey & _ & _).
    rewrite py_round_units by lia. eexists 0, _. repeat split; try lia.
    apply round_half_even_nonneg; [ | lia ].
    apply Z.mul_nonneg_nonneg; [ lia | apply Z.pow_nonneg; lia ].
  - destruct (bounded_digits mx ex Hbx) as (Hex & _ & _).
    destruct (bounded_digits my ey Hby) as (Hey & _ & _).
    pose proof (leb_value mx ex my ey Hbx Hby Hle) as Hval.
    rewrite !py_round_units by lia. eexists _, _. repeat split.
    + apply round_half_even_nonneg; [ | lia ].
      apply Z.mul_nonneg_nonneg; [ lia | apply Z.pow_nonneg; lia ].
    + apply round_half_even_mono; lia.
Qed.

(** Rounding an exact value to a double and the double to an integer is
    monotone in the value. *)
Lemma round_exact_mono m1 e1 m2 e2 u :
  0 < m1 -> e1 <= fexp (digits m1 + e1) ->
  0 < m2 -> e2 <= fexp (digits m2 + e2) ->
  fexp (digits m2 + e2) + 1 <= 971 ->
  u <= e1 -> u <= e2 ->
  m1 * 2 ^ (e1 - u) <= m2 * 2 ^ (e2 - u) ->
  exists r1 r2,
    py_round (binary_round_aux F64.prec F64.emax false m1 e1 loc_Exact) = Ok r1 /\
    py_round (binary_round_aux F64.prec F64.emax false m2 e2 loc_Exact) = Ok r2 /\
    0 <= r1 <= r2.
Proof.
  intros Hm1 He1 Hm2 He2 Hfin Hu1 Hu2 Hval.
  pose proof (bra_rounded false m1 e1 loc_Exact ltac:(lia) He1) as Hr1.
  pose proof (bra_rounded false m2 e2 loc_Exact ltac:(lia) He2) as Hr2.
  apply (py_round_mono _ _ _ _ _ _ Hr1 Hr2).
  - destruct Hr2 as [ _ | m _ _ | _ _ _ | _ Hover ]; try reflexivity. lia.
  - apply (bra_mono m1 e1 m2 e2 u); assumption.
Qed.

(** *** The length of a resampled buffer *)


(** The product of a normal double below 2 and an integer below [2 ^ 53], as
    an exact value to round. *)
Lemma mul_of_int md ed t :
  bounded F64.prec F64.emax md ed = true -> 2 ^ 52 <= Zpos md -> ed <= 0 ->
  0 < t < 2 ^ 53 ->
  exists T m e,
    float_of_int t = Ok T /\
    F64.mul (S754_finite false md ed) T = binary_round_aux F64.prec F64.emax false m e loc_Exact /\
    0 < m /\ e <= fexp (digits m + e) /\ fexp (digits m + e) + 1 <= 971 /\
    -2148 <= e /\ m * 2 ^ (e - -2148) = Zpos md * 2 ^ (ed + 1074) * t * 2 ^ 1074.
Proof.
  intros Hb Hmd Hed Ht.
  destruct (of_Z_exact t Ht) as (mt & et & HT & Hbt & Hval & Hmt & Het).
  destruct (bounded_digits md ed Hb) as (Hed' & Hmd' & _).
  destruct (bounded_digits mt et Hbt) as (_ & Hmt' & _).
  exists (S754_finite false mt et), (Zpos (md * mt)), (ed + et).
  assert (Hlo : 2 ^ 104 <= Zpos (md * mt)).
  { rewrite Pos2Z.inj_mul. change (2 ^ 104) with (2 ^ 52 * 2 ^ 52). nia. }
  assert (Hhi : Zpos (md * mt) < 2 ^ 106).
  { rewrite Pos2Z.inj_mul. change (2 ^ 106) with (2 ^ 53 * 2 ^ 53). nia. }
  assert (Hd : 105 <= digits (Zpos (md * mt)) <= 106).
  { split; [ apply (digits_ge _ 104); lia | apply digits_le; lia ]. }
  split; [ unfold float_of_int; rewrite HT; reflexivity | ].
  split; [ reflexivity | ]. split; [ lia | ].
  rewrite fexp_eq. split; [ lia | ]. split; [ lia | ]. split; [ lia | ].
  replace (ed + et - -2148) with ((ed + 1074) + (et + 1074)) by lia.
  rewrite Z.pow_add_r, Pos2Z.inj_mul by lia.
  replace (Zpos md * Zpos mt * (2 ^ (ed + 1074) * 2 ^ (et + 1074)))
    with (Zpos md * 2 ^ (ed + 1074) * (Zpos mt * 2 ^ (et + 1074))) by ring.
  rewrite Hval. ring.
Qed.

Lemma int_max_spec a b : int_max a b = Z.max a b.
Proof. unfold int_max. destruct (Z.ltb_spec a b); lia. Qed.




End Monotone.

(** * Confidence *)

Section Confidence.
Context {rt : Runtime}.

Lemma ltb_leb x y : F64.ltb x y = true -> F64.leb x y = true.
Proof. unfold F64.ltb, F64.leb, SFltb, SFleb. destruct (SFcompare x y) as [ [ | | ] | ]; auto. Qed.

(** [clamp(v, 0.0, 1.0)] lies in [0, 1] whatever [v] is, a NaN included. *)
Lemma clamp_range v :
  F64.leb F64.zero (clamp v F64.zero F64.one) = true /\
  F64.leb (clamp v F64.zero F64.one) F64.one = true.
Proof.
  unfold clamp, py_min, py_max.
  destruct (F64.ltb v F64.one) eqn:H1.
  - destruct (F64.ltb F64.zero v) eqn:H0.
    + split; apply ltb_leb; assumption.
    + split; reflexivity.
  - split; reflexivity.
Qed.

Lemma at_least_py_max mc ec x :
  bounded F64.prec F64.emax mc ec = true ->
  F64.valid x = true ->
  at_least (S754_finite false mc ec) (py_max (S754_finite false mc ec) x).
Proof.
  intros Hc Hx. unfold py_max. destruct (F64.ltb _ x) eqn:Hlt.
  - split; [ apply ltb_leb; exact Hlt | exact Hx ].
  - split; [ apply leb_finite; right; split; lia | exact Hc ].
Qed.

Lemma add_at_least mc ec m1 e1 m2 e2 x y :
  bounded F64.prec F64.emax mc ec = true ->
  bounded F64.prec F64.emax m1 e1 = true ->
  bounded F64.prec F64.emax m2 e2 = true ->
  Zpos mc * 2 ^ (ec + 1074) <= Zpos m1 * 2 ^ (e1 + 1074) + Zpos m2 * 2 ^ (e2 + 1074) ->
  at_least (S754_finite false m1 e1) x ->
  at_least (S754_finite false m2 e2) y ->
  at_least (S754_finite false mc ec) (F64.add x y).
Proof.
  intros Hc H1 H2 Hval [ Hx Hvx ] [ Hy Hvy ].
  split; [ | apply add_valid; assumption ].
  destruct (leb_positive _ _ _ Hx) as [ -> | (mx & ex & ->) ];
    destruct (leb_positive _ _ _ Hy) as [ -> | (my & ey & ->) ]; try reflexivity.
  apply add_ge; try assumption.
  pose proof (leb_value _ _ _ _ H1 Hvx Hx). pose proof (leb_value _ _ _ _ H2 Hvy Hy). lia.
Qed.

Lemma f_0_2_eq : f_0_2 = S754_finite false 7205759403792794 (-55).
Proof. reflexivity. Qed.

Lemma f_0_4_eq : f_0_4 = S754_finite false 7205759403792794 (-54).
Proof. reflexivity. Qed.

Lemma field_or_valid d key default :
  float_field d key -> F64.valid default = true -> F64.valid (field_or d key default) = true.
Proof.
  unfold float_field, field_or. intros Hf Hd.
  destruct (dict_get d key) as [ [ | | | f | | | ] | ]; try contradiction; assumption.
Qed.

Lemma py_float_field d key default :
  float_field d key ->
  py_float (dict_get_default d key (PyFloat default)) = Ok (field_or d key default).
Proof.
  unfold float_field, field_or, dict_get_default. intros Hf.
  destruct (dict_get d key) as [ [ | | | f | | | ] | ]; try contradiction; reflexivity.
Qed.

(** Each weight is at least [0.4]. *)
Lemma weight_at_least segment :
  numeric_segment segment -> at_least f_0_4 (weight_of segment).
Proof.
  destruct segment as [ | | | | | | d ]; try contradiction.
  intros (Hs & He & _). unfold weight_of, segment_weight.
  rewrite f_0_4_eq, f_0_2_eq.
  apply (add_at_least _ _ 7205759403792794 (-55) 7205759403792794 (-55)).
  1-3: reflexivity.
  - apply Z.leb_le. vm_compute. reflexivity.
  - apply at_least_py_max; [ reflexivity | ].
    apply sub_valid; repeat apply field_or_valid; auto.
  - apply at_least_py_max; [ reflexivity | ]. apply div_valid.
Qed.

Lemma accumulate_numeric fallback weighted_sum total_weight segment :
  numeric_segment segment ->
  accumulate fallback (weighted_sum, total_weight) segment =
  Ok (F64.add weighted_sum (F64.mul (confidence_of fallback segment) (weight_of segment)),
      F64.add total_weight (weight_of segment)).
Proof.
  destruct segment as [ | | | | | | d ]; try contradiction.
  intros (Hs & He & Hc). unfold accumulate, py_get_default.
  cbv beta iota delta [rbind].
  rewrite (py_float_field d "start" F64.zero Hs).
  rewrite (py_float_field d "end" _ He).
  rewrite (py_float_field d "confidence" fallback Hc).
  reflexivity.
Qed.

Lemma accumulate_all_numeric fallback segments : forall weighted_sum total_weight,
  Forall numeric_segment segments ->
  exists weighted_sum',
    accumulate_all fallback (weighted_sum, total_weight) segments =
    Ok (weighted_sum', fold_left F64.add (map weight_of segments) total_weight).
Proof.
  induction segments as [ | segment rest IH ]; intros weighted_sum total_weight Hall.
  - exists weighted_sum. reflexivity.
  - inversion Hall as [ | ? ? Hseg Hrest ]; subst.
    cbn [accumulate_all]. rewrite accumulate_numeric by exact Hseg.
    cbv beta iota delta [rbind]. apply IH. exact Hrest.
Qed.

Lemma total_at_least weights : forall total,
  at_least f_0_4 total ->
  Forall (at_least f_0_4) weights ->
  at_least f_0_4 (fold_left F64.add weights total).
Proof.
  induction weights as [ | weight rest IH ]; intros total Htotal Hall; [ exact Htotal | ].
  inversion Hall as [ | ? ? Hw Hrest ]; subst. cbn [fold_left]. apply IH; [ | exact Hrest ].
  rewrite f_0_4_eq in *.
  apply (add_at_least _ _ 7205759403792794 (-54) 7205759403792794 (-54)).
  1-3: reflexivity.
  - apply Z.leb_le. vm_compute. reflexivity.
  - exact Htotal.
  - exact Hw.
Qed.

Lemma add_zero_l x : at_least f_0_4 x -> F64.add F64.zero x = x.
Proof.
  intros [ Hx _ ]. rewrite f_0_4_eq in Hx.
  destruct (leb_positive _ _ _ Hx) as [ -> | (mx & ex & ->) ]; reflexivity.
Qed.

Lemma at_least_positive x :
  at_least f_0_4 x ->
  F64.ltb F64.zero x = true /\ F64.leb x F64.zero = false /\ is_zero x = false.
Proof.
  intros [ Hx _ ]. rewrite f_0_4_eq in Hx.
  destruct (leb_positive _ _ _ Hx) as [ -> | (mx & ex & ->) ]; repeat split.
Qed.

(** C9. For a non-empty list of segments whose numeric fields are floats,
    every weight is at least [0.4]; the total weight is their sum, at least
    [0.4] and so strictly positive; the loop ends without an exception, the
    fallback branch is not taken and the division is by a number that is not
    zero; the confidence returned is the clamped mean and lies in
    [0, 1]. *)
Theorem aggregate_confidence_is_a_weighted_mean segments fallback :
  segments <> [] ->
  Forall numeric_segment segments ->
  let total_weight := fold_left F64.add (map weight_of segments) F64.zero in
  Forall (fun segment => F64.leb f_0_4 (weight_of segment) = true) segments /\
  F64.leb f_0_4 total_weight = true /\
  F64.ltb F64.zero total_weight = true /\
  F64.leb total_weight F64.zero = false /\
  exists weighted_sum confidence,
    accumulate_all fallback (F64.zero, F64.zero) segments = Ok (weighted_sum, total_weight) /\
    float_div weighted_sum total_weight = Ok (F64.div weighted_sum total_weight) /\
    aggregate_confidence segments fallback = Ok confidence /\
    confidence = clamp (F64.div weighted_sum total_weight) F64.zero F64.one /\
    F64.leb F64.zero confidence = true /\
    F64.leb confidence F64.one = true.
Proof.
  intros Hne Hall total_weight.
  assert (Hweights : Forall (at_least f_0_4) (map weight_of segments)).
  { rewrite Forall_map. eapply Forall_impl; [ | exact Hall ].
    intros segment. apply weight_at_least. }
  assert (Htotal : at_least f_0_4 total_weight).
  { unfold total_weight. destruct segments as [ | segment rest ]; [ contradiction | ].
    cbn [map fold_left] in *. inversion Hweights as [ | ? ? Hw Hrest ]; subst.
    rewrite (add_zero_l _ Hw). apply total_at_least; assumption. }
  destruct (at_least_positive _ Htotal) as (Hpos & Hnonpos & Hnz).
  split.
  { rewrite Forall_map in Hweights. eapply Forall_impl; [ | exact Hweights ].
    intros segment [ H _ ]. exact H. }
  split; [ apply Htotal | ]. split; [ exact Hpos | ]. split; [ exact Hnonpos | ].
  destruct (accumulate_all_numeric fallback segments F64.zero F64.zero Hall)
    as (weighted_sum & Hrun).
  fold total_weight in Hrun.
  exists weighted_sum, (clamp (F64.div weighted_sum total_weight) F64.zero F64.one).
  split; [ exact Hrun | ].
  assert (Hdiv : float_div weighted_sum total_weight = Ok (F64.div weighted_sum total_weight)).
  { unfold float_div. rewrite Hnz. reflexivity. }
  split; [ exact Hdiv | ]. split.
  - unfold aggregate_confidence. destruct segments as [ | segment rest ]; [ contradiction | ].
    rewrite Hrun. cbv beta iota delta [rbind]. rewrite Hnonpos, Hdiv. reflexivity.
  - split; [ reflexivity | apply clamp_range ].
Qed.

(** *** A single segment *)

Lemma normalize_single d confidence :
  float_field d "start" -> float_field d "end" ->
  float_field d "avg_logprob" -> float_field d "no_speech_prob" ->
  segment_confidence (PyDict d) = Ok confidence ->
  normalize_segments [PyDict d] = Ok [normalized d confidence].
Proof.
  intros Hs He Ha Hn Hc. cbn [normalize_segments is_dict negb].
  rewrite Hc. unfold py_get_default. cbv beta iota delta [rbind].
  rewrite (py_float_field d "start" F64.zero Hs), (py_float_field d "end" F64.zero He).
  rewrite (py_float_field d "avg_logprob" f_neg_0_7 Ha).
  rewrite (py_float_field d "no_speech_prob" F64.zero Hn).
  reflexivity.
Qed.

Lemma normalized_numeric d confidence :
  float_field d "start" -> float_field d "end" -> F64.valid confidence = true ->
  numeric_segment (normalized d confidence).
Proof.
  intros Hs He Hc. unfold normalized, numeric_segment, float_field. cbn.
  repeat split; try assumption; apply field_or_valid; auto.
Qed.

Lemma aggregate_single d confidence fallback :
  float_field d "start" -> float_field d "end" -> F64.valid confidence = true ->
  let weight := weight_of (normalized d confidence) in
  at_least f_0_4 weight /\
  aggregate_confidence [normalized d confidence] fallback =
    Ok (clamp (F64.div (F64.add F64.zero (F64.mul confidence weight)) weight) F64.zero F64.one).
Proof.
  intros Hs He Hc weight.
  pose proof (normalized_numeric d confidence Hs He Hc) as Hnum.
  pose proof (weight_at_least _ Hnum) as Hw. fold weight in Hw. split; [ exact Hw | ].
  destruct (at_least_positive _ Hw) as (_ & Hnonpos & Hnz).
  unfold aggregate_confidence. cbn [accumulate_all].
  rewrite accumulate_numeric by exact Hnum.
  cbv beta iota delta [rbind]. fold weight.
  rewrite (add_zero_l _ Hw), Hnonpos. unfold float_div. rewrite Hnz.
  reflexivity.
Qed.

Lemma clamp_zero_sign s : clamp (S754_zero s) F64.zero F64.one = F64.zero.
Proof. destruct s; reflexivity. Qed.

(** C8, as the code has it.  Let a segment have float fields, among them
    [no_speech_prob].
    - With [avg_logprob = 0] and [no_speech_prob = 0] its confidence is [1.0],
      and so is the aggregate confidence of the transcription that holds it
      alone, whatever [start], [end] and [text] are.
    - With [no_speech_prob = 1] its confidence is [0.0], and so is the
      aggregate confidence when the weight of the segment is finite. *)
Theorem single_segment_confidence {laws : RuntimeLaws rt} d no_speech_prob fallback :
  float_field d "start" -> float_field d "end" -> float_field d "avg_logprob" ->
  dict_get d "no_speech_prob" = Some (PyFloat no_speech_prob) ->
  F64.valid no_speech_prob = true ->
  (is_zero (field_or d "avg_logprob" f_neg_0_7) = true -> is_zero no_speech_prob = true ->
   segment_confidence (PyDict d) = Ok F64.one /\
   normalize_segments [PyDict d] = Ok [normalized d F64.one] /\
   aggregate_confidence [normalized d F64.one] fallback = Ok F64.one) /\
  (no_speech_prob = F64.one ->
   segment_confidence (PyDict d) = Ok F64.zero /\
   normalize_segments [PyDict d] = Ok [normalized d F64.zero] /\
   (is_infinity (weight_of (normalized d F64.zero)) = false ->
    aggregate_confidence [normalized d F64.zero] fallback = Ok F64.zero)).
Proof.
  intros Hs He Ha Hn Hvalid.
  assert (Hnf : float_field d "no_speech_prob") by (unfold float_field; rewrite Hn; exact Hvalid).
  assert (Hnsp : field_or d "no_speech_prob" F64.zero = no_speech_prob)
    by (unfold field_or; rewrite Hn; reflexivity).
  assert (Hrun : segment_confidence (PyDict d) =
                 rbind (math_exp (py_min F64.zero (field_or d "avg_logprob" f_neg_0_7)))
                   (fun log_prob_score =>
                      Ok (clamp (F64.mul log_prob_score
                                   (F64.sub F64.one (clamp no_speech_prob F64.zero F64.one)))
                            F64.zero F64.one))).
  { unfold segment_confidence, py_get_default. cbv beta iota delta [rbind].
    rewrite (py_float_field d "avg_logprob" f_neg_0_7 Ha).
    rewrite (py_float_field d "no_speech_prob" F64.zero Hnf), Hnsp. reflexivity. }
  split.
  - intros Havg Hzero.
    assert (Hc : segment_confidence (PyDict d) = Ok F64.one).
    { rewrite Hrun.
      destruct (field_or d "avg_logprob" f_neg_0_7) as [ sa | | | ]; try discriminate.
      destruct no_speech_prob as [ sn | | | ]; try discriminate.
      replace (py_min F64.zero (S754_zero sa)) with F64.zero by (destruct sa; reflexivity).
      unfold F64.zero. rewrite math_exp_zero. destruct sn; reflexivity. }
    split; [ exact Hc | ]. split; [ apply normalize_single; assumption | ].
    destruct (aggregate_single d F64.one fallback Hs He eq_refl) as [ Hw Hagg ].
    rewrite Hagg. set (weight := weight_of (normalized d F64.one)) in *.
    destruct Hw as [ Hle Hv ]. rewrite f_0_4_eq in Hle.
    destruct (leb_positive _ _ _ Hle) as [ -> | (mw & ew & ->) ]; [ reflexivity | ].
    rewrite mul_one_l by exact Hv.
    change (F64.add F64.zero (S754_finite false mw ew)) with (S754_finite false mw ew).
    rewrite div_self. reflexivity.
  - intros ->.
    assert (Hc : segment_confidence (PyDict d) = Ok F64.zero).
    { rewrite Hrun.
      assert (Hle : F64.leb (py_min F64.zero (field_or d "avg_logprob" f_neg_0_7)) F64.zero = true).
      { unfold py_min. destruct (F64.ltb _ F64.zero) eqn:Hlt; [ apply ltb_leb; exact Hlt | reflexivity ]. }
      destruct (math_exp_nonpos _ Hle) as (y & Hy & _ & H0 & H1). rewrite Hy.
      cbv beta iota delta [rbind]. f_equal.
      change (F64.sub F64.one (clamp F64.one F64.zero F64.one)) with F64.zero.
      destruct y as [ sy | [ | ] | | [ | ] my ey ]; try discriminate.
      - change (F64.mul (S754_zero sy) F64.zero) with (S754_zero (xorb sy false)).
        apply clamp_zero_sign.
      - reflexivity. }
    split; [ exact Hc | ]. split; [ apply normalize_single; assumption | ].
    intros Hfin.
    destruct (aggregate_single d F64.zero fallback Hs He eq_refl) as [ Hw Hagg ].
    rewrite Hagg. set (weight := weight_of (normalized d F64.zero)) in *.
    destruct Hw as [ Hle Hv ]. rewrite f_0_4_eq in Hle.
    destruct (leb_positive _ _ _ Hle) as [ Hinf | (mw & ew & ->) ].
    + rewrite Hinf in Hfin. discriminate.
    + reflexivity.
Qed.

End Confidence.

(** * The substitute runtime obeys the laws *)

Lemma Demo_laws : RuntimeLaws Demo.runtime.
Proof.
  constructor.
  - intros start stop num. simpl. unfold Demo.linspace. rewrite length_map, length_seq. reflexivity.
  - intros x xp fp. simpl. unfold Demo.interp. apply length_map.
  - intros s. reflexivity.
  - intros x Hx. simpl. unfold Demo.exp.
    destruct (is_zero x).
    + exists F64.one. repeat split.
    + rewrite Hx. exists (F64.ratio 1 2). repeat split.
Qed.

(** C8 as stated fails.  A segment from [-max] to [max] seconds with
    [no_speech_prob = 1] has confidence [0.0]; its weight overflows to
    infinity, the weighted sum [0.0 * inf] is a NaN, and [clamp] turns the
    NaN into [1.0]. *)
Lemma silent_segment_of_infinite_weight_scores_one :
  let d := ["start" |-> PyFloat (SFopp f_max); "end" |-> PyFloat f_max;
            "text" |-> PyStr "hm"; "avg_logprob" |-> PyFloat F64.zero;
            "no_speech_prob" |-> PyFloat F64.one] in
  @segment_confidence Demo.runtime (PyDict d) = Ok F64.zero /\
  @normalize_segments Demo.runtime [PyDict d] = Ok [@normalized Demo.runtime d F64.zero] /\
  @weight_of Demo.runtime (@normalized Demo.runtime d F64.zero) = S754_infinity false /\
  @aggregate_confidence Demo.runtime [@normalized Demo.runtime d F64.zero] f_0_75 = Ok F64.one.
Proof. vm_compute. repeat split. Qed.

Lemma single_segment_confidence_witness :
  let d := ["start" |-> PyFloat F64.zero; "end" |-> PyFloat F64.one;
            "text" |-> PyStr " hello"; "avg_logprob" |-> PyFloat F64.zero;
            "no_speech_prob" |-> PyFloat F64.zero] in
  @aggregate_confidence Demo.runtime [@normalized Demo.runtime d F64.one] f_0_75 = Ok F64.one.
Proof.
  intros d.
  apply (@single_segment_confidence Demo.runtime Demo_laws d F64.zero f_0_75);
    reflexivity.
Defined.

Lemma aggregate_confidence_is_a_weighted_mean_witness :
  let segments := [PyDict ["start" |-> PyFloat F64.zero; "end" |-> PyFloat F64.one;
                           "text" |-> PyStr "hello"; "confidence" |-> PyFloat (F64.ratio 1 2)];
                   PyDict ["text" |-> PyStr ""]] in
  F64.leb (fold_left F64.add (map (@weight_of Demo.runtime) segments) F64.zero) F64.zero = false.
Proof.
  intros segments.
  assert (Hne : segments <> []) by discriminate.
  assert (Hall : Forall (@numeric_segment) segments) by (repeat constructor).
  pose proof (@aggregate_confidence_is_a_weighted_mean Demo.runtime segments f_0_75 Hne Hall) as H.
  cbv zeta in H. exact (proj1 (proj2 (proj2 (proj2 H)))).
Defined.

(** * Resampling: the length of the output *)

Section Resampling.
Context {rt : Runtime} {laws : RuntimeLaws rt}.

(** Off the identity path the output has the length computed from the
    rates. *)
Lemma resample_length audio from_rate to_rate l :
  audio <> [] -> from_rate <> to_rate ->
  new_length (Z.of_nat (List.length audio)) from_rate to_rate = Ok l ->
  exists out,
    resample_linear audio from_rate to_rate = Ok out /\ List.length out = Z.to_nat l.
Proof.
  intros Hne Hrate Hl. unfold resample_linear.
  destruct (Z.eqb_spec from_rate to_rate) as [ Heq | _ ]; [ contradiction | ].
  assert (Hsize : (List.length audio =? 0)%nat = false)
    by (destruct audio; [ contradiction | reflexivity ]).
  rewrite Hsize. cbn [orb]. unfold new_length in Hl.
  cbv beta iota zeta delta [rbind] in Hl |- *.
  destruct (int_true_div _ from_rate) as [ duration | err ]; [ | discriminate ].
  destruct (float_of_int to_rate) as [ to_rate_f | err ]; [ | discriminate ].
  destruct (py_round _) as [ rounded | err ]; [ | discriminate ].
  injection Hl as <-.
  eexists. split; [ reflexivity | ].
  rewrite length_map, np_interp_length, np_linspace_length. reflexivity.
Qed.


End Resampling.


(** * Confidence: whatever the model reports *)

Section Reported.
Context {rt : Runtime}.

Ltac binds H :=
  repeat match type of H with
         | rbind ?r _ = Ok _ => destruct r eqn:?; [ rewrite rbind_Ok in H | discriminate H ]
         end.

Lemma compare_refl x : is_nan x = false -> SFcompare x x = Some Eq.
Proof.
  destruct x as [ s | s | | s m e ]; try discriminate; intros _; simpl.
  - reflexivity.
  - destruct s; reflexivity.
  - rewrite Z.compare_refl, Pos.compare_cont_refl. destruct s; reflexivity.
Qed.

Lemma leb_not_nan x y : F64.leb x y = true -> is_nan x = false /\ is_nan y = false.
Proof.
  unfold F64.leb, SFleb. destruct x, y; simpl; try discriminate; intros _; split; reflexivity.
Qed.

Lemma leb_refl x : is_nan x = false -> F64.leb x x = true.
Proof. intros H. unfold F64.leb, SFleb. rewrite (compare_refl x H). reflexivity. Qed.

(** X11. [clamp] between bounds in order returns a float between them,
    whatever the value: a value strictly inside comes back as it is, and a
    NaN comes back as the maximum, because [min(maximum, NaN)] keeps its
    first argument. *)
Theorem clamp_stays_within_bounds value minimum maximum :
  F64.leb minimum maximum = true ->
  (F64.leb minimum (clamp value minimum maximum) = true /\
   F64.leb (clamp value minimum maximum) maximum = true) /\
  (F64.ltb minimum value = true -> F64.ltb value maximum = true ->
   clamp value minimum maximum = value) /\
  (is_nan value = true -> F64.ltb minimum maximum = true ->
   clamp value minimum maximum = maximum).
Proof.
  intros Hle. destruct (leb_not_nan _ _ Hle) as [ Hmin Hmax ].
  unfold clamp, py_max, py_min. split; [ | split ].
  - destruct (F64.ltb value maximum) eqn:Hv.
    + destruct (F64.ltb minimum value) eqn:Hm.
      * split; apply ltb_leb; assumption.
      * split; [ apply leb_refl; exact Hmin | exact Hle ].
    + destruct (F64.ltb minimum maximum) eqn:Hm.
      * split; [ exact Hle | apply leb_refl; exact Hmax ].
      * split; [ apply leb_refl; exact Hmin | exact Hle ].
  - intros Hm Hv. rewrite Hv, Hm. reflexivity.
  - intros Hnan Hm. destruct value; try discriminate. simpl. rewrite Hm. reflexivity.
Qed.

Lemma segment_confidence_range segment confidence :
  segment_confidence segment = Ok confidence -> in_unit_range confidence.
Proof.
  unfold segment_confidence. intros H. binds H.
  injection H as <-. apply clamp_range.
Qed.

Lemma py_float_or_absent d key default :
  float_or_absent d key ->
  py_float (dict_get_default d key (PyFloat default)) = Ok (field_or d key default).
Proof.
  unfold float_or_absent, dict_get_default, field_or.
  destruct (dict_get d key) as [ [ | | | f | | | ] | ]; try contradiction; reflexivity.
Qed.

Lemma py_min_zero_nonpos x : F64.leb (py_min F64.zero x) F64.zero = true.
Proof.
  unfold py_min. destruct (F64.ltb x F64.zero) eqn:H; [ apply ltb_leb; exact H | reflexivity ].
Qed.

Lemma segment_confidence_returns {laws : RuntimeLaws rt} d :
  float_or_absent d "avg_logprob" -> float_or_absent d "no_speech_prob" ->
  exists confidence, segment_confidence (PyDict d) = Ok confidence.
Proof.
  intros Ha Hn. unfold segment_confidence. cbv beta iota delta [rbind py_get_default].
  rewrite (py_float_or_absent d "avg_logprob" f_neg_0_7 Ha).
  rewrite (py_float_or_absent d "no_speech_prob" F64.zero Hn).
  destruct (math_exp_nonpos _ (py_min_zero_nonpos (field_or d "avg_logprob" f_neg_0_7)))
    as (y & -> & _).
  eexists. reflexivity.
Qed.

(** X12. On a segment whose [avg_logprob] and [no_speech_prob] are floats or
    absent, [segment_confidence] returns, and what it returns is within [0,
    1], whatever the floats: NaN, infinities and probabilities out of range
    included.  The argument of [exp] is never positive. *)
Theorem segment_confidence_is_total {laws : RuntimeLaws rt} d :
  float_or_absent d "avg_logprob" -> float_or_absent d "no_speech_prob" ->
  exists confidence,
    segment_confidence (PyDict d) = Ok confidence /\ in_unit_range confidence.
Proof.
  intros Ha Hn. destruct (segment_confidence_returns d Ha Hn) as (confidence & H).
  exists confidence. split; [ exact H | apply (segment_confidence_range _ _ H) ].
Qed.

(** What [normalize_segments] returns holds one segment for each [dict] of
    the list, in the shape of the response. *)
Lemma normalize_segments_shape raw_segments : forall segments,
  normalize_segments raw_segments = Ok segments ->
  Forall response_segment segments /\
  List.length segments = List.length (filter is_dict raw_segments).
Proof.
  induction raw_segments as [ | segment rest IH ]; intros segments H; simpl in H.
  - injection H as <-. split; [ constructor | reflexivity ].
  - simpl filter. destruct (is_dict segment); cbn [negb] in H; cbv iota in H.
    + binds H. injection H as <-.
      destruct (IH _ eq_refl) as [ Hall Hlen ]. split.
      * constructor; [ | exact Hall ].
        do 6 eexists. split; [ reflexivity | ].
        eapply segment_confidence_range. eassumption.
      * simpl. f_equal. exact Hlen.
    + apply IH. exact H.
Qed.

(** X13. On the segments a model reports, [normalize_segments] returns: it
    drops what is not a [dict], keeps the order, and writes for each
    [dict] the six fields with the defaults of the source, the text
    stripped and the confidence [segment_confidence] gives. *)
Theorem normalize_segments_is_total {laws : RuntimeLaws rt} raw_segments :
  Forall model_segment raw_segments ->
  exists segments,
    normalize_segments raw_segments = Ok segments /\
    Forall2 (fun segment out =>
               exists d confidence,
                 segment = PyDict d /\ segment_confidence segment = Ok confidence /\
                 in_unit_range confidence /\ out = normalized d confidence)
            (filter is_dict raw_segments) segments.
Proof.
  induction 1 as [ | segment rest Hseg _ IH ].
  - exists []. split; [ reflexivity | constructor ].
  - destruct IH as (segments & Hrest & Hall).
    destruct segment as [ | b | z | f | s | l | d ];
      try (exists segments; split; [ exact Hrest | exact Hall ]).
    destruct Hseg as (Hs & He & Ha & Hn).
    pose proof (segment_confidence_returns d Ha Hn) as Hc.
    destruct Hc as (confidence & Hc).
    exists (normalized d confidence :: segments). split.
    + simpl normalize_segments. rewrite Hc.
      cbv beta iota delta [rbind py_get_default].
      rewrite (py_float_or_absent d "start" F64.zero Hs).
      rewrite (py_float_or_absent d "end" F64.zero He).
      rewrite (py_float_or_absent d "avg_logprob" f_neg_0_7 Ha).
      rewrite (py_float_or_absent d "no_speech_prob" F64.zero Hn).
      rewrite Hrest. reflexivity.
    + simpl filter. constructor; [ | exact Hall ].
      exists d, confidence. split; [ reflexivity | ]. split; [ exact Hc | ].
      split; [ exact (segment_confidence_range _ _ Hc) | reflexivity ].
Qed.

(** The loop of [aggregate_confidence] runs through segments in the shape
    of the response. *)
Lemma accumulate_all_response fallback segments : forall acc,
  Forall response_segment segments ->
  exists acc', accumulate_all fallback acc segments = Ok acc'.
Proof.
  induction segments as [ | segment rest IH ]; intros acc Hall.
  - exists acc. reflexivity.
  - inversion Hall as [ | ? ? Hseg Hrest ]; subst.
    destruct Hseg as (start & end_ & text & confidence & a & p & -> & _).
    destruct acc as [ weighted_sum total_weight ].
    cbn [accumulate_all]. 
    assert (Hstep : exists acc1,
               accumulate fallback (weighted_sum, total_weight)
                 (PyDict ["start" |-> PyFloat start; "end" |-> PyFloat end_;
                          "text" |-> PyStr text; "confidence" |-> PyFloat confidence;
                          "avg_logprob" |-> PyFloat a; "no_speech_prob" |-> PyFloat p]) = Ok acc1)
      by (eexists; reflexivity).
    destruct Hstep as (acc1 & ->). rewrite rbind_Ok. apply IH. exact Hrest.
Qed.

Lemma zero_leb_zero x : is_zero x = true -> F64.leb x F64.zero = true.
Proof. destruct x as [ [ | ] | | | ]; try discriminate; reflexivity. Qed.

(** Whenever [aggregate_confidence] returns, what it returns is within [0,
    1]; and the division it makes is never by zero. *)
Lemma aggregate_confidence_range segments fallback confidence :
  aggregate_confidence segments fallback = Ok confidence -> in_unit_range confidence.
Proof.
  unfold aggregate_confidence. intros H.
  destruct segments as [ | segment rest ]; [ injection H as <-; apply clamp_range | ].
  destruct (accumulate_all _ _ _) as [ [ weighted_sum total_weight ] | e ]; [ | discriminate H ].
  rewrite rbind_Ok in H.
  destruct (F64.leb total_weight F64.zero); [ injection H as <-; apply clamp_range | ].
  binds H. injection H as <-. apply clamp_range.
Qed.

Lemma aggregate_confidence_response segments fallback :
  Forall response_segment segments ->
  exists confidence,
    aggregate_confidence segments fallback = Ok confidence /\ in_unit_range confidence.
Proof.
  intros Hall.
  assert (H : exists confidence, aggregate_confidence segments fallback = Ok confidence).
  { unfold aggregate_confidence. destruct segments as [ | segment rest ]; [ eexists; reflexivity | ].
    destruct (accumulate_all_response fallback (segment :: rest) (F64.zero, F64.zero) Hall)
      as ([ weighted_sum total_weight ] & ->).
    rewrite rbind_Ok. destruct (F64.leb total_weight F64.zero) eqn:Hle; [ eexists; reflexivity | ].
    unfold float_div. destruct (is_zero total_weight) eqn:Hz.
    - rewrite (zero_leb_zero _ Hz) in Hle. discriminate.
    - eexists. reflexivity. }
  destruct H as (confidence & H). exists confidence. split; [ exact H | ].
  exact (aggregate_confidence_range _ _ _ H).
Qed.

(** X14. The two steps of [main] compose: on whatever [normalize_segments]
    returns, [aggregate_confidence] returns too, a value within [0, 1].
    The conversions of the loop find floats, and the division is guarded:
    a total weight that is zero takes the fallback. *)
Theorem aggregate_of_normalized_segments raw_segments segments fallback :
  normalize_segments raw_segments = Ok segments ->
  exists confidence,
    aggregate_confidence segments fallback = Ok confidence /\ in_unit_range confidence.
Proof.
  intros H. apply aggregate_confidence_response.
  apply (normalize_segments_shape raw_segments segments H).
Qed.

End Reported.

(** * Decoding: failures, lengths and the range of the samples *)

Section Frames.
Context {rt : Runtime}.

Lemma wav_bytes_to_float32_steps wav_bytes :
  wav_bytes_to_float32 wav_bytes =
  (wav_file <- wave_open wav_bytes ;;
   audio <- decode_frames (getsampwidth wav_file) (readframes wav_file) ;;
   audio <- (if 1 <? getnchannels wav_file
             then reshape_mean audio (getnchannels wav_file) else Ok audio) ;;
   Ok (audio, getframerate wav_file))%result.
Proof. reflexivity. Qed.

Lemma length_rows {A} (k : nat) (l : list A) : List.length (rows k l) = (List.length l / k)%nat.
Proof. unfold rows. rewrite length_map, length_seq. reflexivity. Qed.

(** The samples of frames of a supported width: one for each block of
    [sample_width] bytes, and none when a block is cut short. *)
Lemma decode_frames_length sample_width frame_bytes :
  sample_width = 1 \/ sample_width = 2 \/ sample_width = 4 ->
  if (List.length frame_bytes mod Z.to_nat sample_width =? 0)%nat
  then exists audio,
         decode_frames sample_width frame_bytes = Ok audio /\
         List.length audio = (List.length frame_bytes / Z.to_nat sample_width)%nat
  else decode_frames sample_width frame_bytes =
         Raise (mk_exn ValueError "buffer size must be a multiple of element size").
Proof.
  intros [ -> | [ -> | -> ] ]; unfold decode_frames, np_frombuffer;
    cbv beta iota delta [Z.eqb Pos.eqb];
    change (Z.to_nat 1) with 1%nat; change (Z.to_nat 2) with 2%nat;
    change (Z.to_nat 4) with 4%nat;
    destruct (_ mod _ =? 0)%nat; try reflexivity;
    rewrite rbind_Ok; eexists; (split; [ reflexivity | ]);
    rewrite !length_map, length_rows; reflexivity.
Qed.

(** X15. How decoding fails on a file [wave.open] reads, of a supported
    sample width: frames that do not hold whole samples are refused by
    [np.frombuffer], and samples that do not fill whole frames of
    [channels] samples are refused by [reshape]; both as [ValueError]. *)
Theorem wav_decoding_failures wav_bytes wav :
  wave_open wav_bytes = Ok wav ->
  getsampwidth wav = 1 \/ getsampwidth wav = 2 \/ getsampwidth wav = 4 ->
  (~ whole_samples wav ->
   wav_bytes_to_float32 wav_bytes =
     Raise (mk_exn ValueError "buffer size must be a multiple of element size")) /\
  (whole_samples wav -> 1 < getnchannels wav ->
   (sample_count wav mod Z.to_nat (getnchannels wav) <> 0)%nat ->
   wav_bytes_to_float32 wav_bytes =
     Raise (mk_exn ValueError
              ("cannot reshape array of size " ++ decimal (Z.of_nat (sample_count wav))
               ++ " into shape (" ++ decimal (getnchannels wav) ++ ")"))).
Proof.
  intros Hopen Hwidth. rewrite wav_bytes_to_float32_steps, Hopen, rbind_Ok.
  pose proof (decode_frames_length _ (readframes wav) Hwidth) as Hdec.
  unfold whole_samples, sample_count. split.
  - intros Hnot. destruct (Nat.eqb_spec (List.length (readframes wav) mod Z.to_nat (getsampwidth wav)) 0)
      as [ Hz | _ ]; [ contradiction | ].
    rewrite Hdec. reflexivity.
  - intros Hwhole Hc Hrows. rewrite Hwhole in Hdec. cbn [Nat.eqb] in Hdec.
    destruct Hdec as (audio & -> & Hlen). rewrite rbind_Ok.
    destruct (Z.ltb_spec 1 (getnchannels wav)); [ | lia ].
    unfold reshape_mean. rewrite Hlen.
    destruct (Nat.eqb_spec
                ((List.length (readframes wav) / Z.to_nat (getsampwidth wav))
                 mod Z.to_nat (getnchannels wav)) 0) as [ Hz | _ ]; [ contradiction | ].
    reflexivity.
Qed.

(** X16. What decoding returns holds one sample for each frame of the file:
    as many samples as the frames hold blocks of [channels * sample_width]
    bytes, no byte being dropped or padded.  The rate it returns is the one
    of the header, the one [get_sample_rate] of the synthesis worker reads
    off the same bytes. *)
Theorem decoding_returns_a_sample_per_frame wav_bytes wav audio sample_rate :
  wave_open wav_bytes = Ok wav ->
  wav_bytes_to_float32 wav_bytes = Ok (audio, sample_rate) ->
  let channels := if 1 <? getnchannels wav then Z.to_nat (getnchannels wav) else 1%nat in
  (List.length audio * (channels * Z.to_nat (getsampwidth wav)))%nat =
    List.length (readframes wav) /\
  sample_rate = getframerate wav /\
  get_sample_rate wav_bytes = Ok sample_rate.
Proof.
  intros Hopen H channels. subst channels.
  rewrite wav_bytes_to_float32_steps, Hopen, rbind_Ok in H.
  assert (Hwidth : getsampwidth wav = 1 \/ getsampwidth wav = 2 \/ getsampwidth wav = 4).
  { unfold decode_frames in H.
    destruct (Z.eqb_spec (getsampwidth wav) 1); [ tauto | ].
    destruct (Z.eqb_spec (getsampwidth wav) 2); [ tauto | ].
    destruct (Z.eqb_spec (getsampwidth wav) 4); [ tauto | ]. discriminate H. }
  pose proof (decode_frames_length _ (readframes wav) Hwidth) as Hdec.
  assert (Hw : (0 < Z.to_nat (getsampwidth wav))%nat) by lia.
  destruct (Nat.eqb_spec (List.length (readframes wav) mod Z.to_nat (getsampwidth wav)) 0)
    as [ Hwhole | _ ]; [ | rewrite Hdec in H; discriminate H ].
  destruct Hdec as (samples & Hsamples & Hlen). rewrite Hsamples, rbind_Ok in H.
  assert (Hbytes : (List.length samples * Z.to_nat (getsampwidth wav))%nat =
                   List.length (readframes wav)).
  { rewrite Hlen.
    pose proof (Nat.div_mod_eq (List.length (readframes wav)) (Z.to_nat (getsampwidth wav))). lia. }
  unfold get_sample_rate. rewrite Hopen, rbind_Ok.
  destruct (Z.ltb_spec 1 (getnchannels wav)) as [ Hc | Hc ].
  - unfold reshape_mean in H.
    destruct (Nat.eqb_spec (List.length samples mod Z.to_nat (getnchannels wav)) 0)
      as [ Hrows | _ ]; [ | discriminate H ].
    rewrite rbind_Ok in H. injection H as <- <-.
    rewrite length_map, length_rows. split; [ | split; reflexivity ].
    pose proof (Nat.div_mod_eq (List.length samples) (Z.to_nat (getnchannels wav))). nia.
  - rewrite rbind_Ok in H. injection H as <- <-. split; [ | split; reflexivity ]. lia.
Qed.

End Frames.

Section Binary32.

Local Notation "'fexp32'" := (SpecFloat.fexp F32.prec F32.emax).
Local Notation "'digits'" := Zdigits2.

Lemma fexp32_eq e : fexp32 e = Z.max (e - 24) (-149).
Proof. reflexivity. Qed.

Lemma shr_fexp32_spec m e l :
  0 <= m -> e <= fexp32 (digits m + e) ->
  shr_m (fst (shr_fexp F32.prec F32.emax m e l)) = m / 2 ^ (fexp32 (digits m + e) - e) /\
  snd (shr_fexp F32.prec F32.emax m e l) = fexp32 (digits m + e).
Proof.
  intros Hm He. unfold shr_fexp, shr.
  destruct (fexp32 (digits m + e) - e) as [ | k | k ] eqn:Hk; try lia.
  - simpl. rewrite shr_record_of_loc_m, Z.div_1_r. split; [ reflexivity | lia ].
  - simpl fst. simpl snd. rewrite iter_shr_m by (rewrite shr_record_of_loc_m; exact Hm).
    rewrite shr_record_of_loc_m. split; [ reflexivity | lia ].
Qed.

(** A mantissa of 24 bits at an exponent within range is kept as it is,
    however many zero bits are shifted out. *)
Lemma bra32_exact s m e k :
  digits (Zpos m) = 24 -> -149 <= e <= 104 -> 0 <= k ->
  binary_round_aux F32.prec F32.emax s (Zpos m * 2 ^ k) (e - k) loc_Exact = S754_finite s m e.
Proof.
  intros Hd He Hk.
  assert (Hc : fexp32 (24 + e) = e) by (rewrite fexp32_eq; lia).
  unfold binary_round_aux, shr_fexp.
  rewrite digits_mul_pow2 by lia. rewrite Hd.
  replace (24 + k + (e - k)) with (24 + e) by lia.
  rewrite Hc. replace (e - (e - k)) with k by lia.
  assert (Hfirst : shr (shr_record_of_loc (Zpos m * 2 ^ k) loc_Exact) (e - k) k =
                   (Build_shr_record (Zpos m) false false, e)).
  { unfold shr. destruct k as [ | p | p ]; try lia.
    - rewrite Z.pow_0_r, Z.mul_1_r, Z.sub_0_r. reflexivity.
    - cbn [shr_record_of_loc]. rewrite iter_shr_exact by lia. f_equal. lia. }
  rewrite Hfirst. simpl shr_m. simpl loc_of_shr_record. simpl round_nearest_even.
  rewrite Hd, Hc, Z.sub_diag. cbn [shr shr_record_of_loc shr_m].
  assert (Hle : (e <=? F32.emax - F32.prec) = true) by (apply Z.leb_le; change (e <= 104); lia).
  rewrite Hle. reflexivity.
Qed.

(** The [float32] of an integer below [2 ^ j]: a mantissa of 24 bits, and
    a value that is at most [2 ^ j]. *)
Lemma of_int32 s p j :
  Zpos p < 2 ^ j -> j <= 100 ->
  exists m e,
    binary_round F32.prec F32.emax s p 0 = S754_finite s m e /\
    digits (Zpos m) = 24 /\ -23 <= e /\ e + 23 <= j /\
    (e + 23 = j -> Zpos m = 2 ^ 23).
Proof.
  intros Hp Hj.
  assert (Hj0 : 0 <= j).
  { destruct (Z.le_gt_cases 0 j) as [ H | H ]; [ exact H | ].
    rewrite Z.pow_neg_r in Hp by lia. lia. }
  pose proof (digits_bounds (Zpos p) ltac:(lia)) as [ Hlo Hhi ].
  pose proof (digits_pos (Zpos p) ltac:(lia)) as Hd1.
  assert (Hdj : digits (Zpos p) <= j) by (apply digits_le; lia).
  set (d := digits (Zpos p)) in *.
  unfold binary_round.
  replace (Zpos (digits2_pos p) + 0) with d by (unfold d; simpl; lia).
  assert (HE : fexp32 d = d - 24) by (rewrite fexp32_eq; lia).
  pose proof (shl_align_spec p 0 (fexp32 d)) as [ Hez Hmz ].
  destruct (shl_align p 0 (fexp32 d)) as [ mz ez ]. cbn [fst snd] in Hez, Hmz.
  rewrite HE in Hez, Hmz.
  destruct (Z.le_gt_cases d 24) as [ Hsmall | Hlarge ].
  - (* the integer has 24 bits at most: it is a float32 *)
    replace (Z.min 0 (d - 24)) with (d - 24) in * by lia. subst ez.
    replace (0 - (d - 24)) with (24 - d) in Hmz by lia.
    assert (Hdz : digits (Zpos mz) = 24) by (rewrite Hmz, digits_mul_pow2 by lia; fold d; lia).
    exists mz, (d - 24).
    pose proof (bra32_exact s mz (d - 24) 0 Hdz ltac:(lia) ltac:(lia)) as H.
    rewrite Z.pow_0_r, Z.mul_1_r, Z.sub_0_r in H.
    split; [ exact H | ]. split; [ exact Hdz | ]. split; [ lia | ]. split; [ lia | ].
    intros Heq. exfalso.
    assert (d = j + 1) by lia. lia.
  - (* it is rounded to 24 bits *)
    replace (Z.min 0 (d - 24)) with 0 in * by lia. subst ez.
    rewrite Z.sub_0_r, Z.pow_0_r, Z.mul_1_r in Hmz. rewrite Hmz.
    set (E := d - 24) in *.
    assert (Hpk : 0 < 2 ^ E) by (apply Z.pow_pos_nonneg; lia).
    assert (HP : 0 <= fexp32 (digits (Zpos p) + 0)).
    { rewrite Z.add_0_r. fold d. rewrite HE. lia. }
    unfold binary_round_aux.
    pose proof (shr_fexp32_spec (Zpos p) 0 loc_Exact ltac:(lia) HP) as [ Hq He1 ].
    destruct (shr_fexp F32.prec F32.emax (Zpos p) 0 loc_Exact) as [ mrs' e' ].
    cbn [fst snd] in Hq, He1. rewrite Z.add_0_r in Hq, He1. fold d in Hq, He1.
    rewrite HE, Z.sub_0_r in Hq. rewrite HE in He1. subst e'.
    pose proof (round_nearest_even_bounds (shr_m mrs') (loc_of_shr_record mrs')) as Hm1.
    set (m1 := round_nearest_even (shr_m mrs') (loc_of_shr_record mrs')) in *.
    rewrite Hq in Hm1. set (q := Zpos p / 2 ^ E) in *.
    assert (Hdq : digits q = 24).
    { unfold q. rewrite digits_div_pow2 by (fold d; lia). fold d. lia. }
    assert (Hq0 : 0 < q).
    { assert (0 <= q) by (apply Z.div_pos; lia).
      destruct (Z.eq_dec q 0) as [ Hz | Hz ]; [ rewrite Hz in Hdq; discriminate Hdq | lia ]. }
    pose proof (digits_bounds q Hq0) as [ Hqlo Hqhi ].
    rewrite Hdq in Hqlo, Hqhi. change (24 - 1) with 23 in Hqlo.
    destruct (Z.eq_dec m1 (2 ^ 24)) as [ Hcarry | Hnot ].
    + (* the carry *)
      assert (Hf : fexp32 (digits m1 + E) = E + 1).
      { rewrite Hcarry. change (digits (2 ^ 24)) with 25. rewrite fexp32_eq. lia. }
      pose proof (shr_fexp32_spec m1 E loc_Exact ltac:(lia) ltac:(lia)) as [ Hm2 He2 ].
      destruct (shr_fexp F32.prec F32.emax m1 E loc_Exact) as [ mrs'' e'' ].
      cbn [fst snd] in Hm2, He2. subst e''. rewrite Hm2, Hf.
      replace (E + 1 - E) with 1 by lia. rewrite Hcarry.
      change (2 ^ 24 / 2 ^ 1) with (Zpos (2 ^ 23)).
      assert (Hle : (E + 1 <=? F32.emax - F32.prec) = true)
        by (apply Z.leb_le; change (E + 1 <= 104); lia).
      rewrite Hle. exists (2 ^ 23)%positive, (E + 1).
      split; [ reflexivity | ]. split; [ reflexivity | ]. split; [ lia | ].
      split; [ lia | ]. intros _. reflexivity.
    + assert (Hd1' : digits m1 = 24).
      { apply Z.le_antisymm; [ apply digits_le; lia | apply (digits_ge m1 23); lia ]. }
      assert (Hf : fexp32 (digits m1 + E) = E) by (rewrite Hd1', fexp32_eq; lia).
      pose proof (shr_fexp32_spec m1 E loc_Exact ltac:(lia) ltac:(lia)) as [ Hm2 He2 ].
      destruct (shr_fexp F32.prec F32.emax m1 E loc_Exact) as [ mrs'' e'' ].
      cbn [fst snd] in Hm2, He2. subst e''. rewrite Hm2, Hf, Z.sub_diag, Z.pow_0_r, Z.div_1_r.
      destruct m1 as [ | m' | m' ]; try lia.
      assert (Hle : (E <=? F32.emax - F32.prec) = true)
        by (apply Z.leb_le; change (E <= 104); lia).
      rewrite Hle. exists m', E.
      split; [ reflexivity | ]. split; [ exact Hd1' | ]. split; [ lia | ].
      split; [ lia | ]. intros Heq. exfalso. assert (d = j + 1) by lia. lia.
Qed.

(** Dividing by a power of two moves the exponent. *)
Lemma div32_pow2 s m e k :
  digits (Zpos m) = 24 -> -148 <= e - k <= 104 -> 
  SFdiv F32.prec F32.emax (S754_finite s m e) (S754_finite false (2 ^ 23) (k - 23)) =
  S754_finite s m (e - k).
Proof.
  intros Hd He. unfold SFdiv, SFdiv_core_binary.
  rewrite Hd. change (digits (Zpos (2 ^ 23))) with 24.
  replace (24 + e - (24 + (k - 23))) with (e - k + 23) by lia.
  assert (Hf : fexp32 (e - k + 23) = e - k - 1) by (rewrite fexp32_eq; lia).
  rewrite Hf. replace (Z.min (e - k - 1) (e - (k - 23))) with (e - k - 1) by lia.
  replace (e - (k - 23) - (e - k - 1)) with 24 by lia.
  cbv iota. rewrite div_eucl_eq, Z.shiftl_mul_pow2 by lia.
  replace (Zpos m * 2 ^ 24) with (2 * Zpos m * Zpos (2 ^ 23))
    by (change (2 ^ 24) with (2 * 2 ^ 23); change (Zpos (2 ^ 23)) with (2 ^ 23); ring).
  rewrite Z.div_mul, Z.mod_mul by lia.
  change (new_location (Zpos (2 ^ 23)) 0) with loc_Exact.
  cbn [xorb]. rewrite xorb_false_r.
  pose proof (bra32_exact s m (e - k) 1 Hd ltac:(lia) ltac:(lia)) as H.
  change (2 ^ 1) with 2 in H. rewrite Z.mul_comm in H. exact H.
Qed.

(** A sample of [k + 1] bits over [2 ^ k] is within [-1, 1]. *)
Lemma scaled_sample_in_range k z :
  k = 7 \/ k = 15 \/ k = 31 -> - 2 ^ k <= z < 2 ^ k ->
  sample_in_range (F32.div (F32.of_Z z) (F32.of_Z (2 ^ k))).
Proof.
  intros Hk Hz.
  assert (Hdiv : F32.of_Z (2 ^ k) = S754_finite false (2 ^ 23) (k - 23))
    by (destruct Hk as [ -> | [ -> | -> ] ]; reflexivity).
  assert (Hk' : 0 <= k <= 31) by lia.
  rewrite Hdiv. unfold F32.div, sample_in_range.
  change (F32.of_Z (-1)) with (S754_finite true (2 ^ 23) (-23)).
  change (F32.of_Z 1) with (S754_finite false (2 ^ 23) (-23)).
  destruct z as [ | p | p ].
  - split; reflexivity.
  - destruct (of_int32 false p k ltac:(lia) ltac:(lia)) as (m & e & Hof & Hd & He & Hj & Htop).
    change (F32.of_Z (Zpos p)) with (binary_round F32.prec F32.emax false p 0). rewrite Hof.
    rewrite div32_pow2 by (try exact Hd; lia). split; [ reflexivity | ].
    apply leb_finite. destruct (Z.eq_dec (e + 23) k) as [ Heq | Hne ].
    + right. rewrite (Htop Heq). split; [ lia | reflexivity ].
    + left. lia.
  - change (F32.of_Z (Zneg p)) with (binary_round F32.prec F32.emax true p 0).
    destruct (Z.eq_dec (Zpos p) (2 ^ k)) as [ Hmin | Hnot ].
    + assert (Hp : p = Z.to_pos (2 ^ k)) by (rewrite <- Hmin; reflexivity).
      rewrite Hp. destruct Hk as [ -> | [ -> | -> ] ]; split; reflexivity.
    + destruct (of_int32 true p k ltac:(lia) ltac:(lia)) as (m & e & Hof & Hd & He & Hj & Htop).
      rewrite Hof. rewrite div32_pow2 by (try exact Hd; lia). split; [ | reflexivity ].
      unfold SFleb, SFcompare.
      destruct (Z.compare_spec (-23) (e - k)) as [ Heq | Hlt | Hgt ]; try reflexivity; try lia.
      assert (Hm : Zpos m = 2 ^ 23) by (apply Htop; lia).
      injection Hm as ->. reflexivity.
Qed.

End Binary32.

Section Range.
Context {rt : Runtime}.

Lemma le_unsigned_range bs : 0 <= le_unsigned bs < 2 ^ (8 * Z.of_nat (List.length bs)).
Proof.
  induction bs as [ | b bs IH ]; [ simpl; lia | ].
  cbn [le_unsigned List.length]. rewrite Nat2Z.inj_succ.
  replace (8 * Z.succ (Z.of_nat (List.length bs))) with (8 + 8 * Z.of_nat (List.length bs)) by lia.
  rewrite Z.pow_add_r by lia. change (2 ^ 8) with 256.
  assert (0 <= Z.of_N (Byte.to_N b) < 256) by (destruct b; simpl; lia). lia.
Qed.

Lemma le_signed_range bs :
  bs <> [] ->
  - 2 ^ (8 * Z.of_nat (List.length bs) - 1) <= le_signed bs
    < 2 ^ (8 * Z.of_nat (List.length bs) - 1).
Proof.
  intros Hne. unfold le_signed. pose proof (le_unsigned_range bs) as Hu.
  assert (Hlen : 0 < Z.of_nat (List.length bs)) by (destruct bs; [ contradiction | simpl; lia ]).
  set (bits := 8 * Z.of_nat (List.length bs)) in *.
  assert (Hpow : 2 ^ bits = 2 * 2 ^ (bits - 1)).
  { replace bits with (1 + (bits - 1)) at 1 by lia. rewrite Z.pow_add_r by lia. reflexivity. }
  assert (0 < 2 ^ (bits - 1)) by (apply Z.pow_pos_nonneg; lia).
  destruct (Z.ltb_spec (le_unsigned bs) (2 ^ (bits - 1))); lia.
Qed.

(** The rows of [k] items have [k] items. *)
Lemma rows_width {A} (k : nat) (l : list A) :
  Forall (fun row => List.length row = k) (rows k l).
Proof.
  unfold rows. apply Forall_forall. intros row Hin.
  apply in_map_iff in Hin. destruct Hin as (i & <- & Hi). apply in_seq in Hi.
  rewrite length_firstn, length_skipn.
  destruct k as [ | k ]; [ reflexivity | ].
  pose proof (Nat.div_mod_eq (List.length l) (S k)).
  pose proof (Nat.mod_upper_bound (List.length l) (S k) ltac:(lia)). nia.
Qed.

(** The samples read off the frames are within [-1, 1]. *)
Lemma decode_frames_in_range sample_width frame_bytes audio :
  decode_frames sample_width frame_bytes = Ok audio -> Forall sample_in_range audio.
Proof.
  unfold decode_frames, np_frombuffer. intros H.
  destruct (Z.eqb_spec sample_width 1) as [ H1 | _ ];
    [ | destruct (Z.eqb_spec sample_width 2) as [ H2 | _ ];
        [ | destruct (Z.eqb_spec sample_width 4) as [ H4 | _ ]; [ | discriminate H ] ] ].
  - destruct (_ =? 0)%nat; [ | discriminate H ]. rewrite rbind_Ok in H. injection H as <-.
    rewrite map_map. apply Forall_map.
    eapply Forall_impl; [ | apply (rows_width 1 frame_bytes) ].
    intros row Hrow. destruct row as [ | b [ | ? ? ] ]; try discriminate Hrow.
    rewrite sub_128_exact.
    apply (scaled_sample_in_range 7); [ left; reflexivity | ].
    pose proof (le_unsigned_range [b]) as Hu. change (2 ^ (8 * Z.of_nat (List.length [b]))) with 256 in Hu.
    change (2 ^ 7) with 128. lia.
  - destruct (_ =? 0)%nat; [ | discriminate H ]. rewrite rbind_Ok in H. injection H as <-.
    rewrite map_map. apply Forall_map.
    eapply Forall_impl; [ | apply (rows_width 2 frame_bytes) ].
    intros row Hrow.
    apply (scaled_sample_in_range 15); [ right; left; reflexivity | ].
    pose proof (le_signed_range row ltac:(intros ->; discriminate Hrow)) as Hs.
    rewrite Hrow in Hs. exact Hs.
  - destruct (_ =? 0)%nat; [ | discriminate H ]. rewrite rbind_Ok in H. injection H as <-.
    rewrite map_map. apply Forall_map.
    eapply Forall_impl; [ | apply (rows_width 4 frame_bytes) ].
    intros row Hrow.
    apply (scaled_sample_in_range 31); [ right; right; reflexivity | ].
    pose proof (le_signed_range row ltac:(intros ->; discriminate Hrow)) as Hs.
    rewrite Hrow in Hs. exact Hs.
Qed.

(** X17. Every sample decoded from a file of one channel is within [-1.0,
    1.0], in [float32] as it is computed: the bytes of a sample are one of
    [2 ^ 8], [2 ^ 16] or [2 ^ 32] integers, halved around zero and divided
    by the half.  The bound 1.0 itself is reached by the largest samples of
    32 bits, which [float32] rounds up to [2 ^ 31]. *)
Theorem decoded_samples_are_in_range wav_bytes wav audio sample_rate :
  wave_open wav_bytes = Ok wav -> getnchannels wav <= 1 ->
  wav_bytes_to_float32 wav_bytes = Ok (audio, sample_rate) ->
  Forall sample_in_range audio.
Proof.
  intros Hopen Hc H. rewrite wav_bytes_to_float32_steps, Hopen, rbind_Ok in H.
  destruct (decode_frames _ _) as [ samples | e ] eqn:Hdec; [ | discriminate H ].
  rewrite rbind_Ok in H. destruct (Z.ltb_spec 1 (getnchannels wav)); [ lia | ].
  rewrite rbind_Ok in H. injection H as <- _.
  apply (decode_frames_in_range _ _ _ Hdec).
Qed.

End Range.

(** * Resampling: exact lengths and edges *)

Section Quarters.

Local Notation "'fexp'" := (SpecFloat.fexp F64.prec F64.emax).
Local Notation "'digits'" := Zdigits2.

(** A multiple [a * 2 ^ - j] of a power of two, with [a] below [2 ^ 53], as
    an exact value to round: [round] of its double is [a / 2 ^ j] rounded
    half to even. *)
Lemma double_of_dyadic a j :
  0 < a < 2 ^ 53 -> 0 <= j <= 1000 ->
  exists mc ec,
    0 < mc /\ ec <= fexp (digits mc + ec) /\ fexp (digits mc + ec) + 1 <= 971 /\
    -2148 <= ec /\ mc * 2 ^ (ec - -2148) = a * 2 ^ (1074 - j) * 2 ^ 1074 /\
    py_round (binary_round_aux F64.prec F64.emax false mc ec loc_Exact) =
      Ok (round_half_even a j).
Proof.
  intros Ha Hj.
  pose proof (digits_bounds a ltac:(lia)) as [ Hlo Hhi ].
  pose proof (digits_pos a ltac:(lia)) as Hd1.
  assert (Hd : digits a <= 53) by (apply digits_le; lia).
  set (d := digits a) in *.
  assert (Hp : 0 < 2 ^ (53 - d)) by (apply Z.pow_pos_nonneg; lia).
  assert (Hm : 0 < a * 2 ^ (53 - d)) by lia.
  destruct (a * 2 ^ (53 - d)) as [ | mc | mc ] eqn:Hmc; try lia.
  assert (Hdm : digits (Zpos mc) = 53).
  { rewrite <- Hmc, digits_mul_pow2 by lia. fold d. lia. }
  assert (Hb : bounded F64.prec F64.emax mc (d - 53 - j) = true).
  { unfold bounded, canonical_mantissa. simpl Zdigits2 in Hdm. rewrite Hdm, fexp_eq.
    apply andb_true_intro. split; [ apply Z.eqb_eq; lia | apply Z.leb_le ].
    change (d - 53 - j <= 971). lia. }
  assert (Hval : Zpos mc * 2 ^ (d - 53 - j + 1074) = a * 2 ^ (1074 - j)).
  { rewrite <- Hmc, <- Z.mul_assoc, <- Z.pow_add_r by lia. do 2 f_equal. lia. }
  exists (Zpos mc), (d - 53 - j). rewrite Hdm, fexp_eq.
  split; [ lia | ]. split; [ lia | ]. split; [ lia | ]. split; [ lia | ]. split.
  - replace (d - 53 - j - -2148) with ((d - 53 - j + 1074) + 1074) by lia.
    rewrite Z.pow_add_r, Z.mul_assoc, Hval by lia. reflexivity.
  - pose proof (bra_exact false mc (d - 53 - j) 0 Hb ltac:(lia)) as H.
    rewrite Z.pow_0_r, Z.mul_1_r, Z.sub_0_r in H. rewrite H.
    rewrite py_round_units, Hval by lia.
    replace 1074 with (j + (1074 - j)) at 2 by lia.
    rewrite round_half_even_scale by lia. reflexivity.
Qed.

Lemma round_quarters_below l : round_half_even (4 * l - 1) 2 = l.
Proof.
  unfold round_half_even. change (2 ^ 2) with 4.
  replace ((4 * l - 1) / 4) with (l - 1) by (apply (Z.div_unique _ 4 (l - 1) 3); lia).
  replace ((4 * l - 1) mod 4) with 3 by (apply (Z.mod_unique _ 4 (l - 1) 3); lia).
  simpl. lia.
Qed.

Lemma round_quarters_above l : round_half_even (4 * l + 1) 2 = l.
Proof.
  unfold round_half_even. change (2 ^ 2) with 4.
  replace ((4 * l + 1) / 4) with l by (apply (Z.div_unique _ 4 l 1); lia).
  replace ((4 * l + 1) mod 4) with 1 by (apply (Z.mod_unique _ 4 l 1); lia).
  reflexivity.
Qed.

(** When the ideal length [n * t / s] is an integer [l], the length
    computed in doubles is [l]. *)
Lemma new_length_exact n s t l :
  0 < n < 2 ^ 52 -> 0 < s < 2 ^ 52 -> 0 < t < 2 ^ 52 ->
  n * t = l * s -> l <= 2 ^ 50 ->
  new_length n s t = Ok l.
Proof.
  intros Hn Hs Ht Hl Hbound.
  assert (Hlpos : 0 < l) by nia.
  unfold new_length.
  destruct (int_true_div_bounds n s Hn Hs)
    as (md & ed & q & W & -> & Hb & Hmd & Hed & HW & Hq & HD & Hfloor).
  destruct (mul_of_int md ed t Hb Hmd Hed ltac:(lia))
    as (T & m & e & -> & HP & Hm & He & Hf & Hu & Hv).
  cbv beta iota delta [rbind]. rewrite HP.
  assert (H1074 : 0 < 2 ^ 1074) by (apply Z.pow_pos_nonneg; lia).
  assert (H1072 : 2 ^ 1074 = 4 * 2 ^ 1072) by (change 1074 with (2 + 1072); rewrite Z.pow_add_r by lia; reflexivity).
  assert (Hpow : 0 < 2 ^ 1072) by (apply Z.pow_pos_nonneg; lia).
  (* the quotient is within one unit in the last place, a quarter at most *)
  assert (HWt : W * t <= 2 ^ 1072).
  { assert (H1 : W * s * 2 ^ 52 <= n * 2 ^ 1074) by nia.
    assert (H2 : W * t * s * 2 ^ 52 <= l * s * 2 ^ 1074) by nia.
    assert (H3 : W * t * 2 ^ 52 <= l * 2 ^ 1074) by nia.
    assert (H4 : l * 2 ^ 1074 <= 2 ^ 50 * 2 ^ 1074) by nia.
    change (2 ^ 50) with (2 ^ 52 / 4) in H4. nia. }
  assert (Hlow : (4 * l - 1) * 2 ^ 1072 <= Zpos md * 2 ^ (ed + 1074) * t).
  { assert (l * s * 2 ^ 1074 < (q + 1) * s * W * t) by nia.
    assert (l * 2 ^ 1074 < (q + 1) * W * t) by nia. nia. }
  assert (Hhigh : Zpos md * 2 ^ (ed + 1074) * t <= (4 * l + 1) * 2 ^ 1072).
  { assert (q * W * t * s <= l * s * 2 ^ 1074) by nia.
    assert (q * W * t <= l * 2 ^ 1074) by nia. nia. }
  destruct (double_of_dyadic (4 * l - 1) 2 ltac:(lia) ltac:(lia))
    as (m1 & e1 & Hm1 & He1 & _ & Hu1 & Hv1 & Hr1).
  destruct (double_of_dyadic (4 * l + 1) 2 ltac:(lia) ltac:(lia))
    as (m2 & e2 & Hm2 & He2 & Hf2 & Hu2 & Hv2 & Hr2).
  change (1074 - 2) with 1072 in Hv1, Hv2.
  rewrite round_quarters_below in Hr1. rewrite round_quarters_above in Hr2.
  destruct (round_exact_mono m1 e1 m e (-2148) Hm1 He1 Hm He Hf Hu1 Hu)
    as (r1 & r & H1 & Hr & Hle1).
  { rewrite Hv, Hv1. apply Z.mul_le_mono_nonneg_r; [ lia | exact Hlow ]. }
  destruct (round_exact_mono m e m2 e2 (-2148) Hm He Hm2 He2 Hf2 Hu Hu2)
    as (r' & r2 & Hr' & H2 & Hle2).
  { rewrite Hv, Hv2. apply Z.mul_le_mono_nonneg_r; [ lia | exact Hhigh ]. }
  rewrite Hr1 in H1. injection H1 as <-. rewrite Hr2 in H2. injection H2 as <-.
  rewrite Hr in Hr'. injection Hr' as <-. rewrite Hr. f_equal.
  rewrite int_max_spec. lia.
Qed.

End Quarters.

Section ExactLength.
Context {rt : Runtime} {laws : RuntimeLaws rt}.

(** X18. A ratio that divides evenly is resampled exactly: when
    [sample_count * to_rate] is [l * from_rate] for an integer [l] (twice
    the samples from 8 kHz to 16 kHz, a third from 48 kHz to 16 kHz), the
    output has exactly [l] samples, the rounding of the doubles
    notwithstanding.  Lengths and rates are below [2 ^ 52], [l] is at most
    [2 ^ 50]. *)
Theorem resampling_by_an_even_ratio_is_exact audio from_rate to_rate l :
  audio <> [] -> Z.of_nat (List.length audio) < 2 ^ 52 ->
  0 < from_rate < 2 ^ 52 -> 0 < to_rate < 2 ^ 52 ->
  Z.of_nat (List.length audio) * to_rate = l * from_rate -> l <= 2 ^ 50 ->
  exists out,
    resample_linear audio from_rate to_rate = Ok out /\ Z.of_nat (List.length out) = l.
Proof.
  intros Hne Hlen Hfrom Hto Hl Hbound.
  assert (Hn : 0 < Z.of_nat (List.length audio) < 2 ^ 52).
  { destruct audio; [ contradiction | ]. cbn [List.length] in *. lia. }
  destruct (Z.eq_dec from_rate to_rate) as [ Heq | Hrate ].
  - exists audio. subst to_rate. rewrite resample_linear_same_rate. split; [ reflexivity | nia ].
  - pose proof (new_length_exact _ from_rate to_rate l Hn Hfrom Hto Hl Hbound) as Hnew.
    destruct (resample_length audio from_rate to_rate l Hne Hrate Hnew) as (out & Hout & Hlo).
    exists out. split; [ exact Hout | ]. rewrite Hlo. apply Z2Nat.id. nia.
Qed.

(** X19. Resampling never empties a buffer: whatever the rates, what
    [resample_linear] returns for a buffer that is not empty is not empty,
    the length being at least 1.  And a source rate of 0 is an error, not a
    result: the division of the length by it raises [ZeroDivisionError],
    unless the target rate is 0 too and the buffer comes back as it is. *)
Theorem resampling_never_empties audio from_rate to_rate :
  audio <> [] ->
  (forall out, resample_linear audio from_rate to_rate = Ok out -> out <> []) /\
  (from_rate = 0 -> to_rate <> 0 ->
   resample_linear audio from_rate to_rate =
     Raise (mk_exn ZeroDivisionError "division by zero")).
Proof.
  intros Hne.
  assert (Hsize : (List.length audio =? 0)%nat = false)
    by (destruct audio; [ contradiction | reflexivity ]).
  split.
  - intros out H. unfold resample_linear in H.
    destruct (Z.eqb_spec from_rate to_rate) as [ Heq | _ ].
    + cbn [orb] in H. injection H as <-. exact Hne.
    + rewrite Hsize in H. cbn [orb] in H. cbv beta iota zeta delta [rbind] in H.
      destruct (int_true_div _ from_rate) as [ duration | e ]; [ | discriminate H ].
      destruct (float_of_int to_rate) as [ to_rate_f | e ]; [ | discriminate H ].
      destruct (py_round _) as [ rounded | e ]; [ | discriminate H ].
      injection H as <-. intros Hnil.
      apply (f_equal (@List.length float32)) in Hnil.
      rewrite length_map, np_interp_length, np_linspace_length, int_max_spec in Hnil.
      simpl in Hnil. lia.
  - intros -> Hto. unfold resample_linear.
    destruct (Z.eqb_spec 0 to_rate) as [ Heq | _ ]; [ congruence | ].
    rewrite Hsize. reflexivity.
Qed.

End ExactLength.

(** * The request loop: order, refusals and outcomes *)

Section Requests.
Context {rt : Runtime}.







Ltac reply k :=
  eexists; exists k; split; cycle 1;
  [ intros; f_equal; first [ reflexivity | lia ] | ].

Ltac fallback_confidence :=
  intros ->;
  match goal with
  | H : aggregate_confidence [] _ = Ok _ |- _ => injection H as <-
  end;
  match goal with
  | |- context [is_empty ?text] => destruct (is_empty text)
  end;
  reflexivity.

Lemma whisper_replies_hold model : answers (whisper_request model) whisper_reply.
Proof.
  intros line c. unfold attempt, whisper_request, id_of_line, id_of.
  exec.
  all: first [ reply 0%nat | reply 1%nat | reply 2%nat ].
  all: try (apply whisper_refused).
  all: apply whisper_heard;
    [ eapply normalize_segments_shape; eassumption
    | eapply aggregate_confidence_range; eassumption
    | fallback_confidence ].
Qed.

Lemma get_sample_rate_header wav_bytes rate :
  get_sample_rate wav_bytes = Ok rate ->
  exists wav, wave_open wav_bytes = Ok wav /\ rate = getframerate wav.
Proof.
  unfold get_sample_rate. destruct (wave_open wav_bytes) as [ wav | e ]; [ | discriminate ].
  intros H. injection H as <-. exists wav. split; reflexivity.
Qed.

Lemma piper_replies_hold voice : answers (piper_request voice) piper_reply.
Proof.
  intros line c. unfold attempt, piper_request, id_of_line, id_of.
  exec.
  all: first [ reply 0%nat | reply 1%nat | reply 2%nat ].
  all: try (apply piper_refused).
  match goal with
  | H : get_sample_rate _ = Ok _ |- _ =>
      destruct (get_sample_rate_header _ _ H) as (wav & Hopen & ->)
  end.
  apply piper_spoken. exact Hopen.
Qed.

(** X7. Every result the recognition worker writes, whatever the requests
    and whatever the model answers, has a confidence within [0, 1] and
    segments in the shape of the response, each with a confidence within [0,
    1]; when there are no segments the confidence is [0.75] if the text is
    not empty and [0.0] if it is. *)
Theorem recognition_results_are_well_formed stdin p :
  In p (stdout (snd (whisper_main stdin initial_world))) ->
  dict_get p "event" = None ->
  dict_get p "success" = Some (PyBool true) ->
  exists text confidence segments,
    dict_get p "text" = Some (PyStr text) /\
    dict_get p "confidence" = Some (PyFloat confidence) /\
    dict_get p "segments" = Some (PyList segments) /\
    in_unit_range confidence /\
    Forall response_segment segments /\
    (segments = [] -> confidence = if is_empty text then F64.zero else f_0_75).
Proof.
  intros Hin Hevent Hsuccess.
  pose proof (whisper_main_output stdin) as Hmain.
  destruct (whisper_load_model _ _) as [ model | error ].
  - destruct Hmain as (model_name & device & ms & _ & Hout).
    rewrite Hout in Hin. destruct Hin as [ <- | Hin ]; [ discriminate Hevent | ].
    destruct (serve_frame _ _ (whisper_replies_hold model) stdin 2) as (k & Hall & _).
    rewrite Forall_forall in Hall. destruct (Hall p Hin) as (id & Hp).
    destruct Hp as [ message | text language confidence segments ms' Hseg Hrange Hfall ].
    + discriminate Hsuccess.
    + exists text, confidence, segments. repeat split; assumption || apply Hrange.
  - destruct Hmain as (message & Hmain). rewrite Hmain in Hin.
    destruct Hin as [ <- | [] ]. discriminate Hevent.
Qed.

(** X8. Every result the synthesis worker writes carries the base64 of
    bytes that [wave.open] reads, and the sample rate it reports is the one
    found in the header of those bytes. *)
Theorem synthesis_results_report_their_rate stdin p :
  In p (stdout (snd (piper_main stdin initial_world))) ->
  dict_get p "event" = None ->
  dict_get p "success" = Some (PyBool true) ->
  exists wav_bytes wav,
    dict_get p "audio_b64" = Some (PyStr (b64encode wav_bytes)) /\
    wave_open wav_bytes = Ok wav /\
    dict_get p "sample_rate" = Some (PyInt (getframerate wav)).
Proof.
  intros Hin Hevent Hsuccess.
  pose proof (piper_main_output stdin) as Hmain.
  destruct load_voice as [ voice | error ].
  - destruct Hmain as (ms & _ & Hout).
    rewrite Hout in Hin. destruct Hin as [ <- | Hin ]; [ discriminate Hevent | ].
    destruct (serve_frame _ _ (piper_replies_hold voice) stdin 2) as (k & Hall & _).
    rewrite Forall_forall in Hall. destruct (Hall p Hin) as (id & Hp).
    destruct Hp as [ message | wav_bytes wav ms' Hopen ].
    + discriminate Hsuccess.
    + exists wav_bytes, wav. repeat split. exact Hopen.
  - destruct Hmain as (message & Hmain). rewrite Hmain in Hin.
    destruct Hin as [ <- | [] ]. discriminate Hevent.
Qed.

(** X9. [to_float] returns the fallback exactly when [float(value)] raises
    [TypeError] or [ValueError]: for [None], a list, a [dict], and a string
    [float] cannot read.  A float comes back as it is, a [bool] as [1.0] or
    [0.0], an [int] as its double; an [int] too large for a double raises
    [OverflowError], which [to_float] does not catch. *)
Theorem to_float_falls_back value fallback :
  match value with
  | PyFloat f => to_float value fallback = Ok f
  | PyBool b => to_float value fallback = Ok (if b then F64.one else F64.zero)
  | PyInt z =>
      to_float value fallback =
        if is_infinity (F64.of_Z z)
        then Raise (mk_exn OverflowError "int too large to convert to float")
        else Ok (F64.of_Z z)
  | PyStr s =>
      to_float value fallback =
        Ok match float_of_string s with Some f => f | None => fallback end
  | PyNone | PyList _ | PyDict _ => to_float value fallback = Ok fallback
  end.
Proof.
  destruct value as [ | b | z | f | s | l | d ]; unfold to_float, py_float, float_of_int;
    try reflexivity.
  - destruct (is_infinity (F64.of_Z z)); reflexivity.
  - destruct (float_of_string s); reflexivity.
Qed.

(** X10. Without [PIPER_MODEL_PATH], unset or empty, [load_voice] raises
    before [PiperVoice.load] is called, and [main] writes the one event
    that says so, reads no line and returns 1. *)
Theorem voice_needs_a_model_path stdin :
  (forall path, getenv "PIPER_MODEL_PATH" = Some path -> path = EmptyString) ->
  load_voice = Raise (mk_exn RuntimeError "PIPER_MODEL_PATH is required") /\
  piper_main stdin initial_world =
    (1, mk_world [error_event "Failed to load Piper voice: PIPER_MODEL_PATH is required"] 0 1).
Proof.
  intros Hpath.
  assert (Hload : load_voice = Raise (mk_exn RuntimeError "PIPER_MODEL_PATH is required")).
  { unfold load_voice. destruct (getenv "PIPER_MODEL_PATH") as [ [ | ch path ] | ];
      try reflexivity. specialize (Hpath _ eq_refl). discriminate. }
  split; [ exact Hload | ]. unfold piper_main. rewrite Hload. reflexivity.
Qed.



End Requests.

(** * The further statements on the substitute runtimes *)







Lemma recognition_results_are_well_formed_witness :
  exists text confidence segments,
    dict_get (nth 1 (stdout (snd (@whisper_main Demo.runtime [Demo.line_transcribe] initial_world))) [])
      "text" = Some (PyStr text) /\
    dict_get (nth 1 (stdout (snd (@whisper_main Demo.runtime [Demo.line_transcribe] initial_world))) [])
      "confidence" = Some (PyFloat confidence) /\
    dict_get (nth 1 (stdout (snd (@whisper_main Demo.runtime [Demo.line_transcribe] initial_world))) [])
      "segments" = Some (PyList segments) /\
    in_unit_range confidence /\
    Forall response_segment segments /\
    (segments = [] -> confidence = if is_empty text then F64.zero else f_0_75).
Proof.
  apply (@recognition_results_are_well_formed Demo.runtime [Demo.line_transcribe]).
  - vm_compute. right. left. reflexivity.
  - reflexivity.
  - reflexivity.
Defined.

Lemma synthesis_results_report_their_rate_witness :
  exists wav_bytes wav,
    dict_get (nth 1 (stdout (snd (@piper_main Demo.runtime [Demo.line_synthesize] initial_world))) [])
      "audio_b64" = Some (PyStr (@b64encode Demo.runtime wav_bytes)) /\
    @wave_open Demo.runtime wav_bytes = Ok wav /\
    dict_get (nth 1 (stdout (snd (@piper_main Demo.runtime [Demo.line_synthesize] initial_world))) [])
      "sample_rate" = Some (PyInt (getframerate wav)).
Proof.
  apply (@synthesis_results_report_their_rate Demo.runtime [Demo.line_synthesize]).
  - vm_compute. right. left. reflexivity.
  - reflexivity.
  - reflexivity.
Defined.

Lemma voice_needs_a_model_path_witness :
  @piper_main Bare.runtime [Demo.line_synthesize] initial_world =
  (1, mk_world [error_event "Failed to load Piper voice: PIPER_MODEL_PATH is required"] 0 1).
Proof.
  apply (@voice_needs_a_model_path Bare.runtime [Demo.line_synthesize]).
  intros path H. discriminate H.
Defined.

Lemma clamp_stays_within_bounds_witness :
  clamp S754_nan F64.zero F64.one = F64.one.
Proof.
  apply (proj2 (proj2 (clamp_stays_within_bounds S754_nan F64.zero F64.one eq_refl)));
    reflexivity.
Defined.

Lemma segment_confidence_is_total_witness :
  exists confidence,
    @segment_confidence Demo.runtime (PyDict ["no_speech_prob" |-> PyFloat S754_nan]) = Ok confidence /\
    in_unit_range confidence.
Proof.
  apply (@segment_confidence_is_total Demo.runtime Demo_laws); exact I.
Defined.

Lemma normalize_segments_is_total_witness :
  exists segments,
    @normalize_segments Demo.runtime [PyStr "noise"; PyDict ["text" |-> PyStr " hello"]] =
      Ok segments /\
    Forall2 (fun segment out =>
               exists d confidence,
                 segment = PyDict d /\ @segment_confidence Demo.runtime segment = Ok confidence /\
                 in_unit_range confidence /\ out = @normalized Demo.runtime d confidence)
            [PyDict ["text" |-> PyStr " hello"]] segments.
Proof.
  apply (@normalize_segments_is_total Demo.runtime Demo_laws
           [PyStr "noise"; PyDict ["text" |-> PyStr " hello"]]).
  repeat constructor.
Defined.

Lemma aggregate_of_normalized_segments_witness :
  exists confidence,
    @aggregate_confidence Demo.runtime
      [@normalized Demo.runtime ["text" |-> PyStr " hello"] (F64.ratio 1 2)] f_0_75 =
      Ok confidence /\
    in_unit_range confidence.
Proof.
  apply (@aggregate_of_normalized_segments Demo.runtime [PyDict ["text" |-> PyStr " hello"]]).
  reflexivity.
Defined.

Lemma wav_decoding_failures_witness :
  @wav_bytes_to_float32 Demo.runtime [x01; x02; x00; x40; x7f]%byte =
  Raise (mk_exn ValueError "buffer size must be a multiple of element size").
Proof.
  apply (proj1 (@wav_decoding_failures Demo.runtime [x01; x02; x00; x40; x7f]%byte
                  (mk_wav 16000 1 2 [x00; x40; x7f]%byte) eq_refl
                  (or_intror (or_introl eq_refl)))).
  unfold whole_samples. simpl. discriminate.
Defined.

Lemma decoding_returns_a_sample_per_frame_witness :
  @get_sample_rate Demo.runtime Demo.one_frame = Ok 16000.
Proof.
  apply (@decoding_returns_a_sample_per_frame Demo.runtime Demo.one_frame
           (mk_wav 16000 1 2 [x00; x40]%byte)
           [F32.div (F32.of_Z 16384) (F32.of_Z 32768)] 16000); reflexivity.
Defined.

Lemma resampling_by_an_even_ratio_is_exact_witness :
  exists out,
    @resample_linear Demo.runtime [F32.of_Z 0; F32.of_Z 1; F32.of_Z 0] 8000 16000 = Ok out /\
    Z.of_nat (List.length out) = 6.
Proof.
  apply (@resampling_by_an_even_ratio_is_exact Demo.runtime Demo_laws); cbn [List.length];
    try lia.
  discriminate.
Defined.

Lemma resampling_never_empties_witness :
  @resample_linear Demo.runtime [F32.of_Z 1] 0 16000 =
  Raise (mk_exn ZeroDivisionError "division by zero").
Proof.
  apply (@resampling_never_empties Demo.runtime Demo_laws [F32.of_Z 1] 0 16000);
    [ discriminate | reflexivity | discriminate ].
Defined.


(** A file of one channel and 32 bits whose one sample is the largest:
    it decodes to [1.0]. *)
Lemma decoded_samples_are_in_range_witness :
  Forall sample_in_range [F32.of_Z 1].
Proof.
  apply (@decoded_samples_are_in_range Demo.runtime [x01; x04; xff; xff; xff; x7f]%byte
           (mk_wav 16000 1 4 [xff; xff; xff; x7f]%byte) [F32.of_Z 1] 16000).
  - reflexivity.
  - simpl. lia.
  - vm_compute. reflexivity.
Defined.
